(** * n8n-debug-mcp: the execution correlation engine

    A shallow embedding of [src/correlator.ts] (class [ExecutionCorrelator])
    and of the helper methods of [src/n8n-client.ts] it relies on, followed
    by the properties of the correlation search, the scorers and the
    webhook index.

    Conventions of the embedding.
    - JavaScript numbers that hold confidences are IEEE-754 binary64 values
      ([PrimFloat.float]); the literals [0.3], [0.5], ... are rounded to the
      nearest double exactly as the JavaScript parser does.
    - JavaScript numbers that hold times (milliseconds since the epoch) are
      [option Z]: [None] is [NaN], the time value of an unparsable date.
      Integer arithmetic on milliseconds is exact in binary64 over the whole
      range of valid dates.
    - A promise that rejects, or a synchronous [throw], is the outcome
      [Throw e]; [await] is sequencing.
    - The four network methods of [N8nClient] are the fields of a record of
      response functions (a fixed data source).
    - [findCorrelatedExecutions] recurses on a fuel argument; the section on
      termination shows that the fuel does not matter once there is enough
      of it.
    - Computations leave a trace of the requests they sent and of the calls
      of [findCorrelatedExecutions] they made, so that what a search does,
      and not only what it returns, can be stated. *)

From Stdlib Require Import ZArith String Ascii List Floats Lia.
From stdpp Require Import gmap strings list pretty.

#[local] Set Warnings "-inexact-float,-register-all,-clear-no-such-hyp".
#[local] Open Scope string_scope.
#[local] Open Scope list_scope.
#[local] Open Scope Z_scope.

(** ** JavaScript built-ins used by the two source files *)
Module Js.

(** [s.replace(/^p/, '')] for a literal [p], when the pattern matches. *)
Fixpoint strip_prefix (p s : string) : option string :=
  match p, s with
  | EmptyString, _ => Some s
  | String a p', String b s' => if Ascii.eqb a b then strip_prefix p' s' else None
  | String _ _, EmptyString => None
  end.

(** [s.replace(/^p/, '')]: an anchored pattern replaces at most once. *)
Definition replace_prefix (p s : string) : string :=
  match strip_prefix p s with Some r => r | None => s end.

(** [s.startsWith(p)] *)
Definition startsWith (s p : string) : bool :=
  match strip_prefix p s with Some _ => true | None => false end.

(** [s.includes(sub)] *)
Fixpoint includes (s sub : string) : bool :=
  startsWith s sub ||
  match s with
  | EmptyString => false
  | String _ s' => includes s' sub
  end.

(** [s.split(sep)] for a one-character separator; never the empty list. *)
Fixpoint split (sep : ascii) (s : string) : list string :=
  match s with
  | EmptyString => [EmptyString]
  | String c s' =>
      if Ascii.eqb c sep then EmptyString :: split sep s'
      else match split sep s' with
           | h :: t => String c h :: t
           | [] => [String c EmptyString]
           end
  end.

(** [l.join(sep)] *)
Fixpoint join (sep : string) (l : list string) : string :=
  match l with
  | [] => ""
  | [x] => x
  | x :: t => x +:+ sep +:+ join sep t
  end.

(** Values that [JSON.parse] produces ([unknown] in the source).  Numbers
    are the integral ones; an object lists its own properties, each key
    once. *)
Inductive value :=
| JNull
| JBool (b : bool)
| JNum (n : Z)
| JStr (s : string)
| JArr (items : list value)
| JObj (fields : list (string * value)).

(** [v.key]; [None] is [undefined].  Only plain objects carry the keys the
    source reads. *)
Fixpoint lookup_field (fields : list (string * value)) (key : string) : option value :=
  match fields with
  | [] => None
  | (k, v) :: rest => if String.eqb k key then Some v else lookup_field rest key
  end.

Definition prop (v : value) (key : string) : option value :=
  match v with
  | JObj fields => lookup_field fields key
  | _ => None
  end.

(** Truthiness, as tested by [if (x)], [x && y], [x || y]. *)
Definition truthy (v : value) : bool :=
  match v with
  | JNull => false
  | JBool b => b
  | JNum n => negb (n =? 0)
  | JStr s => negb (String.eqb s "")
  | JArr _ => true
  | JObj _ => true
  end.

Definition truthy_opt (o : option value) : bool :=
  match o with Some v => truthy v | None => false end.

(** Truthiness of a [string | undefined]. *)
Definition truthy_str (o : option string) : bool :=
  match o with Some s => negb (String.eqb s "") | None => false end.

(** [a || b] *)
Definition or_else (a b : option value) : option value :=
  if truthy_opt a then a else b.

(** [String(v)] *)
Fixpoint to_string (v : value) : string :=
  match v with
  | JNull => "null"
  | JBool true => "true"
  | JBool false => "false"
  | JNum n => pretty n
  | JStr s => s
  | JArr items =>
      join "," (List.map (fun x => match x with JNull => "" | _ => to_string x end) items)
  | JObj _ => "[object Object]"
  end.

(** Time values.  [None] is [NaN]; every comparison with [NaN] is false. *)
Definition num := option Z.

Definition num_add (a : num) (b : Z) : num := option_map (fun x => x + b) a.
Definition num_sub (a : num) (b : Z) : num := option_map (fun x => x - b) a.

Definition num_lt (a b : num) : bool :=
  match a, b with Some x, Some y => x <? y | _, _ => false end.

Definition num_gt (a b : num) : bool := num_lt b a.

(** [Math.abs(a - b)] *)
Definition num_abs_diff (a b : num) : num :=
  match a, b with Some x, Some y => Some (Z.abs (x - y)) | _, _ => None end.

(** [a < k] for an integer literal [k]. *)
Definition num_below (a : num) (k : Z) : bool := num_lt a (Some k).

(** [new Date(t)] holds [t] only within 8.64e15 ms of the epoch. *)
Definition valid_time (t : num) : bool :=
  match t with
  | Some x => Z.abs x <=? 8640000000000000
  | None => false
  end.

(** [Math.min(a, b)] on binary64. *)
Definition Math_min (a b : float) : float :=
  if PrimFloat.is_nan a || PrimFloat.is_nan b then PrimFloat.nan
  else if PrimFloat.ltb b a then b else a.

End Js.

(** ** [src/n8n-client.ts]: types and the pure helper methods *)
Module N8nClient.
Import Js.

(** [N8nNode]; [parameters.path] is read through the cast [as string]. *)
Record N8nNode := {
  node_name : string;
  node_type : string;
  node_path : option string
}.

Record N8nWorkflow := {
  wf_id : string;
  wf_name : string;
  wf_active : bool;
  wf_nodes : option (list N8nNode)
}.

(** [N8nNodeExecutionData]; [run_main] is [data?.main], each item given by
    its [json] field. *)
Record N8nNodeExecutionData := {
  startTime : Z;
  run_main : option (list (list value))
}.

(** [N8nExecution].  [startedAt] is the time value of the ISO string
    ([new Date(startedAt).getTime()]); [runData] is
    [data?.resultData?.runData] as [Object.entries] enumerates it. *)
Record N8nExecution := {
  id : string;
  startedAt : num;
  workflowId : string;
  runData : option (list (string * list N8nNodeExecutionData))
}.

(** Failures: whatever a data-source call rejects with, and the two
    run-time errors the correlator itself can raise. *)
Inductive Error :=
| ApiError (message : string)
| RangeError
| TypeError.

(** The asynchronous methods [listWorkflows], [getWorkflow],
    [listExecutions], [getExecution]: what the data source answers. *)
Record DataSource := {
  listWorkflows : option bool -> Error + list N8nWorkflow;
  getWorkflow : string -> Error + N8nWorkflow;
  listExecutions : string -> Z -> Error + list N8nExecution;
  getExecution : string -> Error + N8nExecution
}.

(** [extractWebhookPaths] *)
Definition extractWebhookPaths (workflow : N8nWorkflow) : list string :=
  match wf_nodes workflow with
  | None => []
  | Some nodes =>
      List.flat_map
        (fun node =>
           if String.eqb (node_type node) "n8n-nodes-base.webhook" then
             match node_path node with
             | Some path =>
                 if negb (String.eqb path "") then
                   [if startsWith path "/" then path else "/" +:+ path]
                 else []
             | None => []
             end
           else [])
        nodes
  end.

(** [hasSubWorkflowTrigger] *)
Definition hasSubWorkflowTrigger (workflow : N8nWorkflow) : bool :=
  match wf_nodes workflow with
  | None => false
  | Some nodes =>
      List.existsb
        (fun n => String.eqb (node_type n) "n8n-nodes-base.executeWorkflowTrigger")
        nodes
  end.

(** [run.data?.main?.[0]?.[0]?.json], kept only when truthy. *)
Definition mainOutput (run : N8nNodeExecutionData) : option value :=
  match run_main run with
  | Some ((json :: _) :: _) => if truthy json then Some json else None
  | _ => None
  end.

Record HttpCall := {
  call_nodeName : string;
  call_url : value;
  call_method : value;
  call_timestamp : Z;
  call_responseData : value
}.

(** [extractHttpCalls] *)
Definition extractHttpCalls (execution : N8nExecution) : list HttpCall :=
  match runData execution with
  | None => []
  | Some entries =>
      List.flat_map
        (fun '(nodeName, nodeRuns) =>
           List.flat_map
             (fun run =>
                match mainOutput run with
                | Some json =>
                    match or_else (prop json "url") (prop json "requestUrl") with
                    | Some url =>
                        if truthy url then
                          [{| call_nodeName := nodeName;
                              call_url := url;
                              call_method :=
                                match or_else (prop json "method") (Some (JStr "GET")) with
                                | Some m => m
                                | None => JStr "GET"
                                end;
                              call_timestamp := startTime run;
                              call_responseData := json |}]
                        else []
                    | None => []
                    end
                | None => []
                end)
             nodeRuns)
        entries
  end.

Record UserContext := {
  userId : option string;
  chatId : option string;
  correlationId : option string;
  responseId : option string
}.

Definition noContext : UserContext :=
  {| userId := None; chatId := None; correlationId := None; responseId := None |}.

(** [if (src.key) result.field = String(src.key)] for the four keys, in the
    order of the source. *)
Definition assign (field : option string) (src : value) (key : string) : option string :=
  match prop src key with
  | Some v => if truthy v then Some (to_string v) else field
  | None => field
  end.

Definition readIds (src : value) (result : UserContext) : UserContext :=
  {| userId := assign (userId result) src "user_id";
     chatId := assign (chatId result) src "chat_id";
     correlationId := assign (correlationId result) src "correlation_id";
     responseId := assign (responseId result) src "response_id" |}.

(** Line 316: [result.userId || result.chatId] *)
Definition populated (result : UserContext) : bool :=
  truthy_str (userId result) || truthy_str (chatId result).

(** The body of the inner loop of [extractUserContext]: the updated
    [result] and whether the function returns here. *)
Definition scanRun (run : N8nNodeExecutionData) (result : UserContext) : UserContext * bool :=
  match mainOutput run with
  | Some json =>
      let result := readIds json result in
      let result :=
        match prop json "body" with
        | Some body => if truthy body then readIds body result else result
        | None => result
        end in
      (result, populated result)
  | None => (result, false)
  end.

(** [for (const run of nodeRuns)] *)
Fixpoint scanRuns (nodeRuns : list N8nNodeExecutionData) (result : UserContext)
  : UserContext * bool :=
  match nodeRuns with
  | [] => (result, false)
  | run :: rest =>
      let '(result', returned) := scanRun run result in
      if returned then (result', true) else scanRuns rest result'
  end.

(** [for (const nodeRuns of Object.values(runData))] *)
Fixpoint scanNodes (values : list (list N8nNodeExecutionData)) (result : UserContext)
  : UserContext * bool :=
  match values with
  | [] => (result, false)
  | nodeRuns :: rest =>
      let '(result', returned) := scanRuns nodeRuns result in
      if returned then (result', true) else scanNodes rest result'
  end.

(** [extractUserContext] *)
Definition extractUserContext (execution : N8nExecution) : UserContext :=
  match runData execution with
  | None => noContext
  | Some entries => fst (scanNodes (List.map snd entries) noContext)
  end.

End N8nClient.

(** ** [src/correlator.ts]: class [ExecutionCorrelator] *)
Module ExecutionCorrelator.
Import Js N8nClient.

Record CorrelationResult := {
  execution : N8nExecution;
  parentId : string;
  confidence : float;
  method : string
}.

Record WebhookMapping := {
  m_path : string;
  m_workflowId : string;
  m_workflowName : string
}.

(** The private fields of the class.  [workflowCache] is a [Map]: it
    enumerates its entries in insertion order. *)
Record Instance := {
  webhookMappings : list WebhookMapping;
  workflowCache : list (string * N8nWorkflow)
}.

Definition newInstance : Instance :=
  {| webhookMappings := []; workflowCache := [] |}.

(** The two objects a search shares by reference among all its recursive
    calls: the array [results] and the [Set] [visited]. *)
Record Search := {
  results : list CorrelationResult;
  visited : gset string
}.

Record Options := {
  opt_timeWindowMs : option Z;
  opt_maxDepth : option Z
}.

(** *** Effects

    A computation reads and updates a state, ends by returning, by throwing
    or by running out of fuel, and leaves a trace.  The trace is ghost
    data: it lists every request sent to the data source, with its failure
    if it failed, and every entry into [findCorrelatedExecutions]. *)
Inductive Request :=
| ListWorkflows (active : option bool)
| GetWorkflow (workflowId : string)
| ListExecutions (workflowId : string) (limit : Z)
| GetExecution (executionId : string).

Inductive Event :=
| Called (request : Request) (failure : option Error)
| Entered (key : string) (depth : Z).

Inductive Outcome (A : Type) :=
| Ret (a : A)
| Throw (e : Error)
| OutOfFuel.
Arguments Ret {A} a.
Arguments Throw {A} e.
Arguments OutOfFuel {A}.

Definition M (S A : Type) : Type := S -> Outcome A * S * list Event.

Definition ret {S A} (a : A) : M S A := fun s => (Ret a, s, []).

Definition bind {S A B} (m : M S A) (k : A -> M S B) : M S B :=
  fun s =>
    match m s with
    | (Ret a, s1, t1) => let '(o, s2, t2) := k a s1 in (o, s2, t1 ++ t2)
    | (Throw e, s1, t1) => (Throw e, s1, t1)
    | (OutOfFuel, s1, t1) => (OutOfFuel, s1, t1)
    end.

Declare Scope js_scope.
Delimit Scope js_scope with js.
Notation "x <- m ;; k" := (bind m (fun x => k))
  (at level 100, m at next level, right associativity) : js_scope.
Notation "m ;; k" := (bind m (fun _ => k))
  (at level 100, right associativity) : js_scope.
#[local] Open Scope js_scope.

Definition throw {S A} (e : Error) : M S A := fun s => (Throw e, s, []).
Definition out_of_fuel {S A} : M S A := fun s => (OutOfFuel, s, []).
Definition get {S} : M S S := fun s => (Ret s, s, []).
Definition modify {S} (f : S -> S) : M S unit := fun s => (Ret tt, f s, []).
Definition emit {S} (ev : Event) : M S unit := fun s => (Ret tt, s, [ev]).

(** [await this.client.<method>(...)] *)
Definition request {S A} (r : Request) (answer : Error + A) : M S A :=
  fun s =>
    match answer with
    | inl e => (Throw e, s, [Called r (Some e)])
    | inr a => (Ret a, s, [Called r None])
    end.

(** [for (const x of xs) { body }]; [continue] is [ret tt]. *)
Fixpoint for_of {S A} (xs : list A) (body : A -> M S unit) : M S unit :=
  match xs with
  | [] => ret tt
  | x :: rest => body x ;; for_of rest body
  end.

(** [date.toISOString()] throws a [RangeError] on an invalid date. *)
Definition toISOString {S} (t : num) : M S unit :=
  if valid_time t then ret tt else throw RangeError.

(** [Map.prototype.set]: an existing key keeps its place. *)
Fixpoint map_set {V} (k : string) (v : V) (m : list (string * V)) : list (string * V) :=
  match m with
  | [] => [(k, v)]
  | (k', v') :: rest =>
      if String.eqb k' k then (k, v) :: rest else (k', v') :: map_set k v rest
  end.

Fixpoint map_get {V} (m : list (string * V)) (k : string) : option V :=
  match m with
  | [] => None
  | (k', v') :: rest => if String.eqb k' k then Some v' else map_get rest k
  end.

(** *** The scorers *)

Record Score := {
  score_confidence : float;
  score_method : string
}.

(** [if (cond) { confidence += w; methods.push(name) }] *)
Definition bump (cond : bool) (w : float) (name : string) (acc : float * list string)
  : float * list string :=
  if cond then ((fst acc + w)%float, snd acc ++ [name]) else acc.

(** [id.split('-').slice(0, 2).join('-')] *)
Definition pattern (responseId : string) : string :=
  join "-" (take 2 (split "-"%char responseId)).

(** [parentContext.f && candidateContext.f === parentContext.f] *)
Definition sameId (parent candidate : option string) : bool :=
  truthy_str parent && bool_decide (candidate = parent).

Definition samePattern (parent candidate : option string) : bool :=
  truthy_str parent && truthy_str candidate &&
  match parent, candidate with
  | Some p, Some c => String.eqb (pattern p) (pattern c)
  | _, _ => false
  end.

(** Lines 248-298 of [scoreCorrelation]: the running sum and the names of
    the signals that contributed. *)
Definition webhookSignals (candidate : N8nExecution)
    (parentContext : UserContext) (httpCall : HttpCall) : float * list string :=
  let acc := (0%float, @nil string) in
  let acc := bump true 0.3%float "webhook_url" acc in
  let candidateStart := startedAt candidate in
  let timeDiff := num_abs_diff candidateStart (Some (call_timestamp httpCall)) in
  let acc :=
    if num_below timeDiff 500 then bump true 0.3%float "timestamp_exact" acc
    else if num_below timeDiff 2000 then bump true 0.2%float "timestamp_close" acc
    else if num_below timeDiff 5000 then bump true 0.1%float "timestamp" acc
    else acc in
  let candidateContext := extractUserContext candidate in
  let acc := bump (sameId (userId parentContext) (userId candidateContext))
               0.3%float "user_id" acc in
  let acc := bump (sameId (chatId parentContext) (chatId candidateContext))
               0.2%float "chat_id" acc in
  let acc := bump (sameId (correlationId parentContext) (correlationId candidateContext))
               0.5%float "correlation_id" acc in
  let acc := bump (samePattern (responseId parentContext) (responseId candidateContext))
               0.1%float "response_pattern" acc in
  acc.

(** [scoreCorrelation] (lines 242-304).  [parent] is only read into a
    variable that is not used. *)
Definition scoreCorrelation (parent candidate : N8nExecution)
    (parentContext : UserContext) (httpCall : HttpCall) : Score :=
  let '(confidence, methods) := webhookSignals candidate parentContext httpCall in
  {| score_confidence := Math_min confidence 1.0%float;
     score_method := join "+" methods |}.

(** The sub-workflow scorer, inline in the second loop (lines 194-217). *)
Definition scoreSubWorkflow (execStart candidateStart : num)
    (userContext candidateContext : UserContext) : float * list string :=
  let acc := (0%float, @nil string) in
  let timeDiff := num_abs_diff candidateStart execStart in
  let acc :=
    if num_below timeDiff 2000 then bump true 0.3%float "timestamp" acc
    else if num_below timeDiff 5000 then bump true 0.2%float "timestamp" acc
    else acc in
  let acc := bump (sameId (userId userContext) (userId candidateContext))
               0.4%float "user_id" acc in
  let acc := bump (sameId (chatId userContext) (chatId candidateContext))
               0.3%float "chat_id" acc in
  acc.

(** *** The webhook index *)

(** Line 61: [path.replace(/^\/webhook/, '').replace(/^\//, '')] *)
Definition normalizePath (path : string) : string :=
  replace_prefix "/" (replace_prefix "/webhook" path).

(** The predicate given to [find] (lines 63-66). *)
Definition matchesMapping (path : string) (m : WebhookMapping) : bool :=
  let mappingPath := replace_prefix "/" (m_path m) in
  includes path mappingPath || includes mappingPath path.

Section WithPlatform.

(** [new URL(s).pathname], or [None] when the constructor throws. *)
Variable URL_pathname : string -> option string.
Variable client : DataSource.

(** Lines 52-58.  The argument is whatever [extractHttpCalls] found under
    [url]; off its declared type [string], [path.replace] is not a
    function. *)
Definition webhookPath (webhookUrl : value) : Error + string :=
  match URL_pathname (to_string webhookUrl) with
  | Some pathname => inr pathname
  | None =>
      match webhookUrl with
      | JStr s => inr s
      | _ => inl TypeError
      end
  end.

(** [findWorkflowByWebhook] *)
Definition findWorkflowByWebhook (this : Instance) (webhookUrl : value)
  : Error + option WebhookMapping :=
  match webhookPath webhookUrl with
  | inl e => inl e
  | inr path =>
      inr (List.find (matchesMapping (normalizePath path)) (webhookMappings this))
  end.

(** [initialize] *)
Definition initialize : M Instance unit :=
  workflows <- request (ListWorkflows (Some true)) (listWorkflows client (Some true)) ;;
  for_of workflows (fun wf =>
    fullWorkflow <- request (GetWorkflow (wf_id wf)) (getWorkflow client (wf_id wf)) ;;
    modify (fun this =>
      {| webhookMappings := webhookMappings this;
         workflowCache := map_set (wf_id wf) fullWorkflow (workflowCache this) |}) ;;
    for_of (extractWebhookPaths fullWorkflow) (fun path =>
      modify (fun this =>
        {| webhookMappings :=
             webhookMappings this ++
             [{| m_path := path; m_workflowId := wf_id wf; m_workflowName := wf_name wf |}];
           workflowCache := workflowCache this |}))).

Section Search.

Variable this : Instance.
Variables timeWindowMs maxDepth : Z.

Section Expand.

(** [findCorrelatedExecutions] with the remaining fuel. *)
Variable recurse : N8nExecution -> string -> Z -> M Search unit.

(** The accepting branch of either loop: [visited.add], [results.push],
    then the recursive call (lines 146-163 and 220-236). *)
Definition record (r : CorrelationResult) (search : Search) : Search :=
  {| results := results search ++ [r];
     visited := {[ id (execution r) ]} ∪ visited search |}.

Definition accept (candidate : N8nExecution) (parentId : string)
    (confidence : float) (method : string) (currentDepth : Z) : M Search unit :=
  modify (record {| execution := candidate; parentId := parentId;
                    confidence := confidence; method := method |}) ;;
  recurse candidate (id candidate) (currentDepth + 1).

(** The body of [for (const candidate of candidates)], lines 134-165. *)
Definition webhookCandidate (execution : N8nExecution) (parentId : string)
    (currentDepth : Z) (execStart : num) (userContext : UserContext)
    (call : HttpCall) (candidate : N8nExecution) : M Search unit :=
  search <- get ;;
  if bool_decide (id candidate ∈ visited search) then ret tt else
  let candidateStart := startedAt candidate in
  if num_lt candidateStart (num_sub execStart 1000)
     || num_gt candidateStart (num_add execStart timeWindowMs)
  then ret tt else
  let score := scoreCorrelation execution candidate userContext call in
  if PrimFloat.ltb 0.5 (score_confidence score) then
    accept candidate parentId (score_confidence score) (score_method score) currentDepth
  else ret tt.

(** The body of [for (const call of httpCalls)], lines 123-166. *)
Definition webhookCall (execution : N8nExecution) (parentId : string)
    (currentDepth : Z) (execStart : num) (userContext : UserContext)
    (call : HttpCall) : M Search unit :=
  match findWorkflowByWebhook this (call_url call) with
  | inl e => throw e
  | inr None => ret tt
  | inr (Some mapping) =>
      candidates <- request (ListExecutions (m_workflowId mapping) 10)
                            (listExecutions client (m_workflowId mapping) 10) ;;
      for_of candidates
        (webhookCandidate execution parentId currentDepth execStart userContext call)
  end.

(** The body of the inner loop of the second pass, lines 184-238. *)
Definition subWorkflowCandidate (parentId : string) (currentDepth : Z)
    (execStart : num) (userContext : UserContext)
    (candidate : N8nExecution) : M Search unit :=
  search <- get ;;
  if bool_decide (id candidate ∈ visited search) then ret tt else
  let candidateStart := startedAt candidate in
  if num_lt candidateStart execStart
     || num_gt candidateStart (num_add execStart timeWindowMs)
  then ret tt else
  let candidateContext := extractUserContext candidate in
  let '(confidence, methods) :=
    scoreSubWorkflow execStart candidateStart userContext candidateContext in
  if PrimFloat.ltb 0.5 confidence then
    accept candidate parentId confidence (join "+" methods) currentDepth
  else ret tt.

(** The body of [for (const workflowId of workflowsWithSubTrigger)],
    lines 175-239. *)
Definition subWorkflow (execution : N8nExecution) (parentId : string)
    (currentDepth : Z) (execStart : num) (userContext : UserContext)
    (workflowId' : string) : M Search unit :=
  if String.eqb workflowId' (workflowId execution) then ret tt else
  candidates <- request (ListExecutions workflowId' 5)
                        (listExecutions client workflowId' 5) ;;
  for_of candidates
    (subWorkflowCandidate parentId currentDepth execStart userContext).

(** Lines 171-173. *)
Definition workflowsWithSubTrigger : list string :=
  List.map fst (List.filter (fun entry => hasSubWorkflowTrigger (snd entry))
                            (workflowCache this)).

(** Lines 114-239: what [findCorrelatedExecutions] does below the depth
    bound. *)
Definition expand (execution : N8nExecution) (parentId : string)
    (currentDepth : Z) : M Search unit :=
  let execStart := startedAt execution in
  toISOString (num_sub execStart 1000) ;;
  toISOString (num_add execStart timeWindowMs) ;;
  let userContext := extractUserContext execution in
  let httpCalls := extractHttpCalls execution in
  for_of httpCalls
    (webhookCall execution parentId currentDepth execStart userContext) ;;
  for_of workflowsWithSubTrigger
    (subWorkflow execution parentId currentDepth execStart userContext).

End Expand.

(** [findCorrelatedExecutions] (lines 103-240).  The recursion of the
    source is on nothing structural; the model recurses on [fuel]. *)
Fixpoint findCorrelatedExecutions (fuel : nat) (execution : N8nExecution)
    (parentId : string) (currentDepth : Z) : M Search unit :=
  emit (Entered parentId currentDepth) ;;
  match fuel with
  | O => out_of_fuel
  | S fuel' =>
      if currentDepth >=? maxDepth then ret tt
      else expand (findCorrelatedExecutions fuel') execution parentId currentDepth
  end.

End Search.

(** Runs a search on its own two objects and hands back their final
    state; the instance is only read. *)
Definition withSearch (init : Search) (m : Instance -> M Search unit)
  : M Instance Search :=
  fun this =>
    match m this init with
    | (Ret _, search, t) => (Ret search, this, t)
    | (Throw e, _, t) => (Throw e, this, t)
    | (OutOfFuel, _, t) => (OutOfFuel, this, t)
    end.

(** Lines 79-98 of [correlateExecutions]: everything but the final
    [return results]. *)
Definition search (fuel : nat) (rootExecutionId : string) (options : Options)
  : M Instance Search :=
  let timeWindowMs := default 30000 (opt_timeWindowMs options) in
  let maxDepth := default 5 (opt_maxDepth options) in
  this <- get ;;
  (if (length (webhookMappings this) =? 0)%nat then initialize else ret tt) ;;
  rootExecution <- request (GetExecution rootExecutionId)
                           (getExecution client rootExecutionId) ;;
  withSearch {| results := []; visited := {[ rootExecutionId ]} |}
    (fun this =>
       findCorrelatedExecutions this timeWindowMs maxDepth fuel
         rootExecution rootExecutionId 0).

(** [correlateExecutions] *)
Definition correlateExecutions (fuel : nat) (rootExecutionId : string)
    (options : Options) : M Instance (list CorrelationResult) :=
  final <- search fuel rootExecutionId options ;;
  ret (results final).

(** [getWorkflowName] *)
Definition getWorkflowName (this : Instance) (workflowId : string) : string :=
  match map_get (workflowCache this) workflowId with
  | Some wf => if String.eqb (wf_name wf) "" then workflowId else wf_name wf
  | None => workflowId
  end.

End WithPlatform.

End ExecutionCorrelator.

(** * Scenarios *)
Module Scenario.
Import Js N8nClient ExecutionCorrelator.

(** A simple reading of [new URL(s).pathname]: an [http] or [https] URL
    has the path that starts at the first slash after the host, or ['/']. *)
Fixpoint afterHost (s : string) : string :=
  match s with
  | EmptyString => "/"
  | String c s' => if Ascii.eqb c "/"%char then s else afterHost s'
  end.

Definition pathname (s : string) : option string :=
  match strip_prefix "https://" s with
  | Some rest => Some (afterHost rest)
  | None =>
      match strip_prefix "http://" s with
      | Some rest => Some (afterHost rest)
      | None => None
      end
  end.

Definition defaults : Options := {| opt_timeWindowMs := None; opt_maxDepth := None |}.

Definition invocation (start : Z) (json : value) : N8nNodeExecutionData :=
  {| startTime := start; run_main := Some [[json]] |}.

(** The scenario of the specification: an orchestrator calls the webhook
    ['agent'] of workflow [W2]; the execution of [W2] starts 300 ms after
    the call and carries the same user id. *)
Definition W1 : N8nWorkflow :=
  {| wf_id := "W1"; wf_name := "Orchestrator"; wf_active := true; wf_nodes := Some [] |}.

Definition W2 : N8nWorkflow :=
  {| wf_id := "W2"; wf_name := "Agent"; wf_active := true;
     wf_nodes := Some [{| node_name := "Webhook"; node_type := "n8n-nodes-base.webhook";
                          node_path := Some "agent" |}] |}.

Definition agentCall : value := JObj [("url", JStr "https://host/webhook/agent")].

Definition orchestratorRun : N8nExecution :=
  {| id := "1001"; startedAt := Some 1700000000000; workflowId := "W1";
     runData := Some [("Trigger", [invocation 1700000000000 (JObj [("user_id", JStr "u1")])]);
                      ("HTTP Request", [invocation 1700000000500 agentCall])] |}.

Definition agentRun : N8nExecution :=
  {| id := "1002"; startedAt := Some 1700000000800; workflowId := "W2";
     runData := Some [("Webhook",
                       [invocation 1700000000800
                          (JObj [("body", JObj [("user_id", JStr "u1")])])])] |}.

Definition webhookSource : DataSource :=
  {| listWorkflows := fun _ => inr [W1; W2];
     getWorkflow := fun i =>
       if String.eqb i "W1" then inr W1
       else if String.eqb i "W2" then inr W2
       else inl (ApiError "404");
     listExecutions := fun w _ =>
       if String.eqb w "W2" then inr [agentRun]
       else if String.eqb w "W1" then inr [orchestratorRun]
       else inr [];
     getExecution := fun i =>
       if String.eqb i "1001" then inr orchestratorRun
       else if String.eqb i "1002" then inr agentRun
       else inl (ApiError "404") |}.

Definition agentHttpCall : HttpCall :=
  {| call_nodeName := "HTTP Request"; call_url := JStr "https://host/webhook/agent";
     call_method := JStr "GET"; call_timestamp := 1700000000500;
     call_responseData := agentCall |}.

Definition agentMapping : WebhookMapping :=
  {| m_path := "/agent"; m_workflowId := "W2"; m_workflowName := "Agent" |}.

Definition agentResult : CorrelationResult :=
  {| execution := agentRun; parentId := "1001";
     confidence := 0.8999999999999999%float;
     method := "webhook_url+timestamp_exact+user_id" |}.

Definition webhookIndex : Instance :=
  {| webhookMappings := [agentMapping];
     workflowCache := [("W1", W1); ("W2", W2)] |}.

Definition webhookTrace : list Event :=
  [Called (ListWorkflows (Some true)) None;
   Called (GetWorkflow "W1") None; Called (GetWorkflow "W2") None;
   Called (GetExecution "1001") None; Entered "1001" 0;
   Called (ListExecutions "W2" 10) None; Entered "1002" 1].

(** Two workflows that can each be called as a sub-workflow; their
    executions start at the same instant for the same user, so that each
    qualifies as a candidate of the other. *)
Definition subWorkflowNodes : option (list N8nNode) :=
  Some [{| node_name := "When called"; node_type := "n8n-nodes-base.executeWorkflowTrigger";
           node_path := None |}].

Definition WA : N8nWorkflow :=
  {| wf_id := "WA"; wf_name := "Ping"; wf_active := true; wf_nodes := subWorkflowNodes |}.

Definition WB : N8nWorkflow :=
  {| wf_id := "WB"; wf_name := "Pong"; wf_active := true; wf_nodes := subWorkflowNodes |}.

Definition mutualRun (i w : string) : N8nExecution :=
  {| id := i; startedAt := Some 1700000000000; workflowId := w;
     runData := Some [("When called",
                       [invocation 1700000000000 (JObj [("user_id", JStr "u7")])])] |}.

Definition a1 := mutualRun "a1" "WA".
Definition a2 := mutualRun "a2" "WA".
Definition b1 := mutualRun "b1" "WB".
Definition b2 := mutualRun "b2" "WB".

Definition mutualSource : DataSource :=
  {| listWorkflows := fun _ => inr [WA; WB];
     getWorkflow := fun i =>
       if String.eqb i "WA" then inr WA
       else if String.eqb i "WB" then inr WB
       else inl (ApiError "404");
     listExecutions := fun w _ =>
       if String.eqb w "WA" then inr [a1; a2]
       else if String.eqb w "WB" then inr [b1; b2]
       else inr [];
     getExecution := fun i =>
       if String.eqb i "a1" then inr a1 else inl (ApiError "404") |}.

Definition mutualUniverse : gset string := {[ "a1"; "a2"; "b1"; "b2" ]}.

Definition mutualResult (candidate : N8nExecution) (parent : string) : CorrelationResult :=
  {| execution := candidate; parentId := parent;
     confidence := 0.7%float; method := "timestamp+user_id" |}.

Definition mutualResults : list CorrelationResult :=
  [mutualResult b1 "a1"; mutualResult a2 "b1"; mutualResult b2 "a2"].

(** With [maxDepth = 2] the third result hangs below the root. *)
Definition mutualResultsDepth2 : list CorrelationResult :=
  [mutualResult b1 "a1"; mutualResult a2 "b1"; mutualResult b2 "a1"].

Definition depth2 : Options := {| opt_timeWindowMs := None; opt_maxDepth := Some 2 |}.
Definition depth1000 : Options := {| opt_timeWindowMs := None; opt_maxDepth := Some 1000 |}.

Definition mutualIndex : Instance :=
  {| webhookMappings := []; workflowCache := [("WA", WA); ("WB", WB)] |}.

Definition mutualTrace : list Event :=
  [Called (ListWorkflows (Some true)) None;
   Called (GetWorkflow "WA") None; Called (GetWorkflow "WB") None;
   Called (GetExecution "a1") None; Entered "a1" 0;
   Called (ListExecutions "WB" 5) None; Entered "b1" 1;
   Called (ListExecutions "WA" 5) None; Entered "a2" 2;
   Called (ListExecutions "WB" 5) None; Entered "b2" 3;
   Called (ListExecutions "WA" 5) None].

(** The orchestrator also calls the webhook ['billing'] of workflow [W3],
    whose executions the data source fails to list. *)
Definition W3 : N8nWorkflow :=
  {| wf_id := "W3"; wf_name := "Billing"; wf_active := true;
     wf_nodes := Some [{| node_name := "Webhook"; node_type := "n8n-nodes-base.webhook";
                          node_path := Some "/billing" |}] |}.

Definition billingCall : value := JObj [("url", JStr "https://host/webhook/billing")].

Definition busyRun : N8nExecution :=
  {| id := "1001"; startedAt := Some 1700000000000; workflowId := "W1";
     runData := Some [("Trigger", [invocation 1700000000000 (JObj [("user_id", JStr "u1")])]);
                      ("Call agent", [invocation 1700000000500 agentCall]);
                      ("Call billing", [invocation 1700000000900 billingCall])] |}.

Definition unavailable : Error := ApiError "503 Service Unavailable".

Definition failingSource : DataSource :=
  {| listWorkflows := fun _ => inr [W1; W2; W3];
     getWorkflow := fun i =>
       if String.eqb i "W1" then inr W1
       else if String.eqb i "W2" then inr W2
       else if String.eqb i "W3" then inr W3
       else inl (ApiError "404");
     listExecutions := fun w _ =>
       if String.eqb w "W2" then inr [agentRun]
       else if String.eqb w "W3" then inl unavailable
       else inr [];
     getExecution := fun i =>
       if String.eqb i "1001" then inr busyRun else inl (ApiError "404") |}.

(** An execution whose first node carries the user id, at the top level
    and in the body, and whose second node carries a correlation id. *)
Definition firstNode : N8nNodeExecutionData :=
  invocation 1700000000000
    (JObj [("user_id", JStr "top"); ("body", JObj [("user_id", JStr "nested")])]).

Definition secondNode : N8nNodeExecutionData :=
  invocation 1700000000100
    (JObj [("correlation_id", JStr "corr-9"); ("response_id", JStr "RSP-TaskManager-1")]).

Definition twoNodes : list (string * list N8nNodeExecutionData) :=
  [("Webhook", [firstNode]); ("Set", [secondNode])].

Definition twoNodeRun : N8nExecution :=
  {| id := "2001"; startedAt := Some 1700000000000; workflowId := "W2";
     runData := Some twoNodes |}.

End Scenario.

(** * Vocabulary of the proofs *)
Module Logic.
Import Js N8nClient ExecutionCorrelator.

Definition erase {A} (o : Outcome A) : Outcome unit :=
  match o with
  | Ret _ => Ret tt
  | Throw e => Throw e
  | OutOfFuel => OutOfFuel
  end.

Definition outcome {S A} (r : Outcome A * S * list Event) : Outcome A := fst (fst r).
Definition final {S A} (r : Outcome A * S * list Event) : S := snd (fst r).
Definition trace {S A} (r : Outcome A * S * list Event) : list Event := snd r.

(** A summary relates the state before a computation to how it ended, the
    state after it and the trace it left. *)
Definition Summary (S : Type) : Type := S -> Outcome unit -> S -> list Event -> Prop.

Definition satisfies {S A} (R : Summary S) (m : M S A) : Prop :=
  forall s, R s (erase (outcome (m s))) (final (m s)) (trace (m s)).

(** Summaries that survive sequencing. *)
Class Composable {S} (R : Summary S) : Prop := {
  comp_ret : forall s, R s (Ret tt) s [];
  comp_seq : forall s s1 s2 t1 t2 o,
      R s (Ret tt) s1 t1 -> R s1 o s2 t2 -> R s o s2 (t1 ++ t2)
}.

(** The keys of the entries into [findCorrelatedExecutions]. *)
Definition enters (t : list Event) : list string :=
  List.flat_map (fun ev => match ev with Entered k _ => [k] | Called _ _ => [] end) t.

(** The failures the data source answered with. *)
Definition failures (t : list Event) : list Error :=
  List.flat_map (fun ev => match ev with Called _ (Some e) => [e] | _ => [] end) t.

(** Nothing was entered. *)
Definition quiet {S} : Summary S := fun _ _ _ t => enters t = [].

(** [m'] runs exactly as [m] wherever [m] had fuel enough. *)
Definition extends {S A} (m m' : M S A) : Prop :=
  forall s, outcome (m s) <> OutOfFuel -> m' s = m s.

End Logic.

(** ** The shape of a search

    [Grows maxDepth p d s ks s'] abstracts what the calls below an
    execution with key [p], entered at depth [d], do to the two shared
    objects: a sequence of acceptances, each one followed at once by the
    growth below the accepted candidate.  [ks] lists the keys entered on
    the way. *)
Module Shape.
Import Js N8nClient ExecutionCorrelator Logic.

Definition bounded (c : float) : Prop :=
  PrimFloat.ltb 0.5 c = true /\ PrimFloat.leb c 1 = true.

Inductive Grows (maxDepth : Z) : string -> Z -> Search -> list string -> Search -> Prop :=
| Grows_nil p d s : Grows maxDepth p d s [] s
| Grows_accept p d s r ks1 s1 ks2 s2 :
    d < maxDepth ->
    parentId r = p ->
    id (execution r) ∉ visited s ->
    bounded (confidence r) ->
    Grows maxDepth (id (execution r)) (d + 1) (record r s) ks1 s1 ->
    Grows maxDepth p d s1 ks2 s2 ->
    Grows maxDepth p d s (id (execution r) :: ks1 ++ ks2) s2.

Definition ids (rs : list CorrelationResult) : list string :=
  (fun r => id (execution r)) <$> rs.

(** The two objects as [correlateExecutions] creates them. *)
Definition freshSearch (rootExecutionId : string) : Search :=
  {| results := []; visited := {[ rootExecutionId ]} |}.

(** What the loops of one call, for the key [p] at depth [d], do. *)
Definition level (maxDepth : Z) (p : string) (d : Z) : Summary Search :=
  fun s _ s' t => Grows maxDepth p d s (enters t) s'.

(** What one call of [findCorrelatedExecutions] does: it enters, then its
    loops run. *)
Definition call (maxDepth : Z) (p : string) (d : Z) : Summary Search :=
  fun s _ s' t => exists ks, enters t = p :: ks /\ Grows maxDepth p d s ks s'.

(** Parent-child chains of accepted correlations: [chain root rs k n] says
    that [k] is reached from [root] through [n] results of [rs], each
    naming the previous one as its parent. *)
Inductive chain (root : string) (rs : list CorrelationResult) : string -> Z -> Prop :=
| chain_root : chain root rs root 0
| chain_step r n :
    r ∈ rs -> chain root rs (parentId r) n ->
    chain root rs (id (execution r)) (n + 1).

(** Every result hangs below a parent at a depth under [maxDepth]. *)
Definition shallow (maxDepth : Z) (root : string) (rs : list CorrelationResult) : Prop :=
  forall r, r ∈ rs ->
    exists n, 0 <= n < maxDepth /\ chain root rs (parentId r) n.

(** The run of a loop body recorded the candidate and recursed into it:
    the result is the next one pushed, the candidate is visited, and the
    first thing entered is the candidate. *)
Definition accepted (run : Outcome unit * Search * list Event) (s : Search)
    (r : CorrelationResult) : Prop :=
  exists rest ks,
    results (final run) = results s ++ r :: rest /\
    enters (trace run) = id (execution r) :: ks /\
    id (execution r) ∈ visited (final run).

(** The run of a loop body left the candidate alone. *)
Definition skipped (run : Outcome unit * Search * list Event) (s : Search) : Prop :=
  run = (Ret tt, s, []).

(** Case analysis on every condition of a scorer. *)
Ltac split_conditions :=
  repeat match goal with
         | |- context [bump ?b _ _ _] =>
             lazymatch b with
             | true => fail
             | false => fail
             | _ => generalize b; intros []
             end
         | |- context [if ?b then _ else _] =>
             lazymatch b with
             | context [num_below] => generalize b; intros []
             end
         end.

End Shape.

(** ** The webhook scorer as the specification words it

    A base, a timestamp bonus measured against the HTTP call, one bonus per
    identifier, the sum clamped at 1.0, and the names of the contributing
    signals joined by ['+'] in the order of evaluation. *)
Module ScorerSpec.
Import Js N8nClient ExecutionCorrelator.

(** Absolute difference, in ms, between the candidate's start and the
    call's own timestamp; [None] when the start is not a date. *)
Definition distance (candidate : N8nExecution) (httpCall : HttpCall) : option Z :=
  match startedAt candidate with
  | Some start => Some (Z.abs (start - call_timestamp httpCall))
  | None => None
  end.

Definition timestampBonus (d : option Z) : float * list string :=
  match d with
  | Some ms =>
      if ms <? 500 then (0.3%float, ["timestamp_exact"])
      else if ms <? 2000 then (0.2%float, ["timestamp_close"])
      else if ms <? 5000 then (0.1%float, ["timestamp"])
      else (0%float, [])
  | None => (0%float, [])
  end.

(** The parent has the identifier and the candidate has the same one. *)
Definition equalIds (parent candidate : option string) : bool :=
  match parent with
  | Some p => negb (String.eqb p "") && bool_decide (candidate = Some p)
  | None => false
  end.

Definition firstTwoSegments (responseId : string) : string :=
  join "-" (take 2 (split "-"%char responseId)).

(** Both have a response id and the first two segments agree. *)
Definition agreeingResponseIds (parent candidate : option string) : bool :=
  match parent, candidate with
  | Some p, Some c =>
      negb (String.eqb p "") && negb (String.eqb c "") &&
      String.eqb (firstTwoSegments p) (firstTwoSegments c)
  | _, _ => false
  end.

Definition bonus (applies : bool) (w : float) (name : string) : float * list string :=
  if applies then (w, [name]) else (0%float, []).

Definition score (candidate : N8nExecution) (parentContext : UserContext)
    (httpCall : HttpCall) : Score :=
  let candidateContext := extractUserContext candidate in
  let ts := timestampBonus (distance candidate httpCall) in
  let user := bonus (equalIds (userId parentContext) (userId candidateContext))
                0.3%float "user_id" in
  let chat := bonus (equalIds (chatId parentContext) (chatId candidateContext))
                0.2%float "chat_id" in
  let corr := bonus (equalIds (correlationId parentContext)
                       (correlationId candidateContext))
                0.5%float "correlation_id" in
  let resp := bonus (agreeingResponseIds (responseId parentContext)
                       (responseId candidateContext))
                0.1%float "response_pattern" in
  {| score_confidence :=
       Math_min (0.3 + fst ts + fst user + fst chat + fst corr + fst resp)%float 1.0%float;
     score_method :=
       join "+" (["webhook_url"] ++ snd ts ++ snd user ++ snd chat ++ snd corr ++ snd resp) |}.

End ScorerSpec.

(** ** What one construction of the index does *)
Module Index.
Import Js N8nClient ExecutionCorrelator.

(** The mappings one workflow of the listing contributes. *)
Definition mappingsOf (client : DataSource) (wf : N8nWorkflow) : list WebhookMapping :=
  match getWorkflow client (wf_id wf) with
  | inr fullWorkflow =>
      List.map (fun path => {| m_path := path; m_workflowId := wf_id wf;
                               m_workflowName := wf_name wf |})
               (extractWebhookPaths fullWorkflow)
  | inl _ => []
  end.

Definition discovered (client : DataSource) (wfs : list N8nWorkflow) : list WebhookMapping :=
  List.flat_map (mappingsOf client) wfs.

Definition cacheOne (client : DataSource) (cache : list (string * N8nWorkflow))
    (wf : N8nWorkflow) : list (string * N8nWorkflow) :=
  match getWorkflow client (wf_id wf) with
  | inr fullWorkflow => map_set (wf_id wf) fullWorkflow cache
  | inl _ => cache
  end.

Definition cached (client : DataSource) (wfs : list N8nWorkflow)
    (cache : list (string * N8nWorkflow)) : list (string * N8nWorkflow) :=
  List.fold_left (cacheOne client) wfs cache.

(** The requests of one construction: the listing, then one fetch per
    listed workflow. *)
Definition fanout (wfs : list N8nWorkflow) : list Event :=
  Called (ListWorkflows (Some true)) None ::
  List.map (fun wf => Called (GetWorkflow (wf_id wf)) None) wfs.

(** The data source lists [wfs] as the active workflows and serves the
    definition of each. *)
Definition serves (client : DataSource) (wfs : list N8nWorkflow) : Prop :=
  listWorkflows client (Some true) = inr wfs /\
  Forall (fun wf => exists fullWorkflow, getWorkflow client (wf_id wf) = inr fullWorkflow) wfs.

(** All node invocations of a run-data mapping, in the order of
    iteration. *)
Definition invocations (entries : list (string * list N8nNodeExecutionData))
  : list N8nNodeExecutionData :=
  concat (List.map snd entries).

End Index.

(** ** Failures and termination *)
Module Failures.
Import Js N8nClient ExecutionCorrelator Logic.

(** Nothing is caught and nothing is retried: a computation that returns
    saw no failure; one that throws [e] either stopped at the request that
    failed with [e], its last event, or raised one of its own run-time
    errors with no failed request behind it. *)
Definition unrecovered {S} : Summary S :=
  fun _ o _ t =>
    match o with
    | Throw e =>
        (exists t0 r, t = t0 ++ [Called r (Some e)] /\ failures t0 = []) \/
        (failures t = [] /\ (e = RangeError \/ e = TypeError))
    | _ => failures t = []
    end.

(** The computation did not stop for lack of fuel. *)
Definition finishes {S} : Summary S :=
  fun _ o _ _ => o <> OutOfFuel.

(** Every execution the data source can list has its id in [universe]. *)
Definition lists_within (client : DataSource) (universe : gset string) : Prop :=
  forall workflowId' limit candidates candidate,
    listExecutions client workflowId' limit = inr candidates ->
    candidate ∈ candidates -> id candidate ∈ universe.

(** The executions of [universe] not visited yet. *)
Definition unvisited (universe : gset string) (s : Search) : nat :=
  size (universe ∖ visited s).

(** [visited] only grows, and the computation finishes when fewer than [n]
    executions are left to visit. *)
Definition progresses (universe : gset string) (n : nat) : Summary Search :=
  fun s o s' _ =>
    visited s ⊆ visited s' /\
    ((unvisited universe s < n)%nat -> o <> OutOfFuel).

End Failures.

(** ** Data on which a search raises no run-time error *)
Module Sound.
Import Js N8nClient ExecutionCorrelator Logic.

(** A computation all of whose requests were answered did not throw. *)
Definition resolved {S} : Summary S :=
  fun _ o _ t => failures t = [] -> forall e, o <> Throw e.

(** Line 124 does not throw for [webhookUrl]: [new URL] parses it, or it
    is a string. *)
Definition usable (URL_pathname : string -> option string) (webhookUrl : value) : bool :=
  match webhookPath URL_pathname webhookUrl with
  | inr _ => true
  | inl _ => false
  end.

(** Lines 114-124 throw nothing for [execution]: the two ends of its
    window are dates, and the URL of each of its calls is usable. *)
Definition sound (URL_pathname : string -> option string) (timeWindowMs : Z)
    (execution : N8nExecution) : bool :=
  valid_time (num_sub (startedAt execution) 1000)
  && valid_time (num_add (startedAt execution) timeWindowMs)
  && forallb (fun call => usable URL_pathname (call_url call))
             (extractHttpCalls execution).

(** Every execution that [client] hands out, fetched or listed, is
    sound. *)
Definition hands_out_sound (URL_pathname : string -> option string)
    (client : DataSource) (timeWindowMs : Z) : Prop :=
  (forall executionId execution,
      getExecution client executionId = inr execution ->
      sound URL_pathname timeWindowMs execution = true) /\
  (forall workflowId' limit candidates candidate,
      listExecutions client workflowId' limit = inr candidates ->
      candidate ∈ candidates ->
      sound URL_pathname timeWindowMs candidate = true).

(** An execution whose [startedAt] is no date, and a data source that
    answers every request and hands it out. *)
Definition undatedRun : N8nExecution :=
  {| id := "1001"; startedAt := None; workflowId := "W1"; runData := None |}.

Definition undatedSource : DataSource :=
  {| listWorkflows := fun _ => inr [Scenario.W1; Scenario.W2];
     getWorkflow := fun i => if String.eqb i "W2" then inr Scenario.W2 else inr Scenario.W1;
     listExecutions := fun _ _ => inr [];
     getExecution := fun _ => inr undatedRun |}.

End Sound.

(** * The other methods, the validator, the formatter and the handlers

    The remaining methods of the two classes, [src/utils/validator.ts],
    [src/formatter.ts] and the tool handlers that call them, with the
    vocabulary their properties are stated in. *)

(** ** [getWorkflowNames] and the lookups made with its result *)
Module Names.
Import Js N8nClient ExecutionCorrelator.

(** [getWorkflowNames] ([src/correlator.ts], lines 316-322): a new [Map]
    filled in the order of the cache. *)
Definition getWorkflowNames (this : Instance) : list (string * string) :=
  List.fold_left
    (fun names entry => map_set (fst entry) (wf_name (snd entry)) names)
    (workflowCache this) [].

(** [workflows.get(workflowId) || workflowId], as the formatter reads the
    map of names. *)
Definition nameOf (workflows : list (string * string)) (workflowId : string) : string :=
  match map_get workflows workflowId with
  | Some name => if String.eqb name "" then workflowId else name
  | None => workflowId
  end.

(** [[...map.keys()]] *)
Definition keys {V} (m : list (string * V)) : list string := fst <$> m.

(** What the two private fields satisfy from the constructor on: the
    cache holds each workflow id once, and every mapping of the index
    names a cached workflow and a path that starts with a slash. *)
Definition consistent (this : Instance) : Prop :=
  NoDup (keys (workflowCache this)) /\
  Forall (fun m => m_workflowId m ∈ keys (workflowCache this) /\
                   startsWith (m_path m) "/" = true)
         (webhookMappings this).

(** [this'] is consistent, holds the mappings of [this] as the first of
    its own, and the cached ids of [this] in their places. *)
Definition grown (this this' : Instance) : Prop :=
  consistent this' /\
  webhookMappings this `prefix_of` webhookMappings this' /\
  keys (workflowCache this) `prefix_of` keys (workflowCache this').

Definition maintained : Logic.Summary Instance :=
  fun this _ this' _ => consistent this -> grown this this'.

End Names.

(** ** The requests of a search, in order *)
Module Protocol.
Import Js N8nClient ExecutionCorrelator.

(** A request of [initialize]. *)
Definition indexing (ev : Event) : bool :=
  match ev with
  | Called (ListWorkflows (Some true)) _ => true
  | Called (GetWorkflow _) _ => true
  | _ => false
  end.

(** What happens below the root: entries into [findCorrelatedExecutions]
    and listings of executions, ten per webhook target and five per
    sub-workflow. *)
Definition listing (ev : Event) : bool :=
  match ev with
  | Called (ListExecutions _ limit) _ => (limit =? 10) || (limit =? 5)
  | Entered _ _ => true
  | _ => false
  end.

Definition only (p : Event -> bool) {S} : Logic.Summary S :=
  fun _ _ _ t => forallb p t = true.

End Protocol.

(** ** Where a result lies in time *)
Module Timing.
Import Js N8nClient ExecutionCorrelator.

(** The parent's start is a date, and the candidate's start is not a date
    or lies no more than a second before it and no more than
    [timeWindowMs] after it. *)
Definition near (timeWindowMs : Z) (parent candidate : N8nExecution) : bool :=
  match startedAt parent, startedAt candidate with
  | Some a, Some b => (a - 1000 <=? b) && (b <=? a + timeWindowMs)
  | Some _, None => true
  | None, _ => false
  end.

(** [r] names one of [parents] as its parent and lies near it. *)
Definition parentOf (timeWindowMs : Z) (parents : list (string * N8nExecution))
    (r : CorrelationResult) : Prop :=
  exists parent,
    (parentId r, parent) ∈ parents /\ near timeWindowMs parent (execution r) = true.

(** Every result has its parent among [parents] or before it in the
    list. *)
Fixpoint linked (timeWindowMs : Z) (parents : list (string * N8nExecution))
    (rs : list CorrelationResult) : Prop :=
  match rs with
  | [] => True
  | r :: rest =>
      parentOf timeWindowMs parents r /\
      linked timeWindowMs ((id (execution r), execution r) :: parents) rest
  end.

(** What a call for [execution] under the key [p] adds to [results]. *)
Definition timed (timeWindowMs : Z) (execution : N8nExecution) (p : string)
  : Logic.Summary Search :=
  fun s _ s' _ =>
    exists added,
      results s' = results s ++ added /\ linked timeWindowMs [(p, execution)] added.

End Timing.

(** ** When a candidate is accepted *)
Module Acceptance.
Import Js N8nClient ExecutionCorrelator.

(** [|a - b| < ms], false when either is not a number. *)
Definition within (ms : Z) (a b : num) : bool := num_below (num_abs_diff a b) ms.

(** The signals of the sub-workflow pass that suffice together. *)
Definition subWorkflowSignals (execStart candidateStart : num)
    (userContext candidateContext : UserContext) : bool :=
  let user := sameId (userId userContext) (userId candidateContext) in
  let chat := sameId (chatId userContext) (chatId candidateContext) in
  (user && chat)
  || (user && within 5000 candidateStart execStart)
  || (chat && within 2000 candidateStart execStart).

(** The signals of the webhook pass that suffice, alone or together. *)
Definition webhookSignalsSuffice (candidate : N8nExecution)
    (parentContext : UserContext) (httpCall : HttpCall) : bool :=
  let candidateContext := extractUserContext candidate in
  let at_ := fun ms => within ms (startedAt candidate) (Some (call_timestamp httpCall)) in
  let user := sameId (userId parentContext) (userId candidateContext) in
  let chat := sameId (chatId parentContext) (chatId candidateContext) in
  let corr := sameId (correlationId parentContext) (correlationId candidateContext) in
  let resp := samePattern (responseId parentContext) (responseId candidateContext) in
  corr || user || at_ 500
  || (at_ 2000 && (chat || resp))
  || (at_ 5000 && chat)
  || (chat && resp).

End Acceptance.

(** ** Further cases *)
Module Cases.
Import Js N8nClient ExecutionCorrelator.

(** A workflow whose webhook node is configured with the path ['/']. *)
Definition W4 : N8nWorkflow :=
  {| wf_id := "W4"; wf_name := "Front door"; wf_active := true;
     wf_nodes := Some [{| node_name := "Webhook"; node_type := "n8n-nodes-base.webhook";
                          node_path := Some "/" |}] |}.

Definition catchAll : WebhookMapping :=
  {| m_path := "/"; m_workflowId := "W4"; m_workflowName := "Front door" |}.

Definition catchAllIndex : Instance :=
  {| webhookMappings := [Scenario.agentMapping; catchAll];
     workflowCache := [("W1", Scenario.W1); ("W2", Scenario.W2); ("W4", W4)] |}.

End Cases.

(** ** The call a run gives rise to *)
Module Calls.
Import Js N8nClient.

(** The runs of an execution in the order of the two loops, each with the
    name of its node. *)
Definition runsOf (entries : list (string * list N8nNodeExecutionData))
  : list (string * N8nNodeExecutionData) :=
  List.flat_map (fun entry => List.map (pair (fst entry)) (snd entry)) entries.

(** [c] is the call of the run [run] of the node [nodeName]: the first
    item of the first output of the run is truthy and has a truthy [url],
    or else a truthy [requestUrl]; the method is the one of the item, or
    ['GET'] when that is falsy or missing. *)
Definition callOf (nodeName : string) (run : N8nNodeExecutionData) (c : HttpCall) : Prop :=
  exists json items outputs,
    run_main run = Some ((json :: items) :: outputs) /\ truthy json = true /\
    call_nodeName c = nodeName /\
    call_timestamp c = startTime run /\
    call_responseData c = json /\
    truthy (call_url c) = true /\
    (prop json "url" = Some (call_url c) \/
     truthy_opt (prop json "url") = false /\ prop json "requestUrl" = Some (call_url c)) /\
    (prop json "method" = Some (call_method c) /\ truthy (call_method c) = true \/
     truthy_opt (prop json "method") = false /\ call_method c = JStr "GET").

(** What a run contributes to the calls: nothing, or its one call. *)
Definition contributes (entry : string * N8nNodeExecutionData) (calls : list HttpCall)
  : Prop :=
  (calls = [] /\ forall c, ~ callOf (fst entry) (snd entry) c) \/
  (exists c, calls = [c] /\ callOf (fst entry) (snd entry) c).

(** An execution with two runs of one node, for the cases above. *)
Definition firstItem : value :=
  JObj [("requestUrl", JStr "https://host/webhook/agent"); ("method", JStr "POST")].

Definition fanOut : list (string * list N8nNodeExecutionData) :=
  [("HTTP Request",
    [{| startTime := 1700000000500;
        run_main := Some [[firstItem; JObj [("url", JStr "https://host/webhook/billing")]];
                          [JObj [("url", JStr "https://host/webhook/other")]]] |};
     {| startTime := 1700000000900;
        run_main := Some [[JObj [("note", JStr "nothing was called")]]] |}])].

Definition fanOutRun : N8nExecution :=
  {| id := "1003"; startedAt := Some 1700000000000; workflowId := "W1";
     runData := Some fanOut |}.

End Calls.

(** ** [src/utils/validator.ts]

    [throw new Error(message)] is [inl (ApiError message)]: an [Error]
    object known by its message, as the one a failed request rejects with.
    A string is the sequence of its code units, [length] their number. *)
Module Validator.
Import Js N8nClient.

(** The double quote, for the messages that hold one. *)
Definition quote : string := String (Ascii.Ascii false true false false false true false false) "".

(** The character class [[a-zA-Z0-9_-]]. *)
Definition allowed (c : ascii) : bool :=
  (Ascii.leb "a" c && Ascii.leb c "z")
  || (Ascii.leb "A" c && Ascii.leb c "Z")
  || (Ascii.leb "0" c && Ascii.leb c "9")
  || Ascii.eqb c "_" || Ascii.eqb c "-".

(** [[a-zA-Z0-9_-]*] up to the end of the input. *)
Fixpoint all_allowed (s : string) : bool :=
  match s with
  | EmptyString => true
  | String c rest => allowed c && all_allowed rest
  end.

(** [/^[a-zA-Z0-9_-]+$/.test(id)] *)
Definition test (id : string) : bool :=
  match id with
  | EmptyString => false
  | String c rest => allowed c && all_allowed rest
  end.

Definition disallowedCharacters (idType : string) : string :=
  "Invalid " +:+ idType +:+ ": contains disallowed characters. "
  +:+ "Only alphanumeric, hyphens, and underscores are permitted.".

Definition tooLong (idType : string) : string :=
  "Invalid " +:+ idType +:+ ": exceeds maximum length of 100 characters".

Definition cannotBeEmpty (idType : string) : string :=
  "Invalid " +:+ idType +:+ ": cannot be empty".

(** [validateId] *)
Definition validateId (id idType : string) : Error + unit :=
  if negb (test id) then inl (ApiError (disallowedCharacters idType))
  else if (100 <? String.length id)%nat then inl (ApiError (tooLong idType))
  else if (String.length id =? 0)%nat then inl (ApiError (cannotBeEmpty idType))
  else inr tt.

(** [validateExecutionId] *)
Definition validateExecutionId (id : string) : Error + string :=
  match validateId id "Execution ID" with
  | inl e => inl e
  | inr _ => inr id
  end.

(** [validateWorkflowId] *)
Definition validateWorkflowId (id : string) : Error + string :=
  match validateId id "Workflow ID" with
  | inl e => inl e
  | inr _ => inr id
  end.

Definition badKeyFormat : string :=
  "Invalid N8N_API_KEY format: must start with " +:+ quote +:+ "n8n_api_" +:+ quote
  +:+ ". " +:+ "Generate a valid key in n8n Settings > n8n API.".

Definition keyTooShort : string :=
  "Invalid N8N_API_KEY: appears too short (minimum 20 characters)".

(** [validateApiKey] *)
Definition validateApiKey (key : string) : Error + unit :=
  if negb (startsWith key "n8n_api_") then inl (ApiError badKeyFormat)
  else if (String.length key <? 20)%nat then inl (ApiError keyTooShort)
  else inr tt.

(** The variables of [process.env] that the code reads. *)
Record Env := {
  N8N_API_URL : option string;
  N8N_API_KEY : option string;
  ALLOW_HTTP : option string
}.

Definition insecureWarning : string :=
  "WARNING: Using HTTP for non-localhost URL. "
  +:+ "This is insecure and should only be used in development.".

Definition httpsRequired : string :=
  "Invalid N8N_BASE_URL: must use HTTPS for security. "
  +:+ "For local development, use http://localhost or set ALLOW_HTTP=true".

(** [validateBaseUrl]: how it ends, and what it wrote with
    [console.warn]. *)
Definition validateBaseUrl (env : Env) (url : string) : (Error + unit) * list string :=
  if startsWith url "http://localhost" || startsWith url "http://127.0.0.1"
  then (inr tt, [])
  else if bool_decide (ALLOW_HTTP env = Some "true")
  then (inr tt, [insecureWarning])
  else if negb (startsWith url "https://")
  then (inl (ApiError httpsRequired), [])
  else (inr tt, []).

End Validator.

(** ** [src/n8n-client.ts]: the constructor and what the methods send *)
Module Client.
Import Js N8nClient Validator.

(** [a || b] on [string | undefined]. *)
Definition or_string (a b : option string) : option string :=
  if truthy_str a then a else b.

(** The configuration given to [axios.create]. *)
Record Axios := {
  baseURL : string;
  headers : list (string * string);
  timeout : Z
}.

Definition defaultUrl : string := "https://localhost:5678/api/v1".

Definition keyRequired : string :=
  "N8N_API_KEY is required. Set it in environment variables or pass to constructor.".

(** The constructor (lines 92-114): the instance it builds or the error it
    throws, and what it wrote with [console.warn]. *)
Definition construct (env : Env) (apiUrl apiKey : option string)
  : (Error + Axios) * list string :=
  let baseURL :=
    default defaultUrl (or_string (or_string apiUrl (N8N_API_URL env)) (Some defaultUrl)) in
  match or_string apiKey (N8N_API_KEY env) with
  | None => (inl (ApiError keyRequired), [])
  | Some key =>
      if String.eqb key "" then (inl (ApiError keyRequired), []) else
      match validateApiKey key with
      | inl e => (inl e, [])
      | inr _ =>
          match validateBaseUrl env baseURL with
          | (inl e, warnings) => (inl e, warnings)
          | (inr _, warnings) =>
              (inr {| baseURL := baseURL;
                      headers := [("X-N8N-API-KEY", key);
                                  ("Content-Type", "application/json")];
                      timeout := 30000 |},
               warnings)
          end
      end
  end.

(** A GET request of the axios instance: the path below [baseURL] and the
    query parameters that are not [undefined]. *)
Record Get := {
  path : string;
  params : list (string * value)
}.

(** [key: v] in a [params] object, absent when [v] is [undefined]. *)
Definition param (key : string) (v : option value) : list (string * value) :=
  match v with Some x => [(key, x)] | None => [] end.

(** [WorkflowListParams] *)
Record WorkflowListParams := {
  wl_active : option bool;
  wl_limit : option Z;
  wl_cursor : option string
}.

(** [ExecutionListParams] *)
Record ExecutionListParams := {
  el_workflowId : option string;
  el_status : option string;
  el_limit : option Z;
  el_cursor : option string;
  el_includeData : option bool
}.

(** [n || k] on [number | undefined]. *)
Definition or_number (n : option Z) (k : Z) : Z :=
  match n with
  | Some x => if x =? 0 then k else x
  | None => k
  end.

(** What [listWorkflows] asks for (lines 118-127). *)
Definition listWorkflowsRequest (p : WorkflowListParams) : Get :=
  {| path := "/workflows";
     params := param "active" (JBool <$> wl_active p)
               ++ [("limit", JNum (or_number (wl_limit p) 100))]
               ++ param "cursor" (JStr <$> wl_cursor p) |}.

(** What [getWorkflow] asks for, unless the id is refused (lines
    129-133). *)
Definition getWorkflowRequest (workflowId : string) : Error + Get :=
  match validateWorkflowId workflowId with
  | inl e => inl e
  | inr _ => inr {| path := "/workflows/" +:+ workflowId; params := [] |}
  end.

(** [if (v) queryParams.key = v] *)
Definition whenTruthy (key : string) (v : option string) : list (string * value) :=
  if truthy_str v then param key (JStr <$> v) else [].

(** What [listExecutions] asks for (lines 137-149). *)
Definition listExecutionsRequest (p : ExecutionListParams) : Get :=
  {| path := "/executions";
     params := [("limit", JNum (or_number (el_limit p) 20))]
               ++ whenTruthy "workflowId" (el_workflowId p)
               ++ whenTruthy "status" (el_status p)
               ++ whenTruthy "cursor" (el_cursor p)
               ++ (if default false (el_includeData p)
                   then [("includeData", JBool true)] else []) |}.

(** What [getExecution] asks for, unless the id is refused (lines
    151-157). *)
Definition getExecutionRequest (executionId : string) (includeData : bool) : Error + Get :=
  match validateExecutionId executionId with
  | inl e => inl e
  | inr _ => inr {| path := "/executions/" +:+ executionId;
                    params := [("includeData", JBool includeData)] |}
  end.

(** [await this.client.get(...)] after the request was built;
    [response.data] is returned as it is. *)
Definition send {A} (axios : Get -> Error + A) (request : Error + Get) : Error + A :=
  match request with
  | inl e => inl e
  | inr get => axios get
  end.

End Client.

(** ** [src/formatter.ts] and the helpers of the client it calls

    The records hold the fields of [N8nExecution], [N8nNodeExecutionData]
    and [N8nError] that the formatter, [extractError] and
    [getExecutionDuration] read.  Each formatter starts with
    [new N8nClient()], which can throw; what the constructor writes with
    [console.warn] is left out here. *)
Module Formatter.
Import Js N8nClient Validator Client.

(** [N8nError]; [err_nodeName] is [node?.name]. *)
Record N8nError := {
  err_message : string;
  err_stack : option string;
  err_nodeName : option string
}.

(** [N8nNodeExecutionData]; [run_json] is [data?.main?.[0]?.[0]?.json]. *)
Record Run := {
  run_executionTime : Z;
  run_executionStatus : option string;
  run_json : option value;
  run_error : option N8nError
}.

(** [N8nExecution]; [ex_workflowDataName] is [workflowData?.name],
    [ex_error] is [data?.resultData?.error] and
    [ex_runData] is [data?.resultData?.runData] as [Object.entries]
    enumerates it. *)
Record Execution := {
  ex_id : string;
  ex_status : string;
  ex_startedAt : string;
  ex_stoppedAt : option string;
  ex_workflowId : string;
  ex_workflowDataName : option string;
  ex_error : option N8nError;
  ex_runData : option (list (string * list Run))
}.

(** What [extractError] returns. *)
Record Failure := {
  f_node : string;
  f_message : string;
  f_stack : option string
}.

(** The first run with an error, in the order of iteration (lines
    215-225 of [src/n8n-client.ts]). *)
Fixpoint firstRunError (nodeName : string) (nodeRuns : list Run) : option Failure :=
  match nodeRuns with
  | [] => None
  | run :: rest =>
      match run_error run with
      | Some err => Some {| f_node := nodeName; f_message := err_message err;
                            f_stack := err_stack err |}
      | None => firstRunError nodeName rest
      end
  end.

Fixpoint firstNodeError (entries : list (string * list Run)) : option Failure :=
  match entries with
  | [] => None
  | (nodeName, nodeRuns) :: rest =>
      match firstRunError nodeName nodeRuns with
      | Some failure => Some failure
      | None => firstNodeError rest
      end
  end.

(** [extractError] ([src/n8n-client.ts], lines 200-229) *)
Definition extractError (execution : Execution) : option Failure :=
  if negb (String.eqb (ex_status execution) "error") then None else
  match ex_error execution with
  | Some err =>
      Some {| f_node := default "Unknown" (or_string (err_nodeName err) (Some "Unknown"));
              f_message := err_message err;
              f_stack := err_stack err |}
  | None =>
      match ex_runData execution with
      | Some runData => firstNodeError runData
      | None => None
      end
  end.

(** The integer [z] as a binary64 number, rounded to the nearest one. *)
Definition float_of_Z (z : Z) : float :=
  if z <? 0 then PrimFloat.opp (PrimFloat.of_uint63 (Uint63.of_Z (- z)))
  else PrimFloat.of_uint63 (Uint63.of_Z z).

(** Truthiness of a number: neither zero nor [NaN]. *)
Definition truthy_float (f : float) : bool :=
  negb (PrimFloat.eqb f 0 || PrimFloat.is_nan f).

(** [s.substring(0, n)] *)
Fixpoint substring0 (n : nat) (s : string) : string :=
  match n, s with
  | S n', String c rest => String c (substring0 n' rest)
  | _, _ => ""
  end.

(** [workflows.get(workflowId) || workflowId] *)
Definition workflowNameOf (workflows : list (string * string)) (workflowId : string)
  : string :=
  Names.nameOf workflows workflowId.

Section Platform.

(** [new Date(s).getTime()], [None] when [s] is no date. *)
Variable Date_getTime : string -> num.
(** [x.toFixed(1)] *)
Variable toFixed1 : float -> string.
(** [s.toLowerCase()] *)
Variable toLowerCase : string -> string.
(** [JSON.stringify(v, null, 2)] *)
Variable JSON_stringify : value -> string.
Variable env : Env.

(** [const client = new N8nClient()] and then [body]. *)
Definition withClient {A} (body : A) : Error + A :=
  match fst (construct env None None) with
  | inl e => inl e
  | inr _ => inr body
  end.

(** [getExecutionDuration] ([src/n8n-client.ts], lines 190-195): [None] is
    [null]. *)
Definition getExecutionDuration (execution : Execution) : option float :=
  if String.eqb (ex_startedAt execution) "" then None else
  match ex_stoppedAt execution with
  | None => None
  | Some stoppedAt =>
      if String.eqb stoppedAt "" then None else
      match Date_getTime (ex_startedAt execution), Date_getTime stoppedAt with
      | Some start, Some end_ =>
          Some (PrimFloat.div (float_of_Z (end_ - start)) 1000)
      | _, _ => Some PrimFloat.nan
      end
  end.

(** [duration ? `${duration.toFixed(1)}s` : 'running'] *)
Definition durationStr (duration : option float) : string :=
  match duration with
  | Some d => if truthy_float d then toFixed1 d +:+ "s" else "running"
  | None => "running"
  end.

(** The execution has no stop time, or one of its two times is no date,
    or it stopped at the instant it started. *)
Definition untimed (execution : Execution) : Prop :=
  ex_startedAt execution = "" \/
  ex_stoppedAt execution = None \/ ex_stoppedAt execution = Some "" \/
  exists stoppedAt,
    ex_stoppedAt execution = Some stoppedAt /\
    (Date_getTime (ex_startedAt execution) = None \/
     Date_getTime stoppedAt = None \/
     Date_getTime stoppedAt = Date_getTime (ex_startedAt execution)).

(** *** [formatFailedExecutions] *)

Definition isFailed (e : Execution) : bool := String.eqb (ex_status e) "error".

(** The lines pushed for one failed execution (lines 200-211). *)
Definition failedEntry (workflows : list (string * string)) (index : nat)
    (exec : Execution) : list string :=
  [pretty index +:+ ". " +:+ workflowNameOf workflows (ex_workflowId exec)
   +:+ " - " +:+ ex_id exec]
  ++ match extractError exec with
     | Some error =>
         ["   Failed at: [" +:+ f_node error +:+ "]";
          "   Error: " +:+ quote +:+ f_message error +:+ quote]
     | None => []
     end
  ++ ["   Time: " +:+ ex_startedAt exec; ""].

(** [for (const exec of failed) { ...; index++ }] *)
Fixpoint failedEntries (workflows : list (string * string)) (index : nat)
    (failed : list Execution) : list string :=
  match failed with
  | [] => []
  | exec :: rest =>
      failedEntry workflows index exec ++ failedEntries workflows (S index) rest
  end.

Definition failedLines (executions : list Execution) (workflows : list (string * string))
  : list string :=
  let failed := List.filter isFailed executions in
  ["FAILED EXECUTIONS (" +:+ pretty (length failed) +:+ "):"; ""]
  ++ if (length failed =? 0)%nat
     then ["No failed executions in the specified time range."]
     else failedEntries workflows 1 failed.

Definition formatFailedExecutions (executions : list Execution)
    (workflows : list (string * string)) : Error + string :=
  withClient (join (String "010" "") (failedLines executions workflows)).

(** *** [formatExecutionList] *)

Definition countStatus (status : string) (executions : list Execution) : nat :=
  length (List.filter (fun e => String.eqb (ex_status e) status) executions).

Definition statusIcon (status : string) : string :=
  if String.eqb status "success" then "OK"
  else if String.eqb status "error" then "ERR"
  else "RUN".

(** The lines pushed for one execution (lines 161-175). *)
Definition listEntry (exec : Execution) : list string :=
  ["[" +:+ statusIcon (ex_status exec) +:+ "] " +:+ ex_id exec +:+ " - "
   +:+ durationStr (getExecutionDuration exec) +:+ " - " +:+ ex_startedAt exec]
  ++ if String.eqb (ex_status exec) "error" then
       match extractError exec with
       | Some error =>
           ["     Failed at: [" +:+ f_node error +:+ "]";
            "     Error: " +:+ substring0 100 (f_message error)]
       | None => []
       end
     else [].

Definition listLines (executions : list Execution) (workflowName : option string)
  : list string :=
  [if truthy_str workflowName
   then "EXECUTIONS for " +:+ default "" workflowName
        +:+ " (" +:+ pretty (length executions) +:+ "):"
   else "RECENT EXECUTIONS (" +:+ pretty (length executions) +:+ "):";
   "";
   "Summary: " +:+ pretty (countStatus "success" executions) +:+ " success, "
   +:+ pretty (countStatus "error" executions) +:+ " failed, "
   +:+ pretty (countStatus "running" executions) +:+ " running";
   ""]
  ++ List.flat_map listEntry executions.

Definition formatExecutionList (executions : list Execution)
    (workflowName : option string) : Error + string :=
  withClient (join (String "010" "") (listLines executions workflowName)).

(** *** [formatExecutionTrace] *)

(** [run.error ? 'ERROR' : (run.executionStatus || 'SUCCESS')] *)
Definition runStatus (run : Run) : string :=
  match run_error run with
  | Some _ => "ERROR"
  | None => default "SUCCESS" (or_string (run_executionStatus run) (Some "SUCCESS"))
  end.

(** [run.executionTime ? `${run.executionTime}ms` : '?ms'] *)
Definition runTime (run : Run) : string :=
  if run_executionTime run =? 0 then "?ms" else pretty (run_executionTime run) +:+ "ms".

(** The lines pushed for one run (lines 34-57). *)
Definition runLines (summarize : bool) (maxPayloadSize : nat) (index : nat)
    (nodeName : string) (run : Run) : list string :=
  [pretty index +:+ ". [" +:+ nodeName +:+ "] " +:+ runTime run +:+ " -> "
   +:+ runStatus run]
  ++ (if summarize then [] else
      match run_json run with
      | Some mainData =>
          if truthy mainData then
            let dataStr := JSON_stringify mainData in
            if (maxPayloadSize <? String.length dataStr)%nat
            then ["   Output: " +:+ substring0 maxPayloadSize dataStr
                  +:+ "... (truncated)"]
            else ["   Output: " +:+ dataStr]
          else []
      | None => []
      end)
  ++ match run_error run with
     | Some err => ["   ERROR: " +:+ err_message err]
     | None => []
     end
  ++ [""].

(** The runs in the order of the two loops, each with the name of its
    node. *)
Definition runsInOrder (runData : list (string * list Run)) : list (string * Run) :=
  List.flat_map (fun entry => List.map (pair (fst entry)) (snd entry)) runData.

(** [for ... { ...; index++ }] over all runs. *)
Fixpoint numberedRuns (summarize : bool) (maxPayloadSize : nat) (index : nat)
    (runs : list (string * Run)) : list string :=
  match runs with
  | [] => []
  | (nodeName, run) :: rest =>
      runLines summarize maxPayloadSize index nodeName run
      ++ numberedRuns summarize maxPayloadSize (S index) rest
  end.

(** The end of the trace (lines 64-74). *)
Definition errorSummary (execution : Execution) : list string :=
  match extractError execution with
  | Some error =>
      ["---"; "ERROR DETAILS:"; "Node: " +:+ f_node error;
       "Message: " +:+ f_message error]
      ++ (if truthy_str (f_stack error)
          then ["Stack: " +:+ join (String "010" "")
                  (take 5 (split "010" (default "" (f_stack error))))]
          else [])
  | None =>
      if String.eqb (ex_status execution) "success" then ["ERRORS: None"] else []
  end.

Definition traceLines (execution : Execution) (workflow : option N8nWorkflow)
    (summarize : option bool) : list string :=
  let summarize := default false summarize in
  let maxPayloadSize := 500%nat in
  ["EXECUTION: " +:+ ex_id execution;
   "WORKFLOW: "
   +:+ default (ex_workflowId execution)
         (or_string (or_string (wf_name <$> workflow) (ex_workflowDataName execution))
                    (Some (ex_workflowId execution)));
   "STATUS: " +:+ ex_status execution +:+ " | TIME: "
   +:+ durationStr (getExecutionDuration execution)
   +:+ " | STARTED: " +:+ ex_startedAt execution;
   ""]
  ++ match ex_runData execution with
     | Some runData =>
         ["NODE TRACE (" +:+ pretty (length runData) +:+ " nodes):"; ""]
         ++ numberedRuns summarize maxPayloadSize 1 (runsInOrder runData)
     | None => []
     end
  ++ errorSummary execution.

(** [formatExecutionTrace], as the handler calls it: with [summarize] and
    the default payload size. *)
Definition formatExecutionTrace (execution : Execution) (workflow : option N8nWorkflow)
    (summarize : option bool) : Error + string :=
  withClient (join (String "010" "") (traceLines execution workflow summarize)).

(** *** [formatWorkflowList] *)

Inductive Group := Core | Agents | Marcus | Other.

Definition groupName (g : Group) : string :=
  match g with
  | Core => "Core" | Agents => "Agents" | Marcus => "Marcus" | Other => "Other"
  end.

(** The naming convention (lines 102-110). *)
Definition groupOf (wf : N8nWorkflow) : Group :=
  if startsWith (wf_name wf) "MAIN_" || startsWith (wf_name wf) "MEMORY_" then Core
  else if startsWith (wf_name wf) "AGENT_" then Agents
  else if startsWith (wf_name wf) "MARCUS_"
          || includes (toLowerCase (wf_name wf)) "marcus" then Marcus
  else Other.

Definition sameGroup (a b : Group) : bool :=
  match a, b with
  | Core, Core | Agents, Agents | Marcus, Marcus | Other, Other => true
  | _, _ => false
  end.

(** [groups[g]] once the first loop is over. *)
Definition members (g : Group) (workflows : list N8nWorkflow) : list N8nWorkflow :=
  List.filter (fun wf => sameGroup (groupOf wf) g) workflows.

(** The lines pushed for one workflow (lines 118-129). *)
Definition workflowEntry (includeWebhooks : bool) (wf : N8nWorkflow) : list string :=
  ["  - " +:+ wf_name wf +:+ (if wf_active wf then "" else " (INACTIVE)")
   +:+ " (ID: " +:+ wf_id wf +:+ ")"]
  ++ if includeWebhooks && match wf_nodes wf with Some _ => true | None => false end then
       (if (0 <? length (extractWebhookPaths wf))%nat
        then ["    Webhooks: " +:+ join ", " (extractWebhookPaths wf)] else [])
       ++ (if hasSubWorkflowTrigger wf then ["    Sub-workflow trigger: Yes"] else [])
     else [].

(** The line of a workflow (line 119). *)
Definition entryLine (wf : N8nWorkflow) : string :=
  "  - " +:+ wf_name wf +:+ (if wf_active wf then "" else " (INACTIVE)")
  +:+ " (ID: " +:+ wf_id wf +:+ ")".

(** The lines pushed for one group (lines 114-131). *)
Definition groupLines (includeWebhooks : bool) (workflows : list N8nWorkflow) (g : Group)
  : list string :=
  match members g workflows with
  | [] => []
  | groupWorkflows =>
      [groupName g +:+ ":"]
      ++ List.flat_map (workflowEntry includeWebhooks) groupWorkflows
      ++ [""]
  end.

(** The line of a workflow begins with two blanks and a hyphen. *)
Definition isEntry (line : string) : bool := startsWith line "  - ".

Definition workflowLines (workflows : list N8nWorkflow) (includeWebhooks : option bool)
  : list string :=
  let includeWebhooks := default true includeWebhooks in
  ["ACTIVE WORKFLOWS (" +:+ pretty (length (List.filter wf_active workflows))
   +:+ " active, " +:+ pretty (length workflows) +:+ " total):"; ""]
  ++ List.flat_map (groupLines includeWebhooks workflows) [Core; Agents; Marcus; Other].

Definition formatWorkflowList (workflows : list N8nWorkflow)
    (includeWebhooks : option bool) : Error + string :=
  withClient (join (String "010" "") (workflowLines workflows includeWebhooks)).

(** *** [analyzeErrorPattern] *)

(** [if (cond) { suggestions.push(a); suggestions.push(b); suggestions.push(c) }] *)
Definition suggest (cond : bool) (three : list string) (suggestions : list string)
  : list string :=
  if cond then suggestions ++ three else suggestions.

Definition connectionAdvice : list string :=
  ["Target service is not running or not accessible";
   "Check if the webhook/service URL is correct";
   "Verify network connectivity and firewall rules"].
Definition timeoutAdvice : list string :=
  ["Request took too long - target service may be overloaded";
   "Consider increasing timeout settings";
   "Check target service performance"].
Definition authenticationAdvice : list string :=
  ["API credentials may be invalid or expired";
   "Check credential configuration in n8n";
   "Verify API key/token permissions"].
Definition notFoundAdvice : list string :=
  ["Resource or endpoint does not exist";
   "Check URL path and parameters";
   "Verify the resource ID is correct"].
Definition validationAdvice : list string :=
  ["Input data may be missing required fields";
   "Check data types match expected format";
   "Review input from previous node"].
Definition notionAdvice : list string :=
  ["Check Notion database ID is correct";
   "Verify property names match Notion schema";
   "Ensure Notion integration has access to the database"].
Definition defaultAdvice : list string :=
  ["Review the error message for specific details";
   "Check input data from previous nodes";
   "Verify node configuration and credentials"].

(** The six tests of [analyzeErrorPattern], in their order. *)
Definition tests (errorMessage : string) (nodeType : option string) : list bool :=
  let msg := toLowerCase errorMessage in
  [includes msg "econnrefused" || includes msg "connection refused";
   includes msg "timeout" || includes msg "timed out";
   includes msg "401" || includes msg "unauthorized" || includes msg "authentication";
   includes msg "404" || includes msg "not found";
   includes msg "invalid" || includes msg "validation" || includes msg "required";
   match nodeType with Some t => includes t "notion" | None => false end
   || includes msg "notion"].

(** [analyzeErrorPattern] (lines 357-411) *)
Definition analyzeErrorPattern (errorMessage : string) (nodeType : option string)
  : list string :=
  let msg := toLowerCase errorMessage in
  let suggestions := [] in
  let suggestions :=
    suggest (includes msg "econnrefused" || includes msg "connection refused")
            connectionAdvice suggestions in
  let suggestions :=
    suggest (includes msg "timeout" || includes msg "timed out")
            timeoutAdvice suggestions in
  let suggestions :=
    suggest (includes msg "401" || includes msg "unauthorized"
             || includes msg "authentication")
            authenticationAdvice suggestions in
  let suggestions :=
    suggest (includes msg "404" || includes msg "not found")
            notFoundAdvice suggestions in
  let suggestions :=
    suggest (includes msg "invalid" || includes msg "validation"
             || includes msg "required")
            validationAdvice suggestions in
  let suggestions :=
    suggest (match nodeType with Some t => includes t "notion" | None => false end
             || includes msg "notion")
            notionAdvice suggestions in
  if (length suggestions =? 0)%nat then suggestions ++ defaultAdvice else suggestions.

End Platform.

End Formatter.

(** ** The tool handlers

    A handler ends with the text it resolves to or with the error it
    rejects with, and leaves the list of the requests it sent.  The
    arguments have their declared types. *)
Module Tools.
Import Js N8nClient Validator Client Formatter.

(** What the server answers to the requests of the client,
    [response.data.data] for the two listings: the same answer to the
    same request as long as a handler runs. *)
Record Server := {
  GET_workflows : Get -> Error + list N8nWorkflow;
  GET_workflow : Get -> Error + N8nWorkflow;
  GET_executions : Get -> Error + list Execution;
  GET_execution : Get -> Error + Execution
}.

Definition Promise (A : Type) : Type := (Error + A) * list Get.

Definition done {A} (a : A) : Promise A := (inr a, []).
Definition fail {A} (e : Error) : Promise A := (inl e, []).

Definition andThen {A B} (m : Promise A) (k : A -> Promise B) : Promise B :=
  match m with
  | (inr a, t1) => let '(r, t2) := k a in (r, t1 ++ t2)
  | (inl e, t1) => (inl e, t1)
  end.

(** [try { m } catch (error) { handler }] *)
Definition catch {A} (m : Promise A) (handler : Error -> Promise A) : Promise A :=
  match m with
  | (inl e, t1) => let '(r, t2) := handler e in (r, t1 ++ t2)
  | (inr a, t1) => (inr a, t1)
  end.

(** A method of the client: the request is built, which can throw, and
    then sent. *)
Definition ask {A} (endpoint : Get -> Error + A) (request : Error + Get) : Promise A :=
  match request with
  | inl e => (inl e, [])
  | inr get => (endpoint get, [get])
  end.

Declare Scope promise_scope.
Delimit Scope promise_scope with promise.
Notation "x <~ m ;; k" := (andThen m (fun x => k))
  (at level 100, m at next level, right associativity) : promise_scope.
#[local] Open Scope promise_scope.

(** [error instanceof Error ? error.message : String(error)]; the two
    run-time errors have the messages of V8. *)
Definition messageOf (e : Error) : string :=
  match e with
  | ApiError message => message
  | RangeError => "Invalid time value"
  | TypeError => "path.replace is not a function"
  end.

Definition noWorkflowParams : WorkflowListParams :=
  {| wl_active := None; wl_limit := None; wl_cursor := None |}.

Record FailedArgs := {
  fa_workflowId : option string;
  fa_workflowName : option string;
  fa_limit : option Z
}.

Record TraceArgs := {
  ta_executionId : string;
  ta_summarize : option bool
}.

Record ExecutionsArgs := {
  ea_workflowId : option string;
  ea_workflowName : option string;
  ea_limit : option Z;
  ea_status : option string
}.

Section Handlers.

Variable Date_getTime : string -> num.
Variable toFixed1 : float -> string.
Variable toLowerCase : string -> string.
Variable JSON_stringify : value -> string.
Variable env : Env.
Variable server : Server.

Definition listWorkflows (p : WorkflowListParams) : Promise (list N8nWorkflow) :=
  ask (GET_workflows server) (inr (listWorkflowsRequest p)).

Definition getWorkflow (workflowId : string) : Promise N8nWorkflow :=
  ask (GET_workflow server) (getWorkflowRequest workflowId).

Definition listExecutions (p : ExecutionListParams) : Promise (list Execution) :=
  ask (GET_executions server) (inr (listExecutionsRequest p)).

Definition getExecution (executionId : string) (includeData : bool) : Promise Execution :=
  ask (GET_execution server) (getExecutionRequest executionId includeData).

(** [workflows.find(wf => wf.name.toLowerCase().includes(name.toLowerCase()))] *)
Definition findByName (name : string) (workflows : list N8nWorkflow) : option N8nWorkflow :=
  List.find (fun wf => includes (toLowerCase (wf_name wf)) (toLowerCase name)) workflows.

(** A formatter called inside [try]. *)
Definition formatted (text : Error + string) : Promise string :=
  match text with
  | inl e => fail e
  | inr s => done s
  end.

(** [new Map()] filled with [wf.id -> wf.name] in the order of the
    listing. *)
Definition workflowNames (workflows : list N8nWorkflow) : list (string * string) :=
  List.fold_left
    (fun names wf => ExecutionCorrelator.map_set (wf_id wf) (wf_name wf) names)
    workflows [].

(** The body of [try] in [handleGetFailedExecutions]. *)
Definition failedExecutions (args : FailedArgs) : Promise string :=
  workflowId <~
    (if negb (truthy_str (fa_workflowId args)) && truthy_str (fa_workflowName args)
     then
       workflows <~ listWorkflows noWorkflowParams ;;
       done (match findByName (default "" (fa_workflowName args)) workflows with
             | Some found => Some (wf_id found)
             | None => fa_workflowId args
             end)
     else done (fa_workflowId args)) ;;
  executions <~
    listExecutions {| el_workflowId := workflowId; el_status := Some "error";
                      el_limit := Some (or_number (fa_limit args) 10);
                      el_cursor := None; el_includeData := Some true |} ;;
  workflows <~ listWorkflows noWorkflowParams ;;
  formatted (formatFailedExecutions env executions (workflowNames workflows)).

(** [handleGetFailedExecutions] *)
Definition handleGetFailedExecutions (args : FailedArgs) : Promise string :=
  match fst (construct env None None) with
  | inl e => fail e
  | inr _ =>
      catch (failedExecutions args)
            (fun e => done ("Error fetching failed executions: " +:+ messageOf e))
  end.

(** The rest of [try] in [handleGetWorkflowExecutions], from line 120
    on, with the id and the name settled so far. *)
Definition listFor (args : ExecutionsArgs) (workflowId workflowName : option string)
  : Promise string :=
  if negb (truthy_str workflowId)
  then done "Please provide either workflowId or workflowName" else
  let id := default "" workflowId in
  workflowName <~
    (if negb (truthy_str workflowName)
     then workflow <~ getWorkflow id ;; done (Some (wf_name workflow))
     else done workflowName) ;;
  executions <~
    listExecutions {| el_workflowId := Some id;
                      el_status := if bool_decide (ea_status args = Some "all")
                                   then None else ea_status args;
                      el_limit := Some (or_number (ea_limit args) 20);
                      el_cursor := None; el_includeData := Some true |} ;;
  formatted (formatExecutionList Date_getTime toFixed1 env executions workflowName).

(** The body of [try] in [handleGetWorkflowExecutions]. *)
Definition workflowExecutions (args : ExecutionsArgs) : Promise string :=
  match (if truthy_str (ea_workflowId args)
         then validateWorkflowId (default "" (ea_workflowId args))
         else inr "") with
  | inl e => fail e
  | inr _ =>
      if negb (truthy_str (ea_workflowId args)) && truthy_str (ea_workflowName args)
      then
        workflows <~ listWorkflows noWorkflowParams ;;
        match findByName (default "" (ea_workflowName args)) workflows with
        | None =>
            done ("No workflow found matching " +:+ quote
                  +:+ default "" (ea_workflowName args) +:+ quote)
        | Some found => listFor args (Some (wf_id found)) (Some (wf_name found))
        end
      else listFor args (ea_workflowId args) (ea_workflowName args)
  end.

(** [handleGetWorkflowExecutions] *)
Definition handleGetWorkflowExecutions (args : ExecutionsArgs) : Promise string :=
  match fst (construct env None None) with
  | inl e => fail e
  | inr _ =>
      catch (workflowExecutions args)
            (fun e => done ("Error fetching executions: " +:+ messageOf e))
  end.

(** [try { workflow = await client.getWorkflow(id) } catch { }] *)
Definition tryGetWorkflow (workflowId : string) : Promise (option N8nWorkflow) :=
  catch (workflow <~ getWorkflow workflowId ;; done (Some workflow))
        (fun _ => done None).

(** The body of [try] in [handleGetExecutionTrace]. *)
Definition executionTrace (args : TraceArgs) : Promise string :=
  match validateExecutionId (ta_executionId args) with
  | inl e => fail e
  | inr _ =>
      execution <~ getExecution (ta_executionId args) true ;;
      workflow <~ tryGetWorkflow (ex_workflowId execution) ;;
      formatted (formatExecutionTrace Date_getTime toFixed1 JSON_stringify env
                   execution workflow (ta_summarize args))
  end.

(** [handleGetExecutionTrace] *)
Definition handleGetExecutionTrace (args : TraceArgs) : Promise string :=
  match fst (construct env None None) with
  | inl e => fail e
  | inr _ =>
      catch (executionTrace args)
            (fun e => done ("Error fetching execution trace: " +:+ messageOf e))
  end.

End Handlers.

End Tools.

(** ** Cases for the validator, the formatter and the handlers *)
Module Samples.
Import Js N8nClient Validator Client Formatter Tools.

Definition env0 : Env :=
  {| N8N_API_URL := None;
     N8N_API_KEY := Some "n8n_api_0123456789abcdef";
     ALLOW_HTTP := None |}.

(** Lower case of the letters [A] to [Z]. *)
Definition lowerChar (c : ascii) : ascii :=
  if Ascii.leb "A" c && Ascii.leb c "Z"
  then ascii_of_N (N_of_ascii c + 32) else c.

Fixpoint lower (s : string) : string :=
  match s with
  | EmptyString => EmptyString
  | String c rest => String (lowerChar c) (lower rest)
  end.

Definition noDate (s : string) : num := None.
Definition oneDecimal (f : float) : string := "?".

Definition refused : N8nError :=
  {| err_message := "connect ECONNREFUSED 10.0.0.7:443"; err_stack := None;
     err_nodeName := Some "HTTP Request" |}.

Definition failedRun : Execution :=
  {| ex_id := "3001"; ex_status := "error";
     ex_startedAt := "2024-05-01T10:00:00.000Z";
     ex_stoppedAt := Some "2024-05-01T10:00:01.500Z";
     ex_workflowId := "W2"; ex_workflowDataName := None;
     ex_error := Some refused; ex_runData := None |}.

Definition server0 : Server :=
  {| GET_workflows := fun _ => inr [Scenario.W1; Scenario.W2];
     GET_workflow := fun _ => inr Scenario.W2;
     GET_executions := fun _ => inr [failedRun];
     GET_execution := fun _ => inr failedRun |}.

Definition noWorkflows : Server :=
  {| GET_workflows := fun _ => inl (ApiError "Request failed with status code 500");
     GET_workflow := fun _ => inl (ApiError "Request failed with status code 404");
     GET_executions := fun _ => inr [failedRun];
     GET_execution := fun _ => inr failedRun |}.

Definition braces (v : value) : string := "{}".

(** A successful execution with a node that failed, in no time, and went
    on. *)
Definition patchedRun : Execution :=
  {| ex_id := "3002"; ex_status := "success";
     ex_startedAt := "2024-05-01T10:00:00.000Z";
     ex_stoppedAt := Some "2024-05-01T10:00:02.000Z";
     ex_workflowId := "W2"; ex_workflowDataName := Some "Agent";
     ex_error := None;
     ex_runData :=
       Some [("Lookup",
              [{| run_executionTime := 0; run_executionStatus := None;
                  run_json := None; run_error := Some refused |}])] |}.

Definition traceOf3001 : TraceArgs :=
  {| ta_executionId := "3001"; ta_summarize := None |}.

Definition byUnknownName : FailedArgs :=
  {| fa_workflowId := None; fa_workflowName := Some "billing"; fa_limit := None |}.

Definition byIdAndName : ExecutionsArgs :=
  {| ea_workflowId := Some "W2"; ea_workflowName := Some "Nightly import";
     ea_limit := None; ea_status := Some "all" |}.

End Samples.

(** ** [handleGetCorrelatedExecutions] and the tree of
    [formatCorrelationTree] *)
Module CorrelatedTool.
Import Js N8nClient ExecutionCorrelator Validator Names.

Record CorrelatedArgs := {
  ca_executionId : string;
  ca_timeWindowMs : option Z
}.

Section Handler.

Variable URL_pathname : string -> option string.
(** The client, constructed. *)
Variable client : DataSource.

(** The body of [try] in [handleGetCorrelatedExecutions] up to the call
    of the formatter, whose three arguments it returns; it runs on the
    correlator that the handler has just created. *)
Definition correlated (fuel : nat) (args : CorrelatedArgs)
  : M Instance (N8nExecution * list CorrelationResult * list (string * string)) :=
  match validateExecutionId (ca_executionId args) with
  | inl e => throw e
  | inr _ =>
      (initialize client ;;
       rootExecution <- request (GetExecution (ca_executionId args))
                                (getExecution client (ca_executionId args)) ;;
       correlated <- correlateExecutions URL_pathname client fuel (ca_executionId args)
                       {| opt_timeWindowMs :=
                            Some (Client.or_number (ca_timeWindowMs args) 30000);
                          opt_maxDepth := None |} ;;
       this <- get ;;
       ret (rootExecution, correlated, getWorkflowNames this))%js
  end.

End Handler.

End CorrelatedTool.

Module Tree.
Import Js N8nClient ExecutionCorrelator.

(** [byParent] (lines 247-252 of [src/formatter.ts]): the results grouped
    by parent, every group in the order of the results. *)
Definition byParent (correlatedExecutions : list CorrelationResult)
  : list (string * list CorrelationResult) :=
  List.fold_left
    (fun m corr =>
       map_set (parentId corr) (default [] (map_get m (parentId corr)) ++ [corr]) m)
    correlatedExecutions [].

Section Print.

(** The text of a line after its prefix: the id of the child, the name of
    its workflow, its duration and its status, read from the map of names
    and from fields of the execution that the correlator does not look
    at. *)
Variable describe : CorrelationResult -> string.
Variable groups : list (string * list CorrelationResult).

(** The loop of [printChildren] (lines 257-270); [recurse] is
    [printChildren] itself. *)
Fixpoint printEach (recurse : string -> string -> option (list string))
    (indent : string) (children : list CorrelationResult) : option (list string) :=
  match children with
  | [] => Some []
  | child :: rest =>
      let isLast := match rest with [] => true | _ :: _ => false end in
      let prefix := if isLast then "└── " else "├── " in
      let childIndent := if isLast then "    " else "│   " in
      match recurse (id (execution child)) (indent +:+ childIndent) with
      | None => None
      | Some below =>
          match printEach recurse indent rest with
          | None => None
          | Some after => Some ((indent +:+ prefix +:+ describe child) :: below ++ after)
          end
      end
  end.

(** [printChildren]: the lines it pushes, or [None] when the recursion is
    deeper than [fuel]. *)
Fixpoint printChildren (fuel : nat) (parentId indent : string) : option (list string) :=
  match fuel with
  | O => None
  | S fuel' =>
      printEach (printChildren fuel') indent (default [] (map_get groups parentId))
  end.

End Print.

(** The results with the parent [k], in their order. *)
Definition childrenOf (k : string) (rs : list CorrelationResult) : list CorrelationResult :=
  List.filter (fun r => String.eqb (parentId r) k) rs.

(** A list of results that is a forest below [p] in depth-first order:
    each tree is its root, a result with the parent [p], followed by the
    forest below that root. *)
Inductive Forest : string -> list CorrelationResult -> Prop :=
| Forest_nil p : Forest p []
| Forest_tree p r below rest :
    parentId r = p ->
    Forest (id (execution r)) below ->
    Forest p rest ->
    Forest p (r :: below ++ rest).

(** Line by line, [lines] shows [rs]. *)
Definition shows (describe : CorrelationResult -> string)
    (lines : list string) (rs : list CorrelationResult) : Prop :=
  Forall2 (fun line r => exists lead, line = lead +:+ describe r) lines rs.

End Tree.

(** * Rules for sequencing and loops *)
Section Rules.
Import Js N8nClient ExecutionCorrelator Logic.
#[local] Open Scope js_scope.
Context {S : Type} (R : Summary S) `{!Composable R}.

Lemma satisfies_ret {A} (a : A) : satisfies R (ret a).
Proof. intros s. apply comp_ret. Qed.

Lemma satisfies_get : satisfies R get.
Proof. intros s. apply comp_ret. Qed.

Lemma satisfies_bind {A B} (m : M S A) (k : A -> M S B) :
  satisfies R m -> (forall a, satisfies R (k a)) -> satisfies R (bind m k).
Proof.
  intros Hm Hk s. specialize (Hm s). unfold bind.
  destruct (m s) as [[o s1] t1]. destruct o as [a| e |]; try exact Hm.
  specialize (Hk a s1). destruct (k a s1) as [[o2 s2] t2].
  unfold outcome, final, trace in *. simpl in *.
  eapply comp_seq; eauto.
Qed.

Lemma satisfies_for_of {A} (xs : list A) (body : A -> M S unit) :
  (forall x, x ∈ xs -> satisfies R (body x)) -> satisfies R (for_of xs body).
Proof.
  induction xs as [|x xs IH]; intros Hbody; simpl.
  - apply satisfies_ret.
  - apply satisfies_bind.
    + apply Hbody. left.
    + intros _. apply IH. intros y Hy. apply Hbody. by right.
Qed.

End Rules.

Section Inversion.
Import Js N8nClient ExecutionCorrelator Logic.
#[local] Open Scope js_scope.

Lemma bind_Ret_inv {S A B} (m : M S A) (k : A -> M S B) s b s' t :
  bind m k s = (Ret b, s', t) ->
  exists a s1 t1 t2,
    m s = (Ret a, s1, t1) /\ k a s1 = (Ret b, s', t2) /\ t = t1 ++ t2.
Proof.
  unfold bind. destruct (m s) as [[[a|e|] s1] t1]; try discriminate.
  destruct (k a s1) as [[o s2] t2] eqn:Hk. intros [= -> -> <-].
  by exists a, s1, t1, t2.
Qed.

Lemma erase_unit (o : Outcome unit) : erase o = o.
Proof. by destruct o as [[]| |]. Qed.

Lemma extends_refl {S A} (m : M S A) : extends m m.
Proof. by intros s _. Qed.

Lemma extends_bind {S A B} (m m' : M S A) (k k' : A -> M S B) :
  extends m m' -> (forall a, extends (k a) (k' a)) ->
  extends (bind m k) (bind m' k').
Proof.
  intros Hm Hk s. unfold bind. specialize (Hm s).
  destruct (m s) as [[[a|e|] s1] t1] eqn:E; simpl.
  - rewrite Hm by done. specialize (Hk a s1).
    destruct (k a s1) as [[o s2] t2]. intros Ho. by rewrite Hk.
  - rewrite Hm by done. done.
  - done.
Qed.

Lemma extends_for_of {S A} (xs : list A) (body body' : A -> M S unit) :
  (forall x, extends (body x) (body' x)) ->
  extends (for_of xs body) (for_of xs body').
Proof.
  intros H. induction xs as [|x xs IH]; simpl; [apply extends_refl|].
  apply extends_bind; [apply H|]. intros _. exact IH.
Qed.

Lemma enters_app t1 t2 : enters (t1 ++ t2) = enters t1 ++ enters t2.
Proof. unfold enters. apply flat_map_app. Qed.

Lemma failures_app t1 t2 : failures (t1 ++ t2) = failures t1 ++ failures t2.
Proof. unfold failures. apply flat_map_app. Qed.

Lemma failed_call_in_failures t r e : Called r (Some e) ∈ t -> e ∈ failures t.
Proof.
  induction t as [|ev t IH]; intros H; [by apply elem_of_nil in H|].
  apply elem_of_cons in H as [<-|H]; simpl.
  - left.
  - apply elem_of_app. right. by apply IH.
Qed.

End Inversion.

(** * The confidences the two scorers can produce *)
Section Scores.
Import Js N8nClient ExecutionCorrelator Logic Shape.

Lemma scoreCorrelation_at_most_1 parent candidate parentContext httpCall :
  PrimFloat.leb
    (score_confidence (scoreCorrelation parent candidate parentContext httpCall)) 1
  = true.
Proof.
  unfold scoreCorrelation, webhookSignals. split_conditions; vm_compute; reflexivity.
Qed.

Lemma scoreSubWorkflow_at_most_1 execStart candidateStart userContext candidateContext :
  PrimFloat.leb
    (fst (scoreSubWorkflow execStart candidateStart userContext candidateContext)) 1
  = true.
Proof.
  unfold scoreSubWorkflow. split_conditions; vm_compute; reflexivity.
Qed.

End Scores.

(** * One rule for [expand]

    Whatever summary sequencing preserves and the requests and the two
    run-time errors satisfy is satisfied by the body of
    [findCorrelatedExecutions], once the accepting branch satisfies it for
    a listed candidate that is not visited and whose confidence is in
    range. *)
Section Expand.
Import Js N8nClient ExecutionCorrelator Logic Shape.
#[local] Open Scope js_scope.

Variable URL_pathname : string -> option string.
Variable client : DataSource.
Variable this : Instance.
Variables timeWindowMs maxDepth : Z.

Lemma findWorkflowByWebhook_error webhookUrl e :
  findWorkflowByWebhook URL_pathname this webhookUrl = inl e -> e = TypeError.
Proof.
  unfold findWorkflowByWebhook, webhookPath.
  destruct (URL_pathname (to_string webhookUrl)); [discriminate|].
  destruct webhookUrl; intros [= <-]; reflexivity.
Qed.

Lemma findCorrelatedExecutions_S fuel execution p d s :
  findCorrelatedExecutions URL_pathname client this timeWindowMs maxDepth
    (S fuel) execution p d s =
  let '(o, s', t) :=
    (if d >=? maxDepth then ret tt
     else expand URL_pathname client this timeWindowMs
            (findCorrelatedExecutions URL_pathname client this timeWindowMs
               maxDepth fuel) execution p d) s in
  (o, s', Entered p d :: t).
Proof. reflexivity. Qed.

Lemma expand_satisfies (R : Summary Search) `{!Composable R} recurse execution p d :
  (forall A (r : Request) (answer : Error + A), satisfies R (request r answer)) ->
  (forall e, e = RangeError \/ e = TypeError -> satisfies R (@throw Search unit e)) ->
  (forall workflowId' limit candidates c cf m,
      listExecutions client workflowId' limit = inr candidates -> c ∈ candidates ->
      bounded cf ->
      forall s, id c ∉ visited s ->
      let run := accept recurse c p cf m d s in
      R s (erase (outcome run)) (final run) (trace run)) ->
  satisfies R (expand URL_pathname client this timeWindowMs recurse execution p d).
Proof.
  intros Hreq Hthrow Haccept.
  assert (HtoISO : forall t, satisfies R (toISOString t)).
  { intros t. unfold toISOString. destruct (valid_time t).
    - by apply satisfies_ret.
    - apply Hthrow. by left. }
  assert (Hlist : forall workflowId' limit (body : N8nExecution -> M Search unit),
             (forall candidates c,
                 listExecutions client workflowId' limit = inr candidates ->
                 c ∈ candidates -> satisfies R (body c)) ->
             satisfies R
               (candidates <- request (ListExecutions workflowId' limit)
                                (listExecutions client workflowId' limit) ;;
                for_of candidates body)).
  { intros wid limit body Hbody s. unfold bind, request.
    destruct (listExecutions client wid limit) as [e|candidates] eqn:E.
    - exact (Hreq (list N8nExecution) (ListExecutions wid limit) (inl e) s).
    - pose proof (Hreq (list N8nExecution) (ListExecutions wid limit)
                    (inr candidates) s) as H1.
      pose proof (satisfies_for_of R candidates body
                    (fun c Hc => Hbody candidates c eq_refl Hc) s) as H2.
      destruct (for_of candidates body s) as [[o s2] t2].
      eapply comp_seq; [exact H1|exact H2]. }
  unfold expand.
  apply satisfies_bind; [apply _|apply HtoISO|]. intros _.
  apply satisfies_bind; [apply _|apply HtoISO|]. intros _.
  apply satisfies_bind; [apply _| |].
  - apply satisfies_for_of; [apply _|]. intros httpCall _. unfold webhookCall.
    destruct (findWorkflowByWebhook _ _ _) as [e|[mapping|]] eqn:E.
    + apply Hthrow. right. by apply findWorkflowByWebhook_error in E.
    + apply Hlist. intros candidates c Hl Hc s.
      unfold webhookCandidate, bind, get.
      destruct (bool_decide (id c ∈ visited s)) eqn:Hv; [apply comp_ret|].
      apply bool_decide_eq_false in Hv.
      destruct (_ || _); [apply comp_ret|].
      destruct (PrimFloat.ltb 0.5 _) eqn:Hgt; [|apply comp_ret].
      match goal with
      | |- context [accept recurse c p ?cf ?m d s] =>
          assert (Hb : bounded cf)
            by (split; [exact Hgt|
                        apply (scoreCorrelation_at_most_1 execution c
                                 (extractUserContext execution) httpCall)]);
          pose proof (Haccept _ _ _ c cf m Hl Hc Hb s Hv) as H
      end.
      simpl in H. destruct (accept _ _ _ _ _ _ s) as [[o s1] t1]. exact H.
    + by apply satisfies_ret.
  - intros _. apply satisfies_for_of; [apply _|]. intros wid _. unfold subWorkflow.
    destruct (String.eqb _ _); [by apply satisfies_ret|].
    apply Hlist. intros candidates c Hl Hc s.
    unfold subWorkflowCandidate, bind, get.
    destruct (bool_decide (id c ∈ visited s)) eqn:Hv; [apply comp_ret|].
    apply bool_decide_eq_false in Hv.
    destruct (_ || _); [apply comp_ret|].
    pose proof (scoreSubWorkflow_at_most_1 (startedAt execution) (startedAt c)
                  (extractUserContext execution) (extractUserContext c)) as Hle.
    destruct (scoreSubWorkflow _ _ _ _) as [cf methods]. simpl in Hle.
    destruct (PrimFloat.ltb 0.5 cf) eqn:Hgt; [|apply comp_ret].
    pose proof (Haccept _ _ _ c cf (join "+" methods) Hl Hc (conj Hgt Hle) s Hv) as H.
    simpl in H. destruct (accept _ _ _ _ _ _ s) as [[o s1] t1]. exact H.
Qed.

(** The same for any summary that the accepting branch satisfies
    through sequencing alone. *)
Lemma findCorrelatedExecutions_satisfies (R : Summary Search) `{!Composable R} :
  (forall A (r : Request) (answer : Error + A), satisfies R (request r answer)) ->
  (forall e, e = RangeError \/ e = TypeError -> satisfies R (@throw Search unit e)) ->
  (forall f, satisfies R (modify f)) ->
  (forall k d, satisfies R (emit (Entered k d))) ->
  satisfies R (@out_of_fuel Search unit) ->
  forall fuel execution p d,
    satisfies R
      (findCorrelatedExecutions URL_pathname client this timeWindowMs maxDepth
         fuel execution p d).
Proof.
  intros Hreq Hthrow Hmod Hemit Hfuel.
  induction fuel as [|fuel IH]; intros execution p d; simpl.
  - apply satisfies_bind; [apply _|apply Hemit|]. intros _. exact Hfuel.
  - apply satisfies_bind; [apply _|apply Hemit|]. intros _.
    destruct (d >=? maxDepth); [by apply satisfies_ret|].
    apply expand_satisfies; [apply _|exact Hreq|exact Hthrow|].
    intros wid limit candidates c cf m _ _ _ s _.
    exact (satisfies_bind R _ _ (Hmod _) (fun _ => IH c (id c) (d + 1)) s).
Qed.

End Expand.

(** * Facts about [Grows] *)
Section GrowsFacts.
Import Js N8nClient ExecutionCorrelator Logic Shape.
Variable maxDepth : Z.

Lemma Grows_trans p d s ks1 s1 ks2 s2 :
  Grows maxDepth p d s ks1 s1 -> Grows maxDepth p d s1 ks2 s2 ->
  Grows maxDepth p d s (ks1 ++ ks2) s2.
Proof.
  induction 1 as [|p d s r ka sa kb sb Hd Hp Hv Hc H1 _ H2 IH]; intros H3; simpl.
  - exact H3.
  - rewrite <- app_assoc. eapply Grows_accept; eauto.
Qed.

(** What a growth adds: the new results, in order, carry the entered keys;
    the keys are fresh and pairwise distinct; [visited] gains exactly
    them; the confidences are in range. *)
Lemma Grows_ids p d s ks s' :
  Grows maxDepth p d s ks s' ->
  exists added,
    results s' = results s ++ added /\ ids added = ks /\
    visited s' = list_to_set ks ∪ visited s /\
    NoDup ks /\ (forall k, k ∈ ks -> k ∉ visited s) /\
    Forall (fun r => bounded (confidence r)) added.
Proof.
  induction 1 as [p d s|p d s r ka sa kb sb Hd Hp Hv Hc H1 IH1 H2 IH2].
  - exists []. rewrite app_nil_r. repeat split; try constructor.
    + set_solver.
    + set_solver.
  - destruct IH1 as (a1 & Hr1 & Hi1 & Hv1 & Hn1 & Hf1 & Hb1).
    destruct IH2 as (a2 & Hr2 & Hi2 & Hv2 & Hn2 & Hf2 & Hb2).
    exists (r :: a1 ++ a2). simpl in *.
    assert (Hfa : forall k, k ∈ ka -> k <> id (execution r) /\ (k ∉ visited s)).
    { intros k Hk. pose proof (Hf1 k Hk) as Hk1. set_solver. }
    assert (Hfb : forall k, k ∈ kb ->
               k <> id (execution r) /\ (k ∉ ka) /\ (k ∉ visited s)).
    { intros k Hk. pose proof (Hf2 k Hk) as Hk2. rewrite Hv1 in Hk2.
      set_solver. }
    split; [|split; [|split; [|split; [|split]]]].
    + rewrite Hr2, Hr1. rewrite <- !app_assoc. reflexivity.
    + unfold ids in *. simpl. rewrite fmap_app. congruence.
    + rewrite Hv2, Hv1. set_solver.
    + constructor.
      * rewrite elem_of_app. intros [Hk|Hk].
        -- destruct (Hfa _ Hk). congruence.
        -- destruct (Hfb _ Hk). congruence.
      * apply NoDup_app. split; [done|]. split; [|done].
        intros k Hk Hk'. destruct (Hfb _ Hk') as (_ & ? & _). done.
    + intros k Hk. apply elem_of_cons in Hk as [->|Hk]; [done|].
      apply elem_of_app in Hk as [Hk|Hk].
      * by destruct (Hfa _ Hk).
      * by destruct (Hfb _ Hk) as (_ & _ & ?).
    + constructor; [done|]. apply Forall_app. done.
Qed.

#[global] Instance level_composable p d : Composable (level maxDepth p d).
Proof.
  split.
  - intros s. apply Grows_nil.
  - intros s s1 s2 t1 t2 o H1 H2. unfold level in *.
    rewrite enters_app. eapply Grows_trans; eauto.
Qed.

End GrowsFacts.

(** * Every run of the search has the shape [Grows]: C1 *)
Section SearchShape.
Import Js N8nClient ExecutionCorrelator Logic Shape.
#[local] Open Scope js_scope.

Variable URL_pathname : string -> option string.
Variable client : DataSource.

Lemma findCorrelatedExecutions_shape this timeWindowMs maxDepth fuel :
  forall execution p d,
    satisfies (call maxDepth p d)
      (findCorrelatedExecutions URL_pathname client this timeWindowMs maxDepth
         fuel execution p d).
Proof.
  induction fuel as [|fuel IH]; intros execution p d s.
  - exists []. split; [reflexivity|apply Grows_nil].
  - rewrite findCorrelatedExecutions_S.
    destruct (d >=? maxDepth) eqn:Hd.
    + exists []. split; [reflexivity|apply Grows_nil].
    + assert (d < maxDepth) as Hlt by lia.
      pose proof (expand_satisfies URL_pathname client this timeWindowMs
                    (level maxDepth p d)
                    (findCorrelatedExecutions URL_pathname client this timeWindowMs
                       maxDepth fuel) execution p d) as H.
      match type of H with
      | ?A -> ?B -> ?C -> _ => assert (HA : A); [|assert (HB : B); [|assert (HC : C)]]
      end.
      * intros A r answer s'. unfold request. destruct answer; apply Grows_nil.
      * intros e _ s'. apply Grows_nil.
      * intros wid limit candidates c cf m _ _ Hb s' Hv. unfold accept, bind, modify.
        set (r := {| execution := c; parentId := p; confidence := cf; method := m |}).
        pose proof (IH c (id c) (d + 1) (record r s')) as Hr.
        destruct (findCorrelatedExecutions _ _ _ _ _ _ _ _ _ _) as [[o s1] t1].
        destruct Hr as (ks & Hks & Hg). unfold level, outcome, final, trace in *.
        simpl in *. rewrite Hks, <- (app_nil_r ks).
        apply (Grows_accept maxDepth p d s' r ks s1 [] s1); auto.
        apply Grows_nil.
      * specialize (H HA HB HC s).
        destruct (expand _ _ _ _ _ _ _ _ s) as [[o s1] t1].
        exists (enters t1). split; [reflexivity|exact H].
Qed.

#[global] Instance quiet_composable {S} : Composable (@quiet S).
Proof.
  split; [reflexivity|]. unfold quiet. intros s s1 s2 t1 t2 o H1 H2.
  by rewrite enters_app, H1, H2.
Qed.

Lemma quiet_request {S A} (r : Request) (answer : Error + A) :
  satisfies (@quiet S) (request r answer).
Proof. intros s. unfold request. by destruct answer. Qed.

Lemma quiet_modify {S} (f : S -> S) : satisfies quiet (modify f).
Proof. by intros s. Qed.

(** Any summary that the requests and the updates of the instance satisfy
    is satisfied by [initialize]. *)
Lemma initialize_satisfies (R : Summary Instance) `{!Composable R} :
  (forall A (r : Request) (answer : Error + A), satisfies R (request r answer)) ->
  (forall f, satisfies R (modify f)) ->
  satisfies R (initialize client).
Proof.
  intros Hreq Hmod. unfold initialize.
  apply satisfies_bind; [apply _|apply Hreq|]. intros workflows.
  apply satisfies_for_of; [apply _|]. intros wf _.
  apply satisfies_bind; [apply _|apply Hreq|]. intros full.
  apply satisfies_bind; [apply _|apply Hmod|]. intros _.
  apply satisfies_for_of; [apply _|]. intros path _. apply Hmod.
Qed.

Lemma search_Ret_inv fuel rootExecutionId options this final this' t :
  search URL_pathname client fuel rootExecutionId options this = (Ret final, this', t) ->
  exists rootExecution t0 t1,
    getExecution client rootExecutionId = inr rootExecution /\
    enters t0 = [] /\
    t = t0 ++ t1 /\
    findCorrelatedExecutions URL_pathname client this'
      (default 30000 (opt_timeWindowMs options)) (default 5 (opt_maxDepth options))
      fuel rootExecution rootExecutionId 0 (freshSearch rootExecutionId)
    = (Ret tt, final, t1).
Proof.
  unfold search. intros H.
  apply bind_Ret_inv in H as (this0 & s0 & ta & tb & Hget & H & ->).
  injection Hget as <- <- <-.
  apply bind_Ret_inv in H as ([] & this1 & tc & td & Hinit & H & ->).
  apply bind_Ret_inv in H as (rootExecution & this2 & te & tf & Hreq & H & ->).
  unfold request in Hreq.
  destruct (getExecution client rootExecutionId) as [e|ex] eqn:Hroot; [discriminate|].
  injection Hreq as -> <- <-.
  unfold withSearch in H.
  destruct (findCorrelatedExecutions _ _ _ _ _ _ _ _ _ _) as [[[[]|e|] s1] t1] eqn:Hrun;
    try discriminate.
  injection H as -> -> <-.
  exists rootExecution, (tc ++ [Called (GetExecution rootExecutionId) None]), t1.
  split; [reflexivity|]. split; [|split].
  - rewrite enters_app. simpl. rewrite app_nil_r.
    destruct (length (webhookMappings this) =? 0)%nat.
    + pose proof (initialize_satisfies quiet (@quiet_request _) quiet_modify this) as Hq.
      rewrite Hinit in Hq. exact Hq.
    + by injection Hinit as <- <-.
  - simpl. by rewrite <- app_assoc.
  - exact Hrun.
Qed.

Lemma correlateExecutions_search fuel rootExecutionId options this :
  correlateExecutions URL_pathname client fuel rootExecutionId options this =
  match search URL_pathname client fuel rootExecutionId options this with
  | (Ret final, this', t) => (Ret (results final), this', t)
  | (Throw e, this', t) => (Throw e, this', t)
  | (OutOfFuel, this', t) => (OutOfFuel, this', t)
  end.
Proof.
  unfold correlateExecutions, bind at 1.
  destruct (search _ _ _ _ _ _) as [[[final|e|] this'] t]; try reflexivity.
  simpl. by rewrite app_nil_r.
Qed.

Lemma correlateExecutions_Ret_inv fuel rootExecutionId options this rs this' t :
  correlateExecutions URL_pathname client fuel rootExecutionId options this
    = (Ret rs, this', t) ->
  exists final,
    search URL_pathname client fuel rootExecutionId options this = (Ret final, this', t)
    /\ rs = results final.
Proof.
  rewrite correlateExecutions_search.
  destruct (search _ _ _ _ _ _) as [[[final|e|] i] t']; try discriminate.
  intros [= <- <- <-]. by exists final.
Qed.

(** The shape of a completed search. *)
Lemma search_shape fuel rootExecutionId options this final this' t :
  search URL_pathname client fuel rootExecutionId options this = (Ret final, this', t) ->
  exists ks,
    enters t = rootExecutionId :: ks /\
    Grows (default 5 (opt_maxDepth options)) rootExecutionId 0
      (freshSearch rootExecutionId) ks final.
Proof.
  intros H. apply search_Ret_inv in H as (ex & t0 & t1 & _ & Ht0 & -> & Hrun).
  pose proof (findCorrelatedExecutions_shape this'
                (default 30000 (opt_timeWindowMs options))
                (default 5 (opt_maxDepth options)) fuel ex rootExecutionId 0
                (freshSearch rootExecutionId)) as Hs.
  rewrite Hrun in Hs. destruct Hs as (ks & Hks & Hg).
  exists ks. split; [|exact Hg].
  rewrite enters_app, Ht0. exact Hks.
Qed.

(** The results of a completed run are what a growth from the fresh search
    state added. *)
Lemma correlateExecutions_shape fuel rootExecutionId options this rs this' t :
  correlateExecutions URL_pathname client fuel rootExecutionId options this
    = (Ret rs, this', t) ->
  exists final,
    results final = rs /\
    Grows (default 5 (opt_maxDepth options)) rootExecutionId 0
      (freshSearch rootExecutionId) (ids rs) final.
Proof.
  intros H. apply correlateExecutions_Ret_inv in H as (final & H & ->).
  apply search_shape in H as (ks & _ & Hg).
  exists final. split; [reflexivity|].
  destruct (Grows_ids _ _ _ _ _ _ Hg) as (added & Hres & Hids & _).
  simpl in Hres. subst added. by rewrite Hids.
Qed.

Lemma completed_search_ids fuel rootExecutionId options this this' final t :
  search URL_pathname client fuel rootExecutionId options this = (Ret final, this', t) ->
  NoDup (ids (results final)) /\
  (rootExecutionId ∉ ids (results final)) /\
  visited final = {[ rootExecutionId ]} ∪ list_to_set (ids (results final)) /\
  enters t = rootExecutionId :: ids (results final).
Proof.
  intros H. apply search_shape in H as (ks & Hks & Hg).
  apply Grows_ids in Hg as (added & Hres & Hids & Hvis & Hnd & Hfresh & _).
  simpl in Hres. subst added.
  assert (Hroot : rootExecutionId ∉ ks).
  { intros Hin. apply (Hfresh _ Hin). simpl. set_solver. }
  rewrite Hids, Hks.
  split; [exact Hnd|]. split; [exact Hroot|].
  split; [rewrite Hvis; simpl; set_solver|reflexivity].
Qed.

(** C1.  For every completed search: no execution id occurs in two
    Correlation Results and none is the root id; the visited-set at
    completion is the root id together with exactly the ids of the returned
    results, one entry for each; and [findCorrelatedExecutions] was entered
    once for the root and once for each result, in the order of the
    results, never twice for the same execution. *)
Theorem visited_set_is_root_plus_results
    (fuel : nat) (rootExecutionId : string) (options : Options)
    (this this' : Instance) (final : Search) (t : list Event) :
  search URL_pathname client fuel rootExecutionId options this = (Ret final, this', t) ->
  correlateExecutions URL_pathname client fuel rootExecutionId options this
    = (Ret (results final), this', t) /\
  NoDup (ids (results final)) /\
  (rootExecutionId ∉ ids (results final)) /\
  visited final = {[ rootExecutionId ]} ∪ list_to_set (ids (results final)) /\
  size (visited final) = S (length (results final)) /\
  enters t = rootExecutionId :: ids (results final) /\
  NoDup (enters t).
Proof.
  intros H.
  destruct (completed_search_ids _ _ _ _ _ _ _ H) as (Hnd & Hroot & Hvis & Hent).
  split; [rewrite correlateExecutions_search; by rewrite H|].
  split; [exact Hnd|]. split; [exact Hroot|]. split; [exact Hvis|].
  split; [|split; [exact Hent|rewrite Hent; by constructor]].
  rewrite Hvis, size_union by set_solver.
  rewrite size_singleton, size_list_to_set by done.
  unfold ids. rewrite length_fmap. lia.
Qed.

End SearchShape.

Lemma visited_set_witness :
  ExecutionCorrelator.search Scenario.pathname Scenario.mutualSource 6 "a1"
    Scenario.defaults ExecutionCorrelator.newInstance
  = (ExecutionCorrelator.Ret
       {| ExecutionCorrelator.results := Scenario.mutualResults;
          ExecutionCorrelator.visited := Scenario.mutualUniverse |},
     Scenario.mutualIndex, Scenario.mutualTrace) /\
  NoDup (Shape.ids Scenario.mutualResults) /\
  ("a1" ∉ Shape.ids Scenario.mutualResults) /\
  size Scenario.mutualUniverse = 4%nat /\
  Logic.enters Scenario.mutualTrace = "a1" :: Shape.ids Scenario.mutualResults.
Proof.
  assert (H : ExecutionCorrelator.search Scenario.pathname Scenario.mutualSource 6 "a1"
                Scenario.defaults ExecutionCorrelator.newInstance
              = (ExecutionCorrelator.Ret
                   {| ExecutionCorrelator.results := Scenario.mutualResults;
                      ExecutionCorrelator.visited := Scenario.mutualUniverse |},
                 Scenario.mutualIndex, Scenario.mutualTrace))
    by (vm_compute; reflexivity).
  destruct (visited_set_is_root_plus_results Scenario.pathname Scenario.mutualSource
              _ _ _ _ _ _ _ H) as (_ & Hnd & Hroot & _ & Hsize & Hent & _).
  split; [exact H|]. split; [exact Hnd|]. split; [exact Hroot|].
  split; [exact Hsize|exact Hent].
Defined.

(** * Chains of accepted correlations *)
Section Chains.
Import Js N8nClient ExecutionCorrelator Logic Shape.

Variable maxDepth : Z.
Variable root : string.

Lemma chain_mono rs rs' k n :
  (forall r, r ∈ rs -> r ∈ rs') -> chain root rs k n -> chain root rs' k n.
Proof.
  intros Hsub. induction 1 as [|r n Hr _ IH]; [constructor|].
  apply chain_step; auto.
Qed.

Lemma Grows_shallow p d s ks s' :
  Grows maxDepth p d s ks s' ->
  0 <= d -> chain root (results s) p d -> shallow maxDepth root (results s) ->
  shallow maxDepth root (results s').
Proof.
  induction 1 as [|p d s r ka sa kb sb Hd Hp Hv Hc H1 IH1 H2 IH2];
    intros Hd0 Hchain Hsh; [exact Hsh|].
  assert (Hsub : forall x, x ∈ results s -> x ∈ results (record r s)).
  { intros x Hx. simpl. apply elem_of_app. by left. }
  assert (Hr : r ∈ results (record r s)).
  { simpl. apply elem_of_app. right. apply list_elem_of_singleton. reflexivity. }
  assert (Hchain' : chain root (results (record r s)) p d).
  { eapply chain_mono; eauto. }
  destruct (Grows_ids _ _ _ _ _ _ H1) as (added & Hres & _).
  apply IH2; [exact Hd0| |].
  - eapply chain_mono; [|exact Hchain'].
    intros x Hx. rewrite Hres. apply elem_of_app. by left.
  - apply IH1; [lia| |].
    + apply chain_step; [exact Hr|]. by rewrite Hp.
    + intros x Hx. simpl in Hx. apply elem_of_app in Hx as [Hx|Hx].
      * destruct (Hsh x Hx) as (n & Hn & Hcn). exists n. split; [exact Hn|].
        eapply chain_mono; eauto.
      * apply list_elem_of_singleton in Hx as ->. exists d. rewrite Hp.
        split; [lia|exact Hchain'].
Qed.

Lemma ids_injective rs r r' :
  NoDup (ids rs) -> r ∈ rs -> r' ∈ rs ->
  id (execution r) = id (execution r') -> r = r'.
Proof.
  induction rs as [|x rs IH]; simpl; intros Hnd Hr Hr' Heq.
  - by apply elem_of_nil in Hr.
  - apply NoDup_cons in Hnd as [Hx Hnd].
    assert (Hin : forall y, y ∈ rs -> id (execution y) ∈ ids rs).
    { intros y Hy. unfold ids. by apply (list_elem_of_fmap_2 (fun r => id (execution r))). }
    apply elem_of_cons in Hr as [->|Hr]; apply elem_of_cons in Hr' as [->|Hr'].
    + reflexivity.
    + exfalso. apply Hx. rewrite Heq. by apply Hin.
    + exfalso. apply Hx. rewrite <- Heq. by apply Hin.
    + by apply IH.
Qed.

Lemma chain_unique rs k n m :
  NoDup (ids rs) -> root ∉ ids rs ->
  chain root rs k n -> chain root rs k m -> n = m.
Proof.
  intros Hnd Hroot Hn. revert m.
  assert (Hin : forall y, y ∈ rs -> id (execution y) ∈ ids rs).
  { intros y Hy. unfold ids. by apply (list_elem_of_fmap_2 (fun r => id (execution r))). }
  induction Hn as [|r n Hr Hn IH]; intros m Hm.
  - inversion Hm as [|r' n' Hr' Hn' Hk]; [reflexivity|].
    exfalso. apply Hroot. rewrite <- Hk. by apply Hin.
  - inversion Hm as [Hk|r' n' Hr' Hn' Hk].
    + exfalso. apply Hroot. rewrite Hk. by apply Hin.
    + assert (r' = r) as -> by (by apply (ids_injective rs)).
      by rewrite (IH n' Hn').
Qed.

(** In a set of results whose ids are distinct, none the root, and whose
    parents all sit above [maxDepth], no chain is longer than
    [maxDepth]. *)
Lemma shallow_chain rs k n :
  0 <= maxDepth -> NoDup (ids rs) -> root ∉ ids rs -> shallow maxDepth root rs ->
  chain root rs k n -> n <= maxDepth.
Proof.
  intros Hmd Hnd Hroot Hsh. destruct 1 as [|r n Hr Hn]; [exact Hmd|].
  destruct (Hsh r Hr) as (n' & Hn' & Hc).
  assert (n = n') as -> by (by apply (chain_unique rs (parentId r))).
  lia.
Qed.

End Chains.

(** * The depth bound: C5 *)
Section DepthBound.
Import Js N8nClient ExecutionCorrelator Logic Shape.

(** C5.  With [maxDepth >= 0]: a call of [findCorrelatedExecutions] at a
    depth [>= maxDepth] returns at once, touching neither [results] nor
    [visited]; every returned result was produced below a parent that sits
    at a depth [< maxDepth] of the parent-child chains; hence no chain of
    accepted correlations is longer than [maxDepth]; and with
    [maxDepth = 0] the returned list is empty. *)
Theorem chains_no_longer_than_maxDepth
    (URL_pathname : string -> option string) (client : DataSource)
    (fuel : nat) (rootExecutionId : string) (options : Options)
    (this this' : Instance) (rs : list CorrelationResult) (t : list Event) :
  0 <= default 5 (opt_maxDepth options) ->
  correlateExecutions URL_pathname client fuel rootExecutionId options this
    = (Ret rs, this', t) ->
  (forall this1 timeWindowMs fuel1 execution p d s,
      default 5 (opt_maxDepth options) <= d ->
      findCorrelatedExecutions URL_pathname client this1 timeWindowMs
        (default 5 (opt_maxDepth options)) (S fuel1) execution p d s
      = (Ret tt, s, [Entered p d])) /\
  (forall r, r ∈ rs ->
     exists n, 0 <= n < default 5 (opt_maxDepth options) /\
               chain rootExecutionId rs (parentId r) n) /\
  (forall k n, chain rootExecutionId rs k n -> n <= default 5 (opt_maxDepth options)) /\
  (default 5 (opt_maxDepth options) = 0 -> rs = []).
Proof.
  intros Hmd Hrun.
  assert (Hsh : shallow (default 5 (opt_maxDepth options)) rootExecutionId rs).
  { destruct (correlateExecutions_shape _ _ _ _ _ _ _ _ _ Hrun) as (final & <- & Hg).
    eapply Grows_shallow; [exact Hg|lia|constructor|].
    intros r Hr. simpl in Hr. by apply elem_of_nil in Hr. }
  split; [|split; [exact Hsh|split]].
  - intros this1 tw fuel1 execution p d s Hd.
    rewrite findCorrelatedExecutions_S.
    destruct (d >=? default 5 (opt_maxDepth options)) eqn:E; [reflexivity|lia].
  - intros k n Hc.
    apply correlateExecutions_Ret_inv in Hrun as (final & Hrun & ->).
    destruct (completed_search_ids _ _ _ _ _ _ _ _ _ Hrun) as (Hnd & Hroot & _).
    eapply shallow_chain; eauto.
  - intros H0. destruct rs as [|r rs']; [reflexivity|].
    destruct (Hsh r) as (n & Hn & _); [left|lia].
Qed.

End DepthBound.

Lemma chains_witness :
  let run := ExecutionCorrelator.correlateExecutions Scenario.pathname
               Scenario.mutualSource 6 "a1" Scenario.depth2
               ExecutionCorrelator.newInstance in
  (0 <= 2 /\
   run = (ExecutionCorrelator.Ret Scenario.mutualResultsDepth2,
          Scenario.mutualIndex, Logic.trace run)) /\
  (forall k n, Shape.chain "a1" Scenario.mutualResultsDepth2 k n -> n <= 2).
Proof.
  assert (H0 : 0 <= default 5 (ExecutionCorrelator.opt_maxDepth Scenario.depth2))
    by (simpl; lia).
  assert (H : ExecutionCorrelator.correlateExecutions Scenario.pathname
                Scenario.mutualSource 6 "a1" Scenario.depth2
                ExecutionCorrelator.newInstance
              = (ExecutionCorrelator.Ret Scenario.mutualResultsDepth2,
                 Scenario.mutualIndex,
                 Logic.trace
                   (ExecutionCorrelator.correlateExecutions Scenario.pathname
                      Scenario.mutualSource 6 "a1" Scenario.depth2
                      ExecutionCorrelator.newInstance)))
    by (vm_compute; reflexivity).
  split; [split; [lia|exact H]|].
  exact (proj1 (proj2 (proj2
           (chains_no_longer_than_maxDepth Scenario.pathname Scenario.mutualSource
              _ _ _ _ _ _ _ H0 H)))).
Defined.

(** * The acceptance threshold: C2 *)
Section Threshold.
Import Js N8nClient ExecutionCorrelator Logic Shape.
#[local] Open Scope js_scope.

Variable URL_pathname : string -> option string.
Variable client : DataSource.
Variable this : Instance.
Variables timeWindowMs maxDepth : Z.
Variable fuel : nat.

Lemma accept_accepted candidate p c m d s :
  accepted (accept (findCorrelatedExecutions URL_pathname client this timeWindowMs
                     maxDepth fuel) candidate p c m d s) s
    {| execution := candidate; parentId := p; confidence := c; method := m |}.
Proof.
  unfold accept, bind, modify.
  set (r := {| execution := candidate; parentId := p; confidence := c; method := m |}).
  pose proof (findCorrelatedExecutions_shape URL_pathname client this timeWindowMs
                maxDepth fuel candidate (id candidate) (d + 1) (record r s)) as H.
  destruct (findCorrelatedExecutions _ _ _ _ _ _ _ _ _ _) as [[o s1] t].
  destruct H as (ks & Hks & Hg).
  destruct (Grows_ids _ _ _ _ _ _ Hg) as (added & Hres & _ & Hvis & _).
  exists added, ks. unfold final, trace in *. simpl in *.
  split; [by rewrite Hres, <- app_assoc|]. split; [exact Hks|].
  rewrite Hvis. set_solver.
Qed.

Lemma webhookCandidate_threshold execution p d execStart userContext httpCall candidate s :
  id candidate ∉ visited s ->
  num_lt (startedAt candidate) (num_sub execStart 1000)
    || num_gt (startedAt candidate) (num_add execStart timeWindowMs) = false ->
  let sum := webhookSignals candidate userContext httpCall in
  let c := Math_min (fst sum) 1 in
  let run := webhookCandidate timeWindowMs
               (findCorrelatedExecutions URL_pathname client this timeWindowMs
                  maxDepth fuel) execution p d execStart
               userContext httpCall candidate s in
  (PrimFloat.ltb 0.5 c = true ->
   accepted run s {| execution := candidate; parentId := p; confidence := c;
                     method := join "+" (snd sum) |}) /\
  (PrimFloat.ltb 0.5 c = false -> skipped run s).
Proof.
  intros Hv Hw sum c run. subst run. unfold webhookCandidate, bind, get.
  rewrite bool_decide_eq_false_2 by exact Hv. rewrite Hw.
  unfold scoreCorrelation. fold sum. destruct sum as [x methods]. simpl in c.
  cbn [score_confidence score_method fst snd]. fold c.
  split; intros Hc; rewrite Hc.
  - pose proof (accept_accepted candidate p c (join "+" methods) d s) as H.
    destruct (accept _ _ _ _ _ _ s) as [[o s1] t]. exact H.
  - reflexivity.
Qed.

Lemma subWorkflowCandidate_threshold p d execStart userContext candidate s :
  id candidate ∉ visited s ->
  num_lt (startedAt candidate) execStart
    || num_gt (startedAt candidate) (num_add execStart timeWindowMs) = false ->
  let sum := scoreSubWorkflow execStart (startedAt candidate) userContext
               (extractUserContext candidate) in
  let run := subWorkflowCandidate timeWindowMs
               (findCorrelatedExecutions URL_pathname client this timeWindowMs
                  maxDepth fuel) p d execStart
               userContext candidate s in
  (PrimFloat.ltb 0.5 (fst sum) = true ->
   accepted run s {| execution := candidate; parentId := p; confidence := fst sum;
                     method := join "+" (snd sum) |}) /\
  (PrimFloat.ltb 0.5 (fst sum) = false -> skipped run s).
Proof.
  intros Hv Hw sum run. subst run. unfold subWorkflowCandidate, bind, get.
  rewrite bool_decide_eq_false_2 by exact Hv. rewrite Hw.
  fold sum. destruct sum as [c methods]. cbn [fst snd].
  split; intros Hc; rewrite Hc.
  - pose proof (accept_accepted candidate p c (join "+" methods) d s) as H.
    destruct (accept _ _ _ _ _ _ s) as [[o s1] t]. exact H.
  - reflexivity.
Qed.

End Threshold.

Section ConfidenceRange.
Import Js N8nClient ExecutionCorrelator Logic Shape.

(** C2.  Every result that [correlateExecutions] returns has a confidence
    strictly above 0.5 and at most 1.0.  The webhook scorer yields the sum
    clamped by [Math.min(sum, 1.0)], and a candidate of the webhook pass
    that is neither visited nor outside the window is recorded and recursed
    into exactly when that clamped value exceeds 0.5; a candidate of the
    sub-workflow pass, exactly when the unclamped sum exceeds 0.5. *)
Theorem accepted_confidence_in_range
    (URL_pathname : string -> option string) (client : DataSource)
    (fuel : nat) (rootExecutionId : string) (options : Options)
    (this this' : Instance) (rs : list CorrelationResult) (t : list Event)
    (r : CorrelationResult) :
  correlateExecutions URL_pathname client fuel rootExecutionId options this
    = (Ret rs, this', t) ->
  r ∈ rs ->
  (PrimFloat.ltb 0.5 (confidence r) = true /\ PrimFloat.leb (confidence r) 1 = true) /\
  (forall parent candidate parentContext httpCall,
      score_confidence (scoreCorrelation parent candidate parentContext httpCall)
      = Math_min (fst (webhookSignals candidate parentContext httpCall)) 1) /\
  (forall this1 timeWindowMs maxDepth fuel1 execution p d execStart userContext
          httpCall candidate s,
      id candidate ∉ visited s ->
      num_lt (startedAt candidate) (num_sub execStart 1000)
        || num_gt (startedAt candidate) (num_add execStart timeWindowMs) = false ->
      let sum := webhookSignals candidate userContext httpCall in
      let c := Math_min (fst sum) 1 in
      let run :=
        webhookCandidate timeWindowMs
          (findCorrelatedExecutions URL_pathname client this1 timeWindowMs maxDepth fuel1)
          execution p d execStart userContext httpCall candidate s in
      (PrimFloat.ltb 0.5 c = true ->
       accepted run s {| execution := candidate; parentId := p; confidence := c;
                         method := join "+" (snd sum) |}) /\
      (PrimFloat.ltb 0.5 c = false -> skipped run s)) /\
  (forall this1 timeWindowMs maxDepth fuel1 p d execStart userContext candidate s,
      id candidate ∉ visited s ->
      num_lt (startedAt candidate) execStart
        || num_gt (startedAt candidate) (num_add execStart timeWindowMs) = false ->
      let sum := scoreSubWorkflow execStart (startedAt candidate) userContext
                   (extractUserContext candidate) in
      let run :=
        subWorkflowCandidate timeWindowMs
          (findCorrelatedExecutions URL_pathname client this1 timeWindowMs maxDepth fuel1)
          p d execStart userContext candidate s in
      (PrimFloat.ltb 0.5 (fst sum) = true ->
       accepted run s {| execution := candidate; parentId := p; confidence := fst sum;
                         method := join "+" (snd sum) |}) /\
      (PrimFloat.ltb 0.5 (fst sum) = false -> skipped run s)).
Proof.
  intros Hrun Hr. split; [|split; [|split]].
  - destruct (correlateExecutions_shape _ _ _ _ _ _ _ _ _ Hrun) as (final & <- & Hg).
    destruct (Grows_ids _ _ _ _ _ _ Hg) as (added & Hres & _ & _ & _ & _ & Hb).
    simpl in Hres. subst added.
    rewrite Forall_forall in Hb. exact (Hb r Hr).
  - intros parent candidate parentContext httpCall. unfold scoreCorrelation.
    by destruct (webhookSignals _ _ _).
  - intros. by apply webhookCandidate_threshold.
  - intros. by apply subWorkflowCandidate_threshold.
Qed.

End ConfidenceRange.

Lemma confidence_witness :
  let run := ExecutionCorrelator.correlateExecutions Scenario.pathname
               Scenario.webhookSource 6 "1001" Scenario.defaults
               ExecutionCorrelator.newInstance in
  (run = (ExecutionCorrelator.Ret [Scenario.agentResult], Scenario.webhookIndex,
          Scenario.webhookTrace) /\
   Scenario.agentResult ∈ [Scenario.agentResult]) /\
  PrimFloat.ltb 0.5 (ExecutionCorrelator.confidence Scenario.agentResult) = true /\
  PrimFloat.leb (ExecutionCorrelator.confidence Scenario.agentResult) 1 = true.
Proof.
  assert (H : ExecutionCorrelator.correlateExecutions Scenario.pathname
                Scenario.webhookSource 6 "1001" Scenario.defaults
                ExecutionCorrelator.newInstance
              = (ExecutionCorrelator.Ret [Scenario.agentResult], Scenario.webhookIndex,
                 Scenario.webhookTrace))
    by (vm_compute; reflexivity).
  assert (Hin : Scenario.agentResult ∈ [Scenario.agentResult]) by constructor.
  split; [split; [exact H|exact Hin]|].
  exact (proj1 (accepted_confidence_in_range Scenario.pathname Scenario.webhookSource
                  _ _ _ _ _ _ _ _ H Hin)).
Defined.

(** * The webhook scorer: C3 *)
Section WebhookScorer.
Import Js N8nClient ExecutionCorrelator ScorerSpec.

Lemma sameId_equalIds parent candidate :
  sameId parent candidate = equalIds parent candidate.
Proof.
  unfold sameId, equalIds. destruct parent as [p|]; [|reflexivity]. reflexivity.
Qed.

Lemma samePattern_agreeing parent candidate :
  samePattern parent candidate = agreeingResponseIds parent candidate.
Proof.
  unfold samePattern, agreeingResponseIds.
  destruct parent as [p|], candidate as [c|]; simpl; try reflexivity.
  by destruct (negb (String.eqb p "")).
Qed.

Lemma scoreCorrelation_spec parent candidate parentContext httpCall :
  scoreCorrelation parent candidate parentContext httpCall
  = score candidate parentContext httpCall.
Proof.
  unfold scoreCorrelation, webhookSignals, score, distance.
  rewrite !sameId_equalIds, samePattern_agreeing.
  generalize (equalIds (userId parentContext) (userId (extractUserContext candidate))).
  generalize (equalIds (chatId parentContext) (chatId (extractUserContext candidate))).
  generalize (equalIds (correlationId parentContext)
                (correlationId (extractUserContext candidate))).
  generalize (agreeingResponseIds (responseId parentContext)
                (responseId (extractUserContext candidate))).
  intros b4 b3 b2 b1.
  unfold num_below, num_abs_diff, num_lt, timestampBonus.
  destruct (startedAt candidate) as [start|].
  - generalize (Z.abs (start - call_timestamp httpCall)). intros ms.
    destruct (ms <? 500); [|destruct (ms <? 2000); [|destruct (ms <? 5000)]];
      destruct b1, b2, b3, b4; vm_compute; reflexivity.
  - destruct b1, b2, b3, b4; vm_compute; reflexivity.
Qed.

(** C3.  For every parent, candidate, parent context and HTTP
    call the webhook scorer returns the confidence
    [min(0.3 + timestamp bonus + identifier bonuses, 1.0)] and the
    ['+']-joined names of the contributing signals in evaluation order,
    the sum being the left-to-right binary64 sum.  For a candidate that
    starts 300 ms after the call timestamp and matches on the user id
    only, the method is ['webhook_url+timestamp_exact+user_id'] and the
    confidence is the double [0.3 + 0.3 + 0.3 = 0.8999999999999999], which
    is not the double [0.9]. *)
Theorem scoreCorrelation_formula
    (parent candidate : N8nExecution) (parentContext : UserContext)
    (httpCall : HttpCall) :
  scoreCorrelation parent candidate parentContext httpCall
    = score candidate parentContext httpCall /\
  (startedAt candidate = Some (call_timestamp httpCall + 300) ->
   equalIds (userId parentContext) (userId (extractUserContext candidate)) = true ->
   equalIds (chatId parentContext) (chatId (extractUserContext candidate)) = false ->
   equalIds (correlationId parentContext)
     (correlationId (extractUserContext candidate)) = false ->
   agreeingResponseIds (responseId parentContext)
     (responseId (extractUserContext candidate)) = false ->
   scoreCorrelation parent candidate parentContext httpCall
     = {| score_confidence := 0.8999999999999999%float;
          score_method := "webhook_url+timestamp_exact+user_id" |} /\
   PrimFloat.eqb
     (score_confidence (scoreCorrelation parent candidate parentContext httpCall))
     0.9%float = false).
Proof.
  split; [apply scoreCorrelation_spec|].
  intros Hstart Hu Hc Hco Hr. rewrite scoreCorrelation_spec.
  unfold score, distance. rewrite Hstart, Hu, Hc, Hco, Hr.
  replace (call_timestamp httpCall + 300 - call_timestamp httpCall) with 300 by lia.
  split; vm_compute; reflexivity.
Qed.

End WebhookScorer.

(** In the scenario of the specification the confidence is not the double
    [0.9]: [0.3 + 0.3] is [0.6], and [0.6 + 0.3] rounds to
    [0.8999999999999999]. *)
Lemma scenario_confidence_is_not_0_9 :
  N8nClient.startedAt Scenario.agentRun
    = Some (N8nClient.call_timestamp Scenario.agentHttpCall + 300) /\
  N8nClient.extractHttpCalls Scenario.orchestratorRun = [Scenario.agentHttpCall] /\
  N8nClient.userId (N8nClient.extractUserContext Scenario.orchestratorRun)
    = N8nClient.userId (N8nClient.extractUserContext Scenario.agentRun) /\
  ExecutionCorrelator.scoreCorrelation Scenario.orchestratorRun Scenario.agentRun
    (N8nClient.extractUserContext Scenario.orchestratorRun) Scenario.agentHttpCall
  = {| ExecutionCorrelator.score_confidence := (0.3 + 0.3 + 0.3)%float;
       ExecutionCorrelator.score_method := "webhook_url+timestamp_exact+user_id" |} /\
  ExecutionCorrelator.score_confidence
    (ExecutionCorrelator.scoreCorrelation Scenario.orchestratorRun Scenario.agentRun
       (N8nClient.extractUserContext Scenario.orchestratorRun) Scenario.agentHttpCall)
  <> 0.9%float.
Proof.
  repeat (split; [vm_compute; reflexivity|]).
  intros H.
  assert (Hneq : PrimFloat.eqb
                   (ExecutionCorrelator.score_confidence
                      (ExecutionCorrelator.scoreCorrelation Scenario.orchestratorRun
                         Scenario.agentRun
                         (N8nClient.extractUserContext Scenario.orchestratorRun)
                         Scenario.agentHttpCall)) 0.9%float = false)
    by (vm_compute; reflexivity).
  rewrite H in Hneq. vm_compute in Hneq. discriminate.
Qed.

Lemma scoreCorrelation_formula_witness :
  (N8nClient.startedAt Scenario.agentRun
     = Some (N8nClient.call_timestamp Scenario.agentHttpCall + 300) /\
   ScorerSpec.equalIds
     (N8nClient.userId (N8nClient.extractUserContext Scenario.orchestratorRun))
     (N8nClient.userId (N8nClient.extractUserContext Scenario.agentRun)) = true) /\
  ExecutionCorrelator.scoreCorrelation Scenario.orchestratorRun Scenario.agentRun
    (N8nClient.extractUserContext Scenario.orchestratorRun) Scenario.agentHttpCall
  = {| ExecutionCorrelator.score_confidence := 0.8999999999999999%float;
       ExecutionCorrelator.score_method := "webhook_url+timestamp_exact+user_id" |}.
Proof.
  assert (H1 : N8nClient.startedAt Scenario.agentRun
               = Some (N8nClient.call_timestamp Scenario.agentHttpCall + 300))
    by (vm_compute; reflexivity).
  assert (H2 : ScorerSpec.equalIds
                 (N8nClient.userId (N8nClient.extractUserContext Scenario.orchestratorRun))
                 (N8nClient.userId (N8nClient.extractUserContext Scenario.agentRun)) = true)
    by (vm_compute; reflexivity).
  split; [split; [exact H1|exact H2]|].
  refine (proj1 (proj2 (scoreCorrelation_formula Scenario.orchestratorRun Scenario.agentRun
                          (N8nClient.extractUserContext Scenario.orchestratorRun)
                          Scenario.agentHttpCall) H1 H2 _ _ _));
    vm_compute; reflexivity.
Defined.

(** * The webhook index: C6 and C9 *)
Section WebhookIndex.
Import Js N8nClient ExecutionCorrelator.

Lemma strip_prefix_length p s r :
  strip_prefix p s = Some r -> String.length s = (String.length p + String.length r)%nat.
Proof.
  revert s. induction p as [|a p IH]; intros s; simpl.
  - by intros [= ->].
  - destruct s as [|b s]; [discriminate|].
    destruct (Ascii.eqb a b); [|discriminate].
    intros H. simpl. by rewrite (IH s H).
Qed.

Lemma replace_prefix_length p s :
  (String.length (replace_prefix p s) <= String.length s)%nat.
Proof.
  unfold replace_prefix. destruct (strip_prefix p s) as [r|] eqn:E; [|lia].
  apply strip_prefix_length in E. lia.
Qed.

Lemma normalizePath_shrinks s :
  startsWith s "/" = true ->
  (String.length (normalizePath s) < String.length s)%nat.
Proof.
  intros H. unfold startsWith in H.
  destruct s as [|b s]; cbn [strip_prefix] in H; [discriminate|].
  destruct (Ascii.eqb "/"%char b) eqn:Hb; [clear H|discriminate].
  apply Ascii.eqb_eq in Hb as <-.
  unfold normalizePath. unfold replace_prefix at 2.
  destruct (strip_prefix "/webhook" (String "/" s)) as [r|] eqn:E.
  - apply strip_prefix_length in E. pose proof (replace_prefix_length "/" r).
    simpl in *. lia.
  - unfold replace_prefix. simpl. lia.
Qed.

Lemma normalizePath_fixed s :
  startsWith s "/" = false -> normalizePath s = s.
Proof.
  unfold startsWith, normalizePath, replace_prefix.
  destruct s as [|b s]; [reflexivity|]. cbn [strip_prefix].
  destruct (Ascii.eqb "/"%char b) eqn:Hb; [discriminate|intros _].
  cbn [strip_prefix]. by rewrite Hb.
Qed.

Lemma strip_prefix_app p q s :
  strip_prefix (p +:+ q) s =
  match strip_prefix p s with
  | Some r => strip_prefix q r
  | None => None
  end.
Proof.
  revert s. induction p as [|a p IH]; intros s; simpl; [reflexivity|].
  destruct s as [|b s]; [reflexivity|].
  destruct (Ascii.eqb a b); [apply IH|reflexivity].
Qed.

Lemma startsWith_app s p q :
  startsWith s (p +:+ q) =
  match strip_prefix p s with
  | Some r => startsWith r q
  | None => false
  end.
Proof.
  unfold startsWith. rewrite strip_prefix_app. by destruct (strip_prefix p s).
Qed.

(** The normalized path begins with a slash exactly when the input begins
    with two slashes, or with ['/webhook'] and two slashes. *)
Lemma normalizePath_slash path :
  startsWith (normalizePath path) "/"
  = startsWith path "//" || startsWith path "/webhook//".
Proof.
  change (startsWith path "/webhook//") with (startsWith path ("/webhook" +:+ "//")).
  change (startsWith path "//") with (startsWith path ("/" +:+ "/")).
  rewrite !startsWith_app. unfold normalizePath, replace_prefix at 2.
  destruct (strip_prefix "/webhook" path) as [r|] eqn:Hw.
  - assert (Hs : exists rest, strip_prefix "/" path = Some rest /\ startsWith rest "/" = false).
    { destruct path as [|a [|b path]]; cbn [strip_prefix] in *; try discriminate.
      - by destruct (Ascii.eqb "/"%char a).
      - destruct (Ascii.eqb "/"%char a); [|done].
        exists (String b path). split; [reflexivity|].
        unfold startsWith. cbn [strip_prefix].
        destruct (Ascii.eqb "w"%char b) eqn:Hb; [|done].
        apply Ascii.eqb_eq in Hb as <-. reflexivity. }
    destruct Hs as (rest & -> & ->). simpl orb.
    change (startsWith r "//") with (startsWith r ("/" +:+ "/")).
    rewrite startsWith_app.
    unfold replace_prefix.
    destruct (strip_prefix "/" r) as [r'|] eqn:Hr; [reflexivity|].
    unfold startsWith. by rewrite Hr.
  - rewrite orb_false_r. unfold replace_prefix.
    destruct (strip_prefix "/" path) as [rest|] eqn:Hs; [reflexivity|].
    unfold startsWith. by rewrite Hs.
Qed.
(** C6.  Normalizing a normalized path gives it back exactly when the
    normalized path does not begin with a slash, that is, exactly when the
    input begins neither with two slashes nor with ['/webhook'] followed by
    two slashes. *)
Theorem normalizePath_idempotent_iff (path : string) :
  (normalizePath (normalizePath path) = normalizePath path
   <-> startsWith (normalizePath path) "/" = false) /\
  startsWith (normalizePath path) "/"
  = startsWith path "//" || startsWith path "/webhook//".
Proof.
  split; [split|apply normalizePath_slash].
  - intros H. destruct (startsWith (normalizePath path) "/") eqn:E; [|reflexivity].
    apply normalizePath_shrinks in E. rewrite H in E. lia.
  - apply normalizePath_fixed.
Qed.

(** The normalization is not idempotent on ['//webhook']. *)
Lemma normalizePath_not_idempotent :
  normalizePath "//webhook" = "/webhook" /\
  normalizePath (normalizePath "//webhook") = "" /\
  normalizePath (normalizePath "//webhook") <> normalizePath "//webhook".
Proof.
  split; [reflexivity|]. split; [reflexivity|].
  intros H. vm_compute in H. discriminate.
Qed.

Lemma includes_empty s : includes s "" = true.
Proof. by destruct s. Qed.

Lemma matchesMapping_empty m : matchesMapping "" m = true.
Proof. unfold matchesMapping. rewrite includes_empty. apply orb_true_r. Qed.

Variable URL_pathname : string -> option string.

(** C9.  When the normalized path of the input is the empty string and the
    index is not empty, [findWorkflowByWebhook] returns the first mapping
    of the index, whatever its path: the empty string is included in every
    mapping path.  This is the case of a URL whose path component is
    ['/webhook'], and of the bare inputs ['/webhook'], ['/'] and ['']. *)
Theorem empty_path_matches_first_mapping
    (this : Instance) (webhookUrl : string) (m : WebhookMapping)
    (rest : list WebhookMapping) :
  webhookMappings this = m :: rest ->
  (forall path,
      webhookPath URL_pathname (JStr webhookUrl) = inr path ->
      normalizePath path = "" ->
      findWorkflowByWebhook URL_pathname this (JStr webhookUrl) = inr (Some m)) /\
  (URL_pathname webhookUrl = Some "/webhook" ->
   findWorkflowByWebhook URL_pathname this (JStr webhookUrl) = inr (Some m)) /\
  (URL_pathname webhookUrl = None ->
   webhookUrl = "/webhook" \/ webhookUrl = "/" \/ webhookUrl = "" ->
   findWorkflowByWebhook URL_pathname this (JStr webhookUrl) = inr (Some m)) /\
  (forall mappingPath, includes mappingPath "" = true).
Proof.
  intros Hm.
  assert (Hgen : forall path,
             webhookPath URL_pathname (JStr webhookUrl) = inr path ->
             normalizePath path = "" ->
             findWorkflowByWebhook URL_pathname this (JStr webhookUrl) = inr (Some m)).
  { intros path Hp Hn. unfold findWorkflowByWebhook.
    rewrite Hp, Hn, Hm. simpl. by rewrite matchesMapping_empty. }
  split; [exact Hgen|]. split; [|split; [|exact includes_empty]].
  - intros Hu. apply (Hgen "/webhook"); [|reflexivity].
    unfold webhookPath. simpl. by rewrite Hu.
  - intros Hu Hcases. apply (Hgen webhookUrl).
    + unfold webhookPath. simpl. by rewrite Hu.
    + by destruct Hcases as [->|[->| ->]].
Qed.

End WebhookIndex.


Lemma normalizePath_idempotent_witness :
  Js.startsWith (ExecutionCorrelator.normalizePath "/webhook/agent") "/" = false /\
  ExecutionCorrelator.normalizePath (ExecutionCorrelator.normalizePath "/webhook/agent")
  = ExecutionCorrelator.normalizePath "/webhook/agent".
Proof.
  assert (H : Js.startsWith (ExecutionCorrelator.normalizePath "/webhook/agent") "/" = false)
    by reflexivity.
  split; [exact H|].
  exact (proj2 (proj1 (normalizePath_idempotent_iff "/webhook/agent")) H).
Defined.

Lemma empty_path_witness :
  (ExecutionCorrelator.webhookMappings Scenario.webhookIndex = [Scenario.agentMapping] /\
   Scenario.pathname "https://host/webhook" = Some "/webhook" /\
   Scenario.pathname "/" = None) /\
  ExecutionCorrelator.findWorkflowByWebhook Scenario.pathname Scenario.webhookIndex
    (Js.JStr "https://host/webhook") = inr (Some Scenario.agentMapping) /\
  ExecutionCorrelator.findWorkflowByWebhook Scenario.pathname Scenario.webhookIndex
    (Js.JStr "/") = inr (Some Scenario.agentMapping).
Proof.
  assert (Hm : ExecutionCorrelator.webhookMappings Scenario.webhookIndex
               = [Scenario.agentMapping]) by reflexivity.
  assert (Hurl : Scenario.pathname "https://host/webhook" = Some "/webhook")
    by reflexivity.
  assert (Hbare : Scenario.pathname "/" = None) by reflexivity.
  split; [split; [exact Hm|split; [exact Hurl|exact Hbare]]|]. split.
  - exact (proj1 (proj2 (empty_path_matches_first_mapping Scenario.pathname
                           Scenario.webhookIndex "https://host/webhook"
                           Scenario.agentMapping [] Hm)) Hurl).
  - exact (proj1 (proj2 (proj2 (empty_path_matches_first_mapping Scenario.pathname
                                  Scenario.webhookIndex "/"
                                  Scenario.agentMapping [] Hm)))
             Hbare (or_intror (or_introl eq_refl))).
Defined.

(** * The scan for the user context: C7 *)
Section UserContextScan.
Import Js N8nClient ExecutionCorrelator Index.

Lemma scanRuns_app pre post result :
  scanRuns (pre ++ post) result =
  let '(result', returned) := scanRuns pre result in
  if returned then (result', true) else scanRuns post result'.
Proof.
  revert result. induction pre as [|run pre IH]; intros result; simpl.
  - reflexivity.
  - destruct (scanRun run result) as [r b]. destruct b; [reflexivity|]. apply IH.
Qed.

Lemma scanNodes_flat values result :
  scanNodes values result = scanRuns (concat values) result.
Proof.
  revert result. induction values as [|runs values IH]; intros result; simpl.
  - reflexivity.
  - rewrite scanRuns_app. destruct (scanRuns runs result) as [r b].
    destruct b; [reflexivity|]. apply IH.
Qed.

Lemma extractUserContext_flat execution entries :
  runData execution = Some entries ->
  extractUserContext execution = fst (scanRuns (invocations entries) noContext).
Proof.
  intros H. unfold extractUserContext, invocations. by rewrite H, scanNodes_flat.
Qed.

Lemma scanRuns_stops pre run post result result' :
  scanRuns pre result = (result', false) ->
  snd (scanRun run result') = true ->
  scanRuns (pre ++ run :: post) result = (fst (scanRun run result'), true).
Proof.
  intros Hpre Hrun. rewrite scanRuns_app, Hpre. simpl.
  destruct (scanRun run result') as [r b]. simpl in *. by subst b.
Qed.

Lemma scanRuns_unpopulated runs result result' :
  scanRuns runs result = (result', false) ->
  populated result = false -> populated result' = false.
Proof.
  revert result. induction runs as [|run runs IH]; intros result; simpl.
  - by intros [= ->].
  - destruct (scanRun run result) as [r b] eqn:E. destruct b; [discriminate|].
    intros H Hr. apply (IH r H). unfold scanRun in E.
    destruct (mainOutput run).
    + by injection E as <- E.
    + by injection E as <-.
Qed.

Lemma assign_overwrites field src key v :
  prop src key = Some v -> truthy v = true ->
  assign field src key = Some (to_string v).
Proof. intros Hp Ht. unfold assign. by rewrite Hp, Ht. Qed.

(** C7.  [extractUserContext] scans the node invocations in the order in
    which the run-data mapping enumerates them; at each invocation that has
    an output payload it reads the four keys from the payload and then from
    a nested [body], whose values replace whatever was there; and as soon
    as the user id or the chat id is populated after an invocation it
    returns, so that the invocations after that one do not matter. *)
Theorem extractUserContext_returns_early
    (execution : N8nExecution)
    (entries : list (string * list N8nNodeExecutionData))
    (pre post : list N8nNodeExecutionData) (run : N8nNodeExecutionData)
    (found : UserContext) :
  runData execution = Some entries ->
  invocations entries = pre ++ run :: post ->
  scanRuns pre noContext = (found, false) ->
  populated (fst (scanRun run found)) = true ->
  extractUserContext execution = fst (scanRuns (invocations entries) noContext) /\
  extractUserContext execution = fst (scanRun run found) /\
  (forall execution' entries' post',
      runData execution' = Some entries' ->
      invocations entries' = pre ++ run :: post' ->
      extractUserContext execution' = extractUserContext execution) /\
  (forall json body result,
      mainOutput run = Some json -> prop json "body" = Some body ->
      truthy body = true ->
      fst (scanRun run result) = readIds body (readIds json result)) /\
  (forall result src v,
      (prop src "user_id" = Some v -> truthy v = true ->
       userId (readIds src result) = Some (to_string v)) /\
      (prop src "chat_id" = Some v -> truthy v = true ->
       chatId (readIds src result) = Some (to_string v)) /\
      (prop src "correlation_id" = Some v -> truthy v = true ->
       correlationId (readIds src result) = Some (to_string v)) /\
      (prop src "response_id" = Some v -> truthy v = true ->
       responseId (readIds src result) = Some (to_string v))).
Proof.
  intros Hdata Hflat Hpre Hfound.
  assert (Hret : snd (scanRun run found) = true).
  { unfold scanRun in *. destruct (mainOutput run) as [json|]; [exact Hfound|].
    simpl in Hfound.
    rewrite (scanRuns_unpopulated pre noContext found Hpre) in Hfound; done. }
  assert (Hflatten : forall e es p', runData e = Some es ->
             invocations es = pre ++ run :: p' ->
             extractUserContext e = fst (scanRun run found)).
  { intros e es p' He Hes. rewrite (extractUserContext_flat e es He), Hes.
    by rewrite (scanRuns_stops pre run p' noContext found Hpre Hret). }
  split; [by apply extractUserContext_flat|].
  split; [by apply (Hflatten execution entries post)|].
  split; [|split].
  - intros e' es' p' He' Hes'.
    rewrite (Hflatten e' es' p' He' Hes').
    symmetry. by apply (Hflatten execution entries post).
  - intros json body result Hj Hb Ht. unfold scanRun. by rewrite Hj, Hb, Ht.
  - intros result src v. unfold readIds. simpl.
    repeat split; intros Hp Ht; by apply assign_overwrites.
Qed.

End UserContextScan.

Lemma extractUserContext_witness :
  (N8nClient.runData Scenario.twoNodeRun = Some Scenario.twoNodes /\
   Index.invocations Scenario.twoNodes = [] ++ Scenario.firstNode :: [Scenario.secondNode] /\
   N8nClient.populated
     (fst (N8nClient.scanRun Scenario.firstNode N8nClient.noContext)) = true) /\
  N8nClient.extractUserContext Scenario.twoNodeRun
  = {| N8nClient.userId := Some "nested"; N8nClient.chatId := None;
       N8nClient.correlationId := None; N8nClient.responseId := None |}.
Proof.
  assert (H1 : N8nClient.runData Scenario.twoNodeRun = Some Scenario.twoNodes)
    by reflexivity.
  assert (H2 : Index.invocations Scenario.twoNodes
               = [] ++ Scenario.firstNode :: [Scenario.secondNode]) by reflexivity.
  assert (H3 : N8nClient.scanRuns [] N8nClient.noContext = (N8nClient.noContext, false))
    by reflexivity.
  assert (H4 : N8nClient.populated
                 (fst (N8nClient.scanRun Scenario.firstNode N8nClient.noContext)) = true)
    by reflexivity.
  split; [split; [exact H1|split; [exact H2|exact H4]]|].
  exact (proj1 (proj2 (extractUserContext_returns_early Scenario.twoNodeRun
                         Scenario.twoNodes [] [Scenario.secondNode] Scenario.firstNode
                         N8nClient.noContext H1 H2 H3 H4))).
Defined.

(** * What [initialize] does to the index: C10 *)
Section Initialize.
Import Js N8nClient ExecutionCorrelator Logic Index.
#[local] Open Scope js_scope.

Variable URL_pathname : string -> option string.
Variable client : DataSource.

Lemma push_paths wf paths this :
  for_of paths (fun path =>
    modify (fun this =>
      {| webhookMappings :=
           webhookMappings this ++
           [{| m_path := path; m_workflowId := wf_id wf; m_workflowName := wf_name wf |}];
         workflowCache := workflowCache this |})) this
  = (Ret tt,
     {| webhookMappings :=
          webhookMappings this ++
          List.map (fun path => {| m_path := path; m_workflowId := wf_id wf;
                                   m_workflowName := wf_name wf |}) paths;
        workflowCache := workflowCache this |},
     []).
Proof.
  revert this. induction paths as [|path paths IH]; intros this; simpl.
  - rewrite app_nil_r. by destruct this.
  - unfold bind, modify. rewrite IH. simpl. by rewrite <- app_assoc.
Qed.

Lemma initialize_loop wfs this :
  Forall (fun wf => exists fullWorkflow, getWorkflow client (wf_id wf) = inr fullWorkflow) wfs ->
  for_of wfs (fun wf =>
    fullWorkflow <- request (GetWorkflow (wf_id wf)) (getWorkflow client (wf_id wf)) ;;
    modify (fun this =>
      {| webhookMappings := webhookMappings this;
         workflowCache := map_set (wf_id wf) fullWorkflow (workflowCache this) |}) ;;
    for_of (extractWebhookPaths fullWorkflow) (fun path =>
      modify (fun this =>
        {| webhookMappings :=
             webhookMappings this ++
             [{| m_path := path; m_workflowId := wf_id wf; m_workflowName := wf_name wf |}];
           workflowCache := workflowCache this |}))) this
  = (Ret tt,
     {| webhookMappings := webhookMappings this ++ discovered client wfs;
        workflowCache := cached client wfs (workflowCache this) |},
     List.map (fun wf => Called (GetWorkflow (wf_id wf)) None) wfs).
Proof.
  intros Hserves. revert this.
  induction Hserves as [|wf wfs [full Hfull] _ IH]; intros this; simpl.
  - rewrite app_nil_r. by destruct this.
  - unfold bind at 1. unfold bind at 1. unfold request at 1. rewrite Hfull.
    unfold bind at 1. unfold modify at 1. rewrite push_paths. simpl.
    rewrite IH. simpl. unfold mappingsOf, cacheOne. rewrite Hfull.
    by rewrite <- app_assoc.
Qed.

Lemma initialize_serves wfs this :
  serves client wfs ->
  initialize client this
  = (Ret tt,
     {| webhookMappings := webhookMappings this ++ discovered client wfs;
        workflowCache := cached client wfs (workflowCache this) |},
     fanout wfs).
Proof.
  intros [Hlist Hall]. unfold initialize, bind at 1, request at 1. rewrite Hlist.
  by rewrite (initialize_loop wfs this Hall).
Qed.

Lemma map_get_set {V} k v (m : list (string * V)) k' :
  map_get (map_set k v m) k' = if String.eqb k k' then Some v else map_get m k'.
Proof.
  induction m as [|[k0 v0] m IH]; simpl.
  - reflexivity.
  - destruct (String.eqb k0 k) eqn:E0; simpl.
    + apply String.eqb_eq in E0 as ->. by destruct (String.eqb k k').
    + destruct (String.eqb k0 k') eqn:E1; [|exact IH].
      apply String.eqb_eq in E1 as ->.
      rewrite String.eqb_sym in E0. by rewrite E0.
Qed.

Lemma map_set_same {V} k v (m : list (string * V)) :
  map_get m k = Some v -> map_set k v m = m.
Proof.
  induction m as [|[k0 v0] m IH]; simpl; [discriminate|].
  destruct (String.eqb k0 k) eqn:E.
  - apply String.eqb_eq in E as ->. by intros [= ->].
  - intros H. by rewrite IH.
Qed.

(** After caching, every listed workflow that was served is in the cache
    with its definition. *)
Lemma cached_lookup wfs cache k full :
  getWorkflow client k = inr full ->
  k ∈ List.map wf_id wfs \/ map_get cache k = Some full ->
  map_get (cached client wfs cache) k = Some full.
Proof.
  intros Hfull. revert cache.
  induction wfs as [|wf wfs IH]; intros cache; simpl.
  - intros [H|H]; [by apply elem_of_nil in H|exact H].
  - intros H. apply IH. unfold cacheOne.
    destruct (String.eqb (wf_id wf) k) eqn:E.
    + apply String.eqb_eq in E. right. rewrite E, Hfull, map_get_set.
      by rewrite String.eqb_refl.
    + destruct H as [H|H].
      * apply elem_of_cons in H as [H|H]; [|by left].
        subst k. by rewrite String.eqb_refl in E.
      * right. destruct (getWorkflow client (wf_id wf)); [exact H|].
        by rewrite map_get_set, E.
Qed.

Lemma cached_fixed wfs cache :
  (forall wf full, wf ∈ wfs -> getWorkflow client (wf_id wf) = inr full ->
                   map_get cache (wf_id wf) = Some full) ->
  cached client wfs cache = cache.
Proof.
  induction wfs as [|wf wfs IH]; intros H; simpl; [reflexivity|].
  assert (Hone : cacheOne client cache wf = cache).
  { unfold cacheOne. destruct (getWorkflow client (wf_id wf)) as [e|full] eqn:E;
      [reflexivity|].
    apply map_set_same. apply (H wf full); [left|exact E]. }
  rewrite Hone. apply IH. intros wf' full Hin. apply H. by right.
Qed.

Lemma cached_idempotent wfs cache :
  cached client wfs (cached client wfs cache) = cached client wfs cache.
Proof.
  apply cached_fixed. intros wf full Hin Hfull.
  apply cached_lookup; [exact Hfull|]. left.
  by apply (list_elem_of_fmap_2 wf_id).
Qed.

(** The trace and the instance of a search whose first step, the index
    construction or nothing, completed. *)
Lemma search_after_index fuel rootExecutionId options this this1 t0 :
  (if (length (webhookMappings this) =? 0)%nat then initialize client else ret tt) this
    = (Ret tt, this1, t0) ->
  exists failure rest,
    trace (correlateExecutions URL_pathname client fuel rootExecutionId options this)
      = t0 ++ Called (GetExecution rootExecutionId) failure :: rest /\
    final (correlateExecutions URL_pathname client fuel rootExecutionId options this)
      = this1.
Proof.
  intros H.
  remember (correlateExecutions URL_pathname client fuel rootExecutionId options this)
    as run eqn:Hrun.
  rewrite correlateExecutions_search in Hrun.
  unfold search, bind, get, request, withSearch in Hrun. rewrite H in Hrun.
  destruct (getExecution client rootExecutionId) as [e|ex].
  - exists (Some e), []. by subst run.
  - destruct (findCorrelatedExecutions _ _ _ _ _ _ _ _ _ _) as [[[[]|e|] s1] t1];
      exists None, t1; by subst run.
Qed.

End Initialize.

Section NotIdempotent.
Import Js N8nClient ExecutionCorrelator Logic Index.

(** C10.  Against a data source that serves its workflows, a second
    [initialize] leaves the workflow cache as the first one left it and
    appends to the index a second copy of every mapping, sending all the
    requests again.  [correlateExecutions] rebuilds the index exactly when
    the list of mappings is empty; so where no active workflow declares a
    webhook path the list stays empty, and every search sends the listing
    and one fetch per workflow again. *)
Theorem initialize_appends_a_second_copy
    (URL_pathname : string -> option string) (client : DataSource)
    (wfs : list N8nWorkflow) :
  serves client wfs ->
  let first := initialize client newInstance in
  let second := initialize client (final first) in
  (outcome first = Ret tt /\ outcome second = Ret tt) /\
  webhookMappings (final second)
    = webhookMappings (final first) ++ webhookMappings (final first) /\
  length (webhookMappings (final second))
    = (2 * length (webhookMappings (final first)))%nat /\
  workflowCache (final second) = workflowCache (final first) /\
  (trace first = fanout wfs /\ trace second = fanout wfs) /\
  (forall fuel rootExecutionId options this,
      let run := correlateExecutions URL_pathname client fuel rootExecutionId
                   options this in
      (webhookMappings this = [] ->
       exists failure rest,
         trace run = fanout wfs ++ Called (GetExecution rootExecutionId) failure :: rest /\
         webhookMappings (final run) = discovered client wfs) /\
      (webhookMappings this <> [] ->
       exists failure rest,
         trace run = Called (GetExecution rootExecutionId) failure :: rest /\
         final run = this)) /\
  (discovered client wfs = [] ->
   forall fuel rootExecutionId options this,
     webhookMappings this = [] ->
     let run := correlateExecutions URL_pathname client fuel rootExecutionId
                  options this in
     webhookMappings (final run) = [] /\
     exists failure rest,
       trace run = fanout wfs ++ Called (GetExecution rootExecutionId) failure :: rest).
Proof.
  intros Hserves first second.
  assert (Hsearch : forall fuel rootExecutionId options this,
      let run := correlateExecutions URL_pathname client fuel rootExecutionId
                   options this in
      (webhookMappings this = [] ->
       exists failure rest,
         trace run = fanout wfs ++ Called (GetExecution rootExecutionId) failure :: rest /\
         webhookMappings (final run) = discovered client wfs) /\
      (webhookMappings this <> [] ->
       exists failure rest,
         trace run = Called (GetExecution rootExecutionId) failure :: rest /\
         final run = this)).
  { intros fuel rootExecutionId options this run. subst run. split; intros Hm.
    - destruct (search_after_index URL_pathname client fuel rootExecutionId options this
                  {| webhookMappings := webhookMappings this ++ discovered client wfs;
                     workflowCache := cached client wfs (workflowCache this) |}
                  (fanout wfs)) as (failure & rest & Ht & Hf).
      { replace (length (webhookMappings this) =? 0)%nat with true by (by rewrite Hm).
        by apply initialize_serves. }
      exists failure, rest. split; [exact Ht|]. rewrite Hf. simpl. by rewrite Hm.
    - destruct (search_after_index URL_pathname client fuel rootExecutionId options this
                  this []) as (failure & rest & Ht & Hf).
      { destruct (webhookMappings this); [done|reflexivity]. }
      by exists failure, rest. }
  assert (Hnone : discovered client wfs = [] ->
     forall fuel rootExecutionId options this,
       webhookMappings this = [] ->
       let run := correlateExecutions URL_pathname client fuel rootExecutionId
                    options this in
       webhookMappings (final run) = [] /\
       exists failure rest,
         trace run = fanout wfs ++ Called (GetExecution rootExecutionId) failure :: rest).
  { intros Hnone fuel rootExecutionId options this Hm run.
    destruct (Hsearch fuel rootExecutionId options this) as [H _].
    destruct (H Hm) as (failure & rest & Ht & Hf).
    split; [by rewrite <- Hnone|]. by exists failure, rest. }
  pose proof (initialize_serves client wfs newInstance Hserves) as H1.
  pose proof (initialize_serves client wfs
                {| webhookMappings := webhookMappings newInstance ++ discovered client wfs;
                   workflowCache := cached client wfs (workflowCache newInstance) |}
                Hserves) as H2.
  split; [|split; [|split; [|split; [|split; [|split; [exact Hsearch|exact Hnone]]]]]];
    subst first second; unfold final, outcome, trace;
    rewrite H1; cbn [fst snd]; rewrite ?H2;
    cbn [fst snd webhookMappings workflowCache newInstance app].
  - done.
  - reflexivity.
  - rewrite length_app. lia.
  - apply cached_idempotent.
  - done.
Qed.

End NotIdempotent.

Lemma initialize_witness :
  Index.serves Scenario.webhookSource [Scenario.W1; Scenario.W2] /\
  ExecutionCorrelator.webhookMappings
    (Logic.final (ExecutionCorrelator.initialize Scenario.webhookSource
                    ExecutionCorrelator.newInstance))
  = [Scenario.agentMapping] /\
  ExecutionCorrelator.webhookMappings
    (Logic.final
       (ExecutionCorrelator.initialize Scenario.webhookSource
          (Logic.final (ExecutionCorrelator.initialize Scenario.webhookSource
                          ExecutionCorrelator.newInstance))))
  = [Scenario.agentMapping; Scenario.agentMapping].
Proof.
  assert (H : Index.serves Scenario.webhookSource [Scenario.W1; Scenario.W2]).
  { split; [reflexivity|]. repeat constructor; eexists; reflexivity. }
  split; [exact H|]. split; [reflexivity|].
  exact (proj1 (proj2 (initialize_appends_a_second_copy Scenario.pathname
                         Scenario.webhookSource [Scenario.W1; Scenario.W2] H))).
Defined.

(** * Failures of the data source: C8 *)
Section Unrecovered.
Import Js N8nClient ExecutionCorrelator Logic Failures.
#[local] Open Scope js_scope.

#[global] Instance unrecovered_composable {S} : Composable (@unrecovered S).
Proof.
  split; [reflexivity|]. intros s s1 s2 t1 t2 o H1 H2. simpl in H1.
  destruct o as [[]|e|]; simpl in *.
  - by rewrite failures_app, H1, H2.
  - destruct H2 as [(t0 & r & -> & H0)|[H0 He]].
    + left. exists (t1 ++ t0), r. rewrite app_assoc. split; [reflexivity|].
      by rewrite failures_app, H1, H0.
    + right. split; [|exact He]. by rewrite failures_app, H1, H0.
  - by rewrite failures_app, H1, H2.
Qed.

Lemma unrecovered_request {S A} (r : Request) (answer : Error + A) :
  satisfies (@unrecovered S) (request r answer).
Proof.
  intros s. unfold request. destruct answer as [e|a]; simpl; [|reflexivity].
  left. by exists [], r.
Qed.

Lemma unrecovered_throw {S A} e :
  e = RangeError \/ e = TypeError -> satisfies (@unrecovered S) (@throw S A e).
Proof. intros He s. right. by split. Qed.

Lemma unrecovered_modify {S} (f : S -> S) : satisfies unrecovered (modify f).
Proof. by intros s. Qed.

Variable URL_pathname : string -> option string.
Variable client : DataSource.

Lemma unrecovered_withSearch init (m : Instance -> M Search unit) :
  (forall this, satisfies unrecovered (m this)) ->
  satisfies unrecovered (withSearch init m).
Proof.
  intros Hm this. specialize (Hm this init). unfold withSearch.
  by destruct (m this init) as [[[[]|e|] s1] t1].
Qed.

Lemma unrecovered_correlateExecutions fuel rootExecutionId options :
  satisfies unrecovered
    (correlateExecutions URL_pathname client fuel rootExecutionId options).
Proof.
  unfold correlateExecutions, search.
  apply satisfies_bind; [apply _| |intros final; apply satisfies_ret; apply _].
  apply satisfies_bind; [apply _|apply satisfies_get; apply _|]. intros this.
  apply satisfies_bind; [apply _| |].
  - destruct (_ =? _)%nat; [|apply satisfies_ret; apply _].
    apply initialize_satisfies; [apply _| |apply unrecovered_modify].
    intros A r answer. apply unrecovered_request.
  - intros _. apply satisfies_bind; [apply _|apply unrecovered_request|].
    intros rootExecution. apply unrecovered_withSearch. intros this'.
    apply findCorrelatedExecutions_satisfies; [apply _| | | | |].
    + intros A r answer. apply unrecovered_request.
    + intros e He. by apply unrecovered_throw.
    + apply unrecovered_modify.
    + by intros k d s.
    + by intros s.
Qed.

(** C8.  Whatever request to the data source fails during a search, be it
    the listing or the fetch of a workflow, the fetch of the root
    execution or a listing of executions, [correlateExecutions] rejects
    with that very failure: the failed request is the last thing it did
    (no retry, nothing after it), all requests before it succeeded, and no
    list of results is returned.  A webhook URL that resolves to no
    mapping only ends the iteration for that call, and an execution
    without run data yields no HTTP calls and an empty context. *)
Theorem data_source_failure_propagates
    (fuel : nat) (rootExecutionId : string) (options : Options)
    (this : Instance) (r : Request) (e : Error) :
  let run := correlateExecutions URL_pathname client fuel rootExecutionId options this in
  Called r (Some e) ∈ trace run ->
  (outcome run = Throw e /\
   exists before, trace run = before ++ [Called r (Some e)] /\ failures before = []) /\
  (forall this1 timeWindowMs recurse execution p d execStart userContext httpCall s,
      findWorkflowByWebhook URL_pathname this1 (call_url httpCall) = inr None ->
      webhookCall URL_pathname client this1 timeWindowMs recurse execution p d
        execStart userContext httpCall s = (Ret tt, s, [])) /\
  (forall execution,
      runData execution = None ->
      extractHttpCalls execution = [] /\ extractUserContext execution = noContext).
Proof.
  intros run Hin. split; [|split].
  - pose proof (unrecovered_correlateExecutions fuel rootExecutionId options this) as H.
    fold run in H. unfold unrecovered in H.
    pose proof (failed_call_in_failures _ _ _ Hin) as Hf.
    destruct (outcome run) as [rs|e'|]; simpl in H;
      try (rewrite H in Hf; by apply elem_of_nil in Hf).
    destruct H as [(t0 & r' & Ht & H0)|[H0 _]];
      [|rewrite H0 in Hf; by apply elem_of_nil in Hf].
    rewrite Ht in Hin. apply elem_of_app in Hin as [Hin|Hin].
    + apply failed_call_in_failures in Hin. rewrite H0 in Hin.
      by apply elem_of_nil in Hin.
    + apply list_elem_of_singleton in Hin. injection Hin as -> ->.
      split; [reflexivity|]. by exists t0.
  - intros this1 tw recurse execution p d execStart userContext httpCall s Hmiss.
    unfold webhookCall. by rewrite Hmiss.
  - intros execution Hnone. unfold extractHttpCalls, extractUserContext.
    by rewrite Hnone.
Qed.

End Unrecovered.

(** The listing for [W3] fails after the execution of [W2] was accepted:
    the caller gets the failure and no result. *)
Lemma failure_witness :
  let run := ExecutionCorrelator.correlateExecutions Scenario.pathname
               Scenario.failingSource 6 "1001" Scenario.defaults
               ExecutionCorrelator.newInstance in
  Logic.trace run
  = [ExecutionCorrelator.Called (ExecutionCorrelator.ListWorkflows (Some true)) None;
     ExecutionCorrelator.Called (ExecutionCorrelator.GetWorkflow "W1") None;
     ExecutionCorrelator.Called (ExecutionCorrelator.GetWorkflow "W2") None;
     ExecutionCorrelator.Called (ExecutionCorrelator.GetWorkflow "W3") None;
     ExecutionCorrelator.Called (ExecutionCorrelator.GetExecution "1001") None;
     ExecutionCorrelator.Entered "1001" 0;
     ExecutionCorrelator.Called (ExecutionCorrelator.ListExecutions "W2" 10) None;
     ExecutionCorrelator.Entered "1002" 1;
     ExecutionCorrelator.Called (ExecutionCorrelator.ListExecutions "W3" 10)
       (Some Scenario.unavailable)] /\
  Logic.outcome run = ExecutionCorrelator.Throw Scenario.unavailable.
Proof.
  assert (Ht : Logic.trace
                 (ExecutionCorrelator.correlateExecutions Scenario.pathname
                    Scenario.failingSource 6 "1001" Scenario.defaults
                    ExecutionCorrelator.newInstance)
               = [ExecutionCorrelator.Called (ExecutionCorrelator.ListWorkflows (Some true)) None;
                  ExecutionCorrelator.Called (ExecutionCorrelator.GetWorkflow "W1") None;
                  ExecutionCorrelator.Called (ExecutionCorrelator.GetWorkflow "W2") None;
                  ExecutionCorrelator.Called (ExecutionCorrelator.GetWorkflow "W3") None;
                  ExecutionCorrelator.Called (ExecutionCorrelator.GetExecution "1001") None;
                  ExecutionCorrelator.Entered "1001" 0;
                  ExecutionCorrelator.Called (ExecutionCorrelator.ListExecutions "W2" 10) None;
                  ExecutionCorrelator.Entered "1002" 1;
                  ExecutionCorrelator.Called (ExecutionCorrelator.ListExecutions "W3" 10)
                    (Some Scenario.unavailable)])
    by (vm_compute; reflexivity).
  split; [exact Ht|].
  refine (proj1 (proj1 (data_source_failure_propagates Scenario.pathname
                          Scenario.failingSource 6 "1001" Scenario.defaults
                          ExecutionCorrelator.newInstance
                          (ExecutionCorrelator.ListExecutions "W3" 10)
                          Scenario.unavailable _))).
  rewrite Ht. repeat constructor.
Defined.

(** * Termination *)
Section Finishes.
Import Js N8nClient ExecutionCorrelator Logic Failures.
#[local] Open Scope js_scope.

#[global] Instance finishes_composable {S} : Composable (@finishes S).
Proof. split; [done|]. intros s s1 s2 t1 t2 o _ H. exact H. Qed.

Lemma finishes_request {S A} (r : Request) (answer : Error + A) :
  satisfies (@finishes S) (request r answer).
Proof. intros s. unfold request. by destruct answer. Qed.

Variable URL_pathname : string -> option string.
Variable client : DataSource.

Section Search.
Variable this : Instance.
Variables timeWindowMs maxDepth : Z.

(** The depth bound: more fuel than [maxDepth - currentDepth] levels is
    never used up. *)
Lemma finishes_by_depth fuel :
  forall execution p d,
    Z.max 0 (maxDepth - d) < Z.of_nat fuel ->
    satisfies finishes
      (findCorrelatedExecutions URL_pathname client this timeWindowMs maxDepth
         fuel execution p d).
Proof.
  induction fuel as [|fuel IH]; intros execution p d Hfuel; [lia|].
  intros s. rewrite findCorrelatedExecutions_S.
  destruct (d >=? maxDepth) eqn:Hd; [done|].
  pose proof (expand_satisfies URL_pathname client this timeWindowMs finishes
                (findCorrelatedExecutions URL_pathname client this timeWindowMs
                   maxDepth fuel) execution p d) as H.
  match type of H with
  | ?A -> ?B -> ?C -> _ => assert (HA : A); [|assert (HB : B); [|assert (HC : C)]]
  end.
  - intros A r answer. apply finishes_request.
  - by intros e _ s'.
  - intros wid limit candidates c cf m _ _ _ s' _. unfold accept, bind, modify.
    match goal with
    | |- context [findCorrelatedExecutions ?a ?b ?c ?d ?e ?f ?g ?h ?i ?j] =>
        pose proof (IH g h i ltac:(lia) j) as Hr;
        destruct (findCorrelatedExecutions a b c d e f g h i j) as [[o s1] t1]
    end.
    exact Hr.
  - specialize (H HA HB HC s).
    destruct (expand _ _ _ _ _ _ _ _ s) as [[o s1] t1]. exact H.
Qed.

End Search.

Section ByVisited.
Variable universe : gset string.
Hypothesis listed : lists_within client universe.

Lemma unvisited_mono s s' :
  visited s ⊆ visited s' -> (unvisited universe s' <= unvisited universe s)%nat.
Proof. intros H. unfold unvisited. apply subseteq_size. set_solver. Qed.

Lemma unvisited_record r s :
  id (execution r) ∈ universe -> id (execution r) ∉ visited s ->
  (unvisited universe (record r s) < unvisited universe s)%nat.
Proof.
  intros Hu Hv. unfold unvisited. simpl.
  apply subset_size. apply strict_spec_alt. split; [set_solver|].
  intros Heq. assert (id (execution r) ∈ universe ∖ visited s) as Hin by set_solver.
  rewrite <- Heq in Hin. set_solver.
Qed.

#[global] Instance progresses_composable n : Composable (progresses universe n).
Proof.
  split.
  - intros s. split; [done|]. by intros _.
  - intros s s1 s2 t1 t2 o [Hv1 _] [Hv2 Hf]. split; [set_solver|].
    intros Hn. apply Hf. pose proof (unvisited_mono s s1 Hv1). lia.
Qed.

(** The visited-set bound: with as much fuel as there are executions left
    to visit, and one more, the search finishes whatever [maxDepth] is. *)
Lemma progresses_findCorrelatedExecutions this timeWindowMs maxDepth fuel :
  forall execution p d,
    satisfies (progresses universe fuel)
      (findCorrelatedExecutions URL_pathname client this timeWindowMs maxDepth
         fuel execution p d).
Proof.
  induction fuel as [|fuel IH]; intros execution p d s.
  - split; [done|]. intros H. lia.
  - rewrite findCorrelatedExecutions_S.
    destruct (d >=? maxDepth) eqn:Hd; [split; [done|by intros _]|].
    pose proof (expand_satisfies URL_pathname client this timeWindowMs
                  (progresses universe (S fuel))
                  (findCorrelatedExecutions URL_pathname client this timeWindowMs
                     maxDepth fuel) execution p d) as H.
    match type of H with
    | ?A -> ?B -> ?C -> _ => assert (HA : A); [|assert (HB : B); [|assert (HC : C)]]
    end.
    + intros A r answer s'. unfold request.
      destruct answer; (split; [done|by intros _]).
    + intros e _ s'. split; [done|by intros _].
    + intros wid limit candidates c cf m Hl Hc _ s' Hv. unfold accept, bind, modify.
      set (r := {| execution := c; parentId := p; confidence := cf; method := m |}).
      pose proof (IH c (id c) (d + 1) (record r s')) as [Hsub Hfin].
      destruct (findCorrelatedExecutions _ _ _ _ _ _ _ _ _ _) as [[o s1] t1].
      unfold outcome, final in *. simpl in *.
      split; [set_solver|]. intros Hn. rewrite erase_unit in *. apply Hfin.
      pose proof (unvisited_record r s' (listed _ _ _ _ Hl Hc) Hv). lia.
    + specialize (H HA HB HC s).
      destruct (expand _ _ _ _ _ _ _ _ s) as [[o s1] t1]. exact H.
Qed.

End ByVisited.

(** ** Fuel is immaterial *)

Lemma extends_expand this timeWindowMs recurse recurse' execution p d :
  (forall c k d', extends (recurse c k d') (recurse' c k d')) ->
  extends (expand URL_pathname client this timeWindowMs recurse execution p d)
          (expand URL_pathname client this timeWindowMs recurse' execution p d).
Proof.
  intros Hrec.
  assert (Haccept : forall c pp cf m,
             extends (accept recurse c pp cf m d) (accept recurse' c pp cf m d)).
  { intros. unfold accept. apply extends_bind; [apply extends_refl|].
    intros _. apply Hrec. }
  unfold expand.
  apply extends_bind; [apply extends_refl|]. intros _.
  apply extends_bind; [apply extends_refl|]. intros _.
  apply extends_bind.
  - apply extends_for_of. intros httpCall. unfold webhookCall.
    destruct (findWorkflowByWebhook _ _ _) as [e|[mapping|]]; try apply extends_refl.
    apply extends_bind; [apply extends_refl|]. intros candidates.
    apply extends_for_of. intros c. unfold webhookCandidate.
    apply extends_bind; [apply extends_refl|]. intros search.
    destruct (bool_decide _); [apply extends_refl|].
    destruct (_ || _); [apply extends_refl|].
    destruct (PrimFloat.ltb _ _); [apply Haccept|apply extends_refl].
  - intros _. apply extends_for_of. intros wid. unfold subWorkflow.
    destruct (String.eqb _ _); [apply extends_refl|].
    apply extends_bind; [apply extends_refl|]. intros candidates.
    apply extends_for_of. intros c. unfold subWorkflowCandidate.
    apply extends_bind; [apply extends_refl|]. intros search.
    destruct (bool_decide _); [apply extends_refl|].
    destruct (_ || _); [apply extends_refl|].
    destruct (scoreSubWorkflow _ _ _ _) as [cf methods].
    destruct (PrimFloat.ltb _ _); [apply Haccept|apply extends_refl].
Qed.

Lemma extends_findCorrelatedExecutions this timeWindowMs maxDepth fuel fuel' :
  (fuel <= fuel')%nat ->
  forall execution p d,
    extends
      (findCorrelatedExecutions URL_pathname client this timeWindowMs maxDepth
         fuel execution p d)
      (findCorrelatedExecutions URL_pathname client this timeWindowMs maxDepth
         fuel' execution p d).
Proof.
  revert fuel'. induction fuel as [|fuel IH]; intros fuel' Hle execution p d.
  - intros s H. by contradict H.
  - destruct fuel' as [|fuel']; [lia|]. simpl.
    apply extends_bind; [apply extends_refl|]. intros _.
    destruct (d >=? maxDepth); [apply extends_refl|].
    apply extends_expand. intros c k d'. apply IH. lia.
Qed.

Lemma extends_correlateExecutions fuel fuel' rootExecutionId options :
  (fuel <= fuel')%nat ->
  extends (correlateExecutions URL_pathname client fuel rootExecutionId options)
          (correlateExecutions URL_pathname client fuel' rootExecutionId options).
Proof.
  intros Hle. unfold correlateExecutions, search.
  apply extends_bind; [|intros; apply extends_refl].
  apply extends_bind; [apply extends_refl|]. intros this.
  apply extends_bind; [apply extends_refl|]. intros _.
  apply extends_bind; [apply extends_refl|]. intros rootExecution.
  intros this' H. unfold withSearch in *.
  pose proof (extends_findCorrelatedExecutions this'
                (default 30000 (opt_timeWindowMs options))
                (default 5 (opt_maxDepth options)) fuel fuel' Hle
                rootExecution rootExecutionId 0
                {| results := []; visited := {[ rootExecutionId ]} |}) as He.
  destruct (findCorrelatedExecutions _ _ _ _ _ fuel _ _ _ _) as [[[[]|e|] s1] t1];
    first [by rewrite He|by contradict H].
Qed.

Lemma finishes_correlateExecutions universe fuel rootExecutionId options :
  Z.max 0 (default 5 (opt_maxDepth options)) < Z.of_nat fuel \/
  (lists_within client universe /\ (size universe < fuel)%nat) ->
  satisfies finishes
    (correlateExecutions URL_pathname client fuel rootExecutionId options).
Proof.
  intros Hfuel. unfold correlateExecutions, search.
  apply satisfies_bind; [apply _| |intros; apply satisfies_ret; apply _].
  apply satisfies_bind; [apply _|apply satisfies_get; apply _|]. intros this.
  apply satisfies_bind; [apply _| |].
  - destruct (_ =? _)%nat; [|apply satisfies_ret; apply _].
    apply initialize_satisfies; [apply _| |by intros f s].
    intros A r answer. apply finishes_request.
  - intros _. apply satisfies_bind; [apply _|apply finishes_request|].
    intros rootExecution this'. unfold withSearch.
    set (s0 := {| results := []; visited := {[ rootExecutionId ]} |}).
    assert (Hrun : outcome (findCorrelatedExecutions URL_pathname client this'
                     (default 30000 (opt_timeWindowMs options))
                     (default 5 (opt_maxDepth options)) fuel rootExecution
                     rootExecutionId 0 s0) <> OutOfFuel).
    { destruct Hfuel as [Hd|[Hl Hsz]].
      - pose proof (finishes_by_depth this'
                      (default 30000 (opt_timeWindowMs options))
                      (default 5 (opt_maxDepth options)) fuel rootExecution
                      rootExecutionId 0 ltac:(lia) s0) as H.
        unfold finishes in H. by rewrite erase_unit in H.
      - pose proof (progresses_findCorrelatedExecutions universe Hl
                      this' (default 30000 (opt_timeWindowMs options))
                      (default 5 (opt_maxDepth options)) fuel rootExecution
                      rootExecutionId 0 s0) as [_ H].
        rewrite erase_unit in H. apply H. unfold unvisited.
        pose proof (subseteq_size (universe ∖ visited s0) universe ltac:(set_solver)).
        lia. }
    unfold finishes.
    by destruct (findCorrelatedExecutions _ _ _ _ _ _ _ _ _ s0) as [[[[]|e|] s1] t1].
Qed.

End Finishes.

(** * The workflow cache and the names read from it *)
Section WorkflowNames.
Import Js N8nClient ExecutionCorrelator Logic Names.
#[local] Open Scope js_scope.

Lemma map_set_fresh {V} k (v : V) m :
  k ∉ keys m -> map_set k v m = m ++ [(k, v)].
Proof.
  induction m as [|[k0 v0] m IH]; simpl; [done|].
  intros Hk. apply not_elem_of_cons in Hk as [Hne Hk].
  destruct (String.eqb k0 k) eqn:E.
  - apply String.eqb_eq in E. congruence.
  - by rewrite (IH Hk).
Qed.

Lemma keys_map_set {V} k (v : V) m :
  keys (map_set k v m) = if bool_decide (k ∈ keys m) then keys m else keys m ++ [k].
Proof.
  induction m as [|[k0 v0] m IH]; simpl; [reflexivity|].
  destruct (String.eqb k0 k) eqn:E.
  - apply String.eqb_eq in E as ->. simpl.
    rewrite bool_decide_eq_true_2 by left. reflexivity.
  - apply String.eqb_neq in E. simpl. rewrite IH.
    destruct (bool_decide (k ∈ keys m)) eqn:Hin.
    + apply bool_decide_eq_true in Hin.
      rewrite bool_decide_eq_true_2 by (by right). reflexivity.
    + apply bool_decide_eq_false in Hin.
      rewrite bool_decide_eq_false_2; [reflexivity|].
      intros H. apply elem_of_cons in H as [H|H]; [congruence|done].
Qed.

Lemma names_fold (cache : list (string * N8nWorkflow)) acc :
  NoDup (keys acc ++ keys cache) ->
  List.fold_left
    (fun names entry => map_set (fst entry) (wf_name (snd entry)) names) cache acc
  = acc ++ ((fun entry => (fst entry, wf_name (snd entry))) <$> cache).
Proof.
  revert acc. induction cache as [|[k wf] cache IH]; intros acc Hnd; simpl.
  - by rewrite app_nil_r.
  - simpl in Hnd. apply NoDup_app in Hnd as (Ha & Hdisj & Hc).
    apply NoDup_cons in Hc as [Hk Hc].
    rewrite map_set_fresh by (intros Hin; apply (Hdisj _ Hin); left).
    rewrite IH.
    + by rewrite <- app_assoc.
    + unfold keys. rewrite fmap_app. simpl. rewrite <- app_assoc. simpl.
      apply NoDup_app. split; [exact Ha|]. split.
      * intros x Hx Hx'. apply (Hdisj x Hx). exact Hx'.
      * by constructor.
Qed.

Lemma map_get_fmap {V W} (f : V -> W) (m : list (string * V)) k :
  map_get ((fun entry => (fst entry, f (snd entry))) <$> m) k = f <$> map_get m k.
Proof.
  induction m as [|[k0 v0] m IH]; simpl; [reflexivity|].
  by destruct (String.eqb k0 k).
Qed.

(** X1.  A [Map] holds each key once.  On such a cache [getWorkflowNames]
    returns the cache itself with every workflow replaced by its name, in
    the same order, and the lookup [workflows.get(id) || id] that the
    formatter makes in it gives what [getWorkflowName(id)] gives: the
    cached name, or the id when the workflow is not cached or its name is
    empty. *)
Theorem getWorkflowNames_agrees_with_getWorkflowName (this : Instance) :
  NoDup (keys (workflowCache this)) ->
  getWorkflowNames this
    = (fun entry => (fst entry, wf_name (snd entry))) <$> workflowCache this /\
  forall workflowId,
    nameOf (getWorkflowNames this) workflowId = getWorkflowName this workflowId.
Proof.
  intros Hnd.
  assert (H : getWorkflowNames this
              = (fun entry => (fst entry, wf_name (snd entry))) <$> workflowCache this).
  { unfold getWorkflowNames. by rewrite names_fold. }
  split; [exact H|]. intros k. unfold nameOf, getWorkflowName.
  rewrite H, map_get_fmap. by destruct (map_get (workflowCache this) k).
Qed.

End WorkflowNames.

Lemma getWorkflowNames_witness :
  NoDup (Names.keys (ExecutionCorrelator.workflowCache Scenario.webhookIndex)) /\
  Names.getWorkflowNames Scenario.webhookIndex = [("W1", "Orchestrator"); ("W2", "Agent")] /\
  Names.nameOf (Names.getWorkflowNames Scenario.webhookIndex) "W2" = "Agent" /\
  Names.nameOf (Names.getWorkflowNames Scenario.webhookIndex) "W9" = "W9".
Proof.
  assert (H : NoDup (Names.keys (ExecutionCorrelator.workflowCache Scenario.webhookIndex))).
  { compute_done. }
  pose proof (getWorkflowNames_agrees_with_getWorkflowName Scenario.webhookIndex H) as [H1 H2].
  split; [exact H|]. split; [exact H1|]. split; [exact (H2 "W2")|exact (H2 "W9")].
Defined.

(** * The invariant of the index *)
Section Consistency.
Import Js N8nClient ExecutionCorrelator Logic Names.
#[local] Open Scope js_scope.

Variable URL_pathname : string -> option string.
Variable client : DataSource.

Lemma extractWebhookPaths_slash workflow path :
  path ∈ extractWebhookPaths workflow -> startsWith path "/" = true.
Proof.
  unfold extractWebhookPaths. destruct (wf_nodes workflow) as [nodes|];
    [|intros H; by apply elem_of_nil in H].
  intros H. apply list_elem_of_In, in_flat_map in H as (node & _ & H).
  destruct (String.eqb (node_type node) _); [|destruct H].
  destruct (node_path node) as [p|]; [|destruct H].
  destruct (negb (String.eqb p "")); [|destruct H].
  destruct H as [<-|[]].
  destruct (startsWith p "/") eqn:E; [exact E|reflexivity].
Qed.

Lemma maintained_refl this o t : maintained this o this t.
Proof. intros Hs. split; [exact Hs|]. split; reflexivity. Qed.

Lemma grown_trans this1 this2 this3 :
  grown this1 this2 -> grown this2 this3 -> grown this1 this3.
Proof.
  intros (_ & Hm1 & Hk1) (Hs & Hm2 & Hk2). split; [exact Hs|]. split; by etrans.
Qed.

#[global] Instance maintained_composable : Composable maintained.
Proof.
  split.
  - intros s. apply maintained_refl.
  - intros s s1 s2 t1 t2 o H1 H2 Hs.
    pose proof (H1 Hs) as Hg. eapply grown_trans; [exact Hg|]. apply H2, Hg.
Qed.

Lemma maintained_request {A} (r : Request) (answer : Error + A) :
  satisfies maintained (request r answer).
Proof. intros s. unfold request. destruct answer; apply maintained_refl. Qed.

(** One iteration of the outer loop of [initialize]. *)
Lemma initialize_step wf this :
  (fullWorkflow <- request (GetWorkflow (wf_id wf)) (getWorkflow client (wf_id wf)) ;;
   modify (fun this =>
     {| webhookMappings := webhookMappings this;
        workflowCache := map_set (wf_id wf) fullWorkflow (workflowCache this) |}) ;;
   for_of (extractWebhookPaths fullWorkflow) (fun path =>
     modify (fun this =>
       {| webhookMappings :=
            webhookMappings this ++
            [{| m_path := path; m_workflowId := wf_id wf; m_workflowName := wf_name wf |}];
          workflowCache := workflowCache this |}))) this
  = match getWorkflow client (wf_id wf) with
    | inl e => (Throw e, this, [Called (GetWorkflow (wf_id wf)) (Some e)])
    | inr fullWorkflow =>
        (Ret tt,
         {| webhookMappings :=
              webhookMappings this ++
              List.map (fun path => {| m_path := path; m_workflowId := wf_id wf;
                                       m_workflowName := wf_name wf |})
                       (extractWebhookPaths fullWorkflow);
            workflowCache := map_set (wf_id wf) fullWorkflow (workflowCache this) |},
         [Called (GetWorkflow (wf_id wf)) None])
    end.
Proof.
  unfold bind at 1, request at 1.
  destruct (getWorkflow client (wf_id wf)) as [e|full]; [reflexivity|].
  unfold bind at 1, modify at 1. by rewrite push_paths.
Qed.

Lemma elem_of_keys_map_set {V} k (v : V) m k' :
  k' ∈ keys (map_set k v m) <-> k' = k \/ k' ∈ keys m.
Proof.
  rewrite keys_map_set. destruct (bool_decide (k ∈ keys m)) eqn:E.
  - apply bool_decide_eq_true in E. split; [by right|]. intros [->|H]; done.
  - rewrite elem_of_app, list_elem_of_singleton. tauto.
Qed.

Lemma maintained_initialize : satisfies maintained (initialize client).
Proof.
  unfold initialize.
  apply satisfies_bind; [apply _|apply maintained_request|]. intros workflows.
  apply satisfies_for_of; [apply _|]. intros wf _ this.
  rewrite initialize_step.
  destruct (getWorkflow client (wf_id wf)) as [e|full];
    [apply maintained_refl|]. intros Hs.
  unfold outcome, final, trace; simpl.
  destruct Hs as [Hnd Hall].
  split; [split|split]; simpl.
  - rewrite keys_map_set. destruct (bool_decide _) eqn:E; [exact Hnd|].
    apply bool_decide_eq_false in E. apply NoDup_app. split; [exact Hnd|].
    split; [|apply NoDup_singleton].
    intros x Hx Hx'. apply list_elem_of_singleton in Hx'. by subst x.
  - apply Forall_app. split.
    + eapply Forall_impl; [exact Hall|]. intros m [Hm Hp]. split; [|exact Hp].
      apply elem_of_keys_map_set. by right.
    + apply Forall_forall. intros m Hm.
      apply list_elem_of_In, in_map_iff in Hm as (path & <- & Hpath). simpl.
      split; [apply elem_of_keys_map_set; by left|].
      apply (extractWebhookPaths_slash full). by apply list_elem_of_In.
  - by eexists.
  - rewrite keys_map_set. destruct (bool_decide _); [done|]. by eexists.
Qed.

Lemma maintained_correlateExecutions fuel rootExecutionId options :
  satisfies maintained
    (correlateExecutions URL_pathname client fuel rootExecutionId options).
Proof.
  unfold correlateExecutions, search.
  apply satisfies_bind; [apply _| |intros; apply satisfies_ret; apply _].
  apply satisfies_bind; [apply _|apply satisfies_get; apply _|]. intros this.
  apply satisfies_bind; [apply _| |].
  - destruct (_ =? _)%nat; [apply maintained_initialize|apply satisfies_ret; apply _].
  - intros _. apply satisfies_bind; [apply _|apply maintained_request|].
    intros rootExecution this'. unfold withSearch.
    destruct (findCorrelatedExecutions _ _ _ _ _ _ _ _ _ _) as [[[[]|e|] s1] t1];
      by apply maintained_refl.
Qed.

(** X2.  On a consistent instance, as the constructor leaves it,
    [initialize] and [correlateExecutions] keep the consistency however
    they end, be it with a
    failure half-way through the workflows: the cache never holds a
    workflow id twice, every mapping names a workflow that is cached and a
    path that starts with a slash, the mappings already there stay a
    prefix of the index, and the cached ids keep their order. *)
Theorem index_stays_consistent (this : Instance) :
  consistent this ->
  grown this (final (initialize client this)) /\
  forall fuel rootExecutionId options,
    grown this
      (final (correlateExecutions URL_pathname client fuel rootExecutionId options this)).
Proof.
  intros Hs. split.
  - exact (maintained_initialize this Hs).
  - intros fuel rootExecutionId options.
    exact (maintained_correlateExecutions fuel rootExecutionId options this Hs).
Qed.

End Consistency.

Lemma index_consistency_witness :
  Names.consistent ExecutionCorrelator.newInstance /\
  Names.grown ExecutionCorrelator.newInstance Scenario.webhookIndex /\
  Logic.final (ExecutionCorrelator.initialize Scenario.webhookSource
                 ExecutionCorrelator.newInstance) = Scenario.webhookIndex.
Proof.
  assert (H : Names.consistent ExecutionCorrelator.newInstance)
    by (split; constructor).
  split; [exact H|]. split; [|reflexivity].
  exact (proj1 (index_stays_consistent Scenario.pathname Scenario.webhookSource
                  ExecutionCorrelator.newInstance H)).
Defined.

(** * A finer rule for [expand]

    The requests of [expand] are listings of ten or of five executions,
    and the accepting branch runs only for a candidate near the execution
    that is expanded. *)
Section ExpandNear.
Import Js N8nClient ExecutionCorrelator Logic Shape Timing.
#[local] Open Scope js_scope.

Variable URL_pathname : string -> option string.
Variable client : DataSource.
Variable this : Instance.
Variables timeWindowMs maxDepth : Z.

Lemma bind_ret_l {S A B} (a : A) (k : A -> M S B) s : bind (ret a) k s = k a s.
Proof. unfold bind, ret. by destruct (k a s) as [[o s2] t2]. Qed.

Lemma valid_time_Some t : valid_time t = true -> exists a, t = Some a.
Proof. destruct t as [a|]; [by exists a|discriminate]. Qed.

Lemma near_webhook execution candidate a :
  startedAt execution = Some a ->
  num_lt (startedAt candidate) (num_sub (startedAt execution) 1000)
  || num_gt (startedAt candidate) (num_add (startedAt execution) timeWindowMs) = false ->
  near timeWindowMs execution candidate = true.
Proof.
  unfold near. intros -> H. destruct (startedAt candidate) as [b|]; [|reflexivity].
  apply orb_false_iff in H as [H1 H2]. unfold num_gt in H2. simpl in *. lia.
Qed.

Lemma near_subWorkflow execution candidate a :
  startedAt execution = Some a ->
  num_lt (startedAt candidate) (startedAt execution)
  || num_gt (startedAt candidate) (num_add (startedAt execution) timeWindowMs) = false ->
  near timeWindowMs execution candidate = true.
Proof.
  unfold near. intros -> H. destruct (startedAt candidate) as [b|]; [|reflexivity].
  apply orb_false_iff in H as [H1 H2]. unfold num_gt in H2. simpl in *. lia.
Qed.

Lemma expand_near (R : Summary Search) `{!Composable R} recurse execution p d :
  (forall workflowId' limit (answer : Error + list N8nExecution),
      limit = 10 \/ limit = 5 ->
      satisfies R (request (ListExecutions workflowId' limit) answer)) ->
  (forall e, e = RangeError \/ e = TypeError -> satisfies R (@throw Search unit e)) ->
  (forall c cf m,
      near timeWindowMs execution c = true ->
      forall s,
      let run := accept recurse c p cf m d s in
      R s (erase (outcome run)) (final run) (trace run)) ->
  satisfies R (expand URL_pathname client this timeWindowMs recurse execution p d).
Proof.
  intros Hreq Hthrow Haccept s. unfold expand, toISOString.
  destruct (valid_time (num_sub (startedAt execution) 1000)) eqn:Hv1;
    [|apply (Hthrow RangeError); by left].
  rewrite bind_ret_l.
  destruct (valid_time (num_add (startedAt execution) timeWindowMs)) eqn:Hv2;
    [|apply (Hthrow RangeError); by left].
  rewrite bind_ret_l.
  apply valid_time_Some in Hv1 as [a1 Ha1].
  assert (Ha : exists a, startedAt execution = Some a).
  { destruct (startedAt execution) as [a|]; [by exists a|discriminate]. }
  destruct Ha as [a Ha]. clear a1 Ha1 Hv2. revert s.
  assert (Hlist : forall workflowId' limit (body : N8nExecution -> M Search unit),
             limit = 10 \/ limit = 5 ->
             (forall c, satisfies R (body c)) ->
             satisfies R
               (candidates <- request (ListExecutions workflowId' limit)
                                (listExecutions client workflowId' limit) ;;
                for_of candidates body)).
  { intros wid limit body Hl Hbody.
    apply satisfies_bind; [apply _|by apply Hreq|]. intros candidates.
    apply satisfies_for_of; [apply _|]. intros c _. apply Hbody. }
  apply satisfies_bind; [apply _| |].
  - apply satisfies_for_of; [apply _|]. intros httpCall _. unfold webhookCall.
    destruct (findWorkflowByWebhook _ _ _) as [e|[mapping|]] eqn:E.
    + apply Hthrow. right. by apply findWorkflowByWebhook_error in E.
    + apply Hlist; [by left|]. intros c s.
      unfold webhookCandidate, bind, get.
      destruct (bool_decide (id c ∈ visited s)); [apply comp_ret|].
      destruct (_ || _) eqn:Hw; [apply comp_ret|].
      destruct (PrimFloat.ltb 0.5 _); [|apply comp_ret].
      pose proof (near_webhook execution c a Ha Hw) as Hn.
      match goal with
      | |- context [accept recurse c p ?cf ?m d s] =>
          pose proof (Haccept c cf m Hn s) as H
      end.
      simpl in H. destruct (accept _ _ _ _ _ _ s) as [[o s1] t1]. exact H.
    + by apply satisfies_ret.
  - intros _. apply satisfies_for_of; [apply _|]. intros wid _. unfold subWorkflow.
    destruct (String.eqb _ _); [by apply satisfies_ret|].
    apply Hlist; [by right|]. intros c s.
    unfold subWorkflowCandidate, bind, get.
    destruct (bool_decide (id c ∈ visited s)); [apply comp_ret|].
    destruct (_ || _) eqn:Hw; [apply comp_ret|].
    destruct (scoreSubWorkflow _ _ _ _) as [cf methods].
    destruct (PrimFloat.ltb 0.5 cf); [|apply comp_ret].
    pose proof (Haccept c cf (join "+" methods) (near_subWorkflow execution c a Ha Hw) s)
      as H.
    simpl in H. destruct (accept _ _ _ _ _ _ s) as [[o s1] t1]. exact H.
Qed.

End ExpandNear.

(** * Every result lies near its parent, which precedes it *)
Section ResultsInTime.
Import Js N8nClient ExecutionCorrelator Logic Shape Timing.
#[local] Open Scope js_scope.

Variable URL_pathname : string -> option string.
Variable client : DataSource.

Lemma linked_weaken timeWindowMs parents parents' rs :
  parents ⊆ parents' ->
  linked timeWindowMs parents rs -> linked timeWindowMs parents' rs.
Proof.
  revert parents parents'. induction rs as [|r rs IH]; intros ps ps' Hsub; [done|].
  simpl. intros [(parent & Hin & Hn) Hl]. split.
  - exists parent. split; [by apply Hsub|exact Hn].
  - apply (IH ((id (execution r), execution r) :: ps)); [|exact Hl].
    intros x Hx. apply elem_of_cons in Hx as [->|Hx]; [left|right; by apply Hsub].
Qed.

Lemma linked_app timeWindowMs parents rs1 rs2 :
  linked timeWindowMs parents rs1 -> linked timeWindowMs parents rs2 ->
  linked timeWindowMs parents (rs1 ++ rs2).
Proof.
  revert parents. induction rs1 as [|r rs1 IH]; intros ps H1 H2; [exact H2|].
  simpl in *. destruct H1 as [Hp Hl]. split; [exact Hp|].
  apply IH; [exact Hl|]. eapply linked_weaken; [|exact H2].
  intros x Hx. by right.
Qed.

#[global] Instance timed_composable timeWindowMs execution p :
  Composable (timed timeWindowMs execution p).
Proof.
  split.
  - intros s. exists []. by rewrite app_nil_r.
  - intros s s1 s2 t1 t2 o (a1 & Hr1 & Hl1) (a2 & Hr2 & Hl2).
    exists (a1 ++ a2). split; [by rewrite Hr2, Hr1, app_assoc|].
    by apply linked_app.
Qed.

Lemma timed_same timeWindowMs execution p s o t : timed timeWindowMs execution p s o s t.
Proof. exists []. by rewrite app_nil_r. Qed.

Lemma findCorrelatedExecutions_timed this timeWindowMs maxDepth fuel :
  forall execution p d,
    satisfies (timed timeWindowMs execution p)
      (findCorrelatedExecutions URL_pathname client this timeWindowMs maxDepth
         fuel execution p d).
Proof.
  induction fuel as [|fuel IH]; intros execution p d s.
  - apply timed_same.
  - rewrite findCorrelatedExecutions_S.
    destruct (d >=? maxDepth) eqn:Hd; [apply timed_same|].
    pose proof (expand_near URL_pathname client this timeWindowMs
                  (timed timeWindowMs execution p)
                  (findCorrelatedExecutions URL_pathname client this timeWindowMs
                     maxDepth fuel) execution p d) as H.
    match type of H with
    | ?A -> ?B -> ?C -> _ => assert (HA : A); [|assert (HB : B); [|assert (HC : C)]]
    end.
    + intros wid limit answer _ s'. unfold request. destruct answer; apply timed_same.
    + intros e _ s'. apply timed_same.
    + intros c cf m Hn s'. unfold accept, bind, modify.
      set (r := {| execution := c; parentId := p; confidence := cf; method := m |}).
      pose proof (IH c (id c) (d + 1) (record r s')) as Hr.
      destruct (findCorrelatedExecutions _ _ _ _ _ _ _ _ _ _) as [[o s1] t1].
      destruct Hr as (added & Hres & Hl). unfold outcome, final, trace in *.
      simpl in *. exists (r :: added). split; [by rewrite Hres, <- app_assoc|].
      simpl. split.
      * exists execution. split; [left|exact Hn].
      * eapply linked_weaken; [|exact Hl].
        intros x Hx. apply list_elem_of_singleton in Hx as ->. left.
    + specialize (H HA HB HC s).
      destruct (expand _ _ _ _ _ _ _ _ s) as [[o s1] t1]. exact H.
Qed.

Lemma linked_split timeWindowMs parents rs pre r post :
  linked timeWindowMs parents rs -> rs = pre ++ r :: post ->
  exists parent,
    near timeWindowMs parent (execution r) = true /\
    ((parentId r, parent) ∈ parents \/
     exists r', r' ∈ pre /\ parent = execution r' /\ parentId r = id (execution r')).
Proof.
  revert parents rs. induction pre as [|r0 pre IH]; intros ps rs Hl ->; simpl in Hl.
  - destruct Hl as [(parent & Hin & Hn) _]. exists parent. split; [exact Hn|by left].
  - destruct Hl as [_ Hl].
    destruct (IH _ _ Hl eq_refl) as (parent & Hn & [Hin|(r' & Hr' & Hp & Hid)]).
    + exists parent. split; [exact Hn|].
      apply elem_of_cons in Hin as [Heq|Hin]; [|by left].
      right. exists r0. injection Heq as Hk ->. split; [left|]. by split.
    + exists parent. split; [exact Hn|]. right. exists r'. split; [by right|]. by split.
Qed.

(** X3.  In every list of results that [correlateExecutions] returns,
    each result names as its parent the root or a result that stands
    before it in the list.  The parent's start is a date, and the result's
    own start either is not a date or lies no more than one second before
    the parent's start and no more than [timeWindowMs] after it. *)
Theorem results_lie_near_their_parents
    (fuel : nat) (rootExecutionId : string) (options : Options)
    (this this' : Instance) (rs : list CorrelationResult) (t : list Event) :
  correlateExecutions URL_pathname client fuel rootExecutionId options this
    = (Ret rs, this', t) ->
  exists rootExecution,
    getExecution client rootExecutionId = inr rootExecution /\
    forall pre r post, rs = pre ++ r :: post ->
      exists parent,
        near (default 30000 (opt_timeWindowMs options)) parent (execution r) = true /\
        ((parentId r = rootExecutionId /\ parent = rootExecution) \/
         exists r', r' ∈ pre /\ parent = execution r' /\ parentId r = id (execution r')).
Proof.
  intros H. apply correlateExecutions_Ret_inv in H as (final & H & ->).
  apply search_Ret_inv in H as (rootExecution & t0 & t1 & Hroot & _ & _ & Hrun).
  exists rootExecution. split; [exact Hroot|]. intros pre r post Hrs.
  pose proof (findCorrelatedExecutions_timed this'
                (default 30000 (opt_timeWindowMs options))
                (default 5 (opt_maxDepth options)) fuel rootExecution
                rootExecutionId 0 (freshSearch rootExecutionId)) as Ht.
  rewrite Hrun in Ht. destruct Ht as (added & Hres & Hl). simpl in Hres.
  unfold Logic.final in Hres. simpl in Hres. subst added.
  destruct (linked_split _ _ _ _ _ _ Hl Hrs) as (parent & Hn & [Hin|Hr']).
  - exists parent. split; [exact Hn|]. left.
    apply list_elem_of_singleton in Hin. by injection Hin as -> ->.
  - exists parent. split; [exact Hn|]. by right.
Qed.

End ResultsInTime.

Lemma results_in_time_witness :
  ExecutionCorrelator.correlateExecutions Scenario.pathname Scenario.mutualSource 6 "a1"
    Scenario.defaults ExecutionCorrelator.newInstance
  = (ExecutionCorrelator.Ret Scenario.mutualResults, Scenario.mutualIndex,
     Scenario.mutualTrace) /\
  Timing.near 30000 Scenario.b1 Scenario.a2 = true /\
  exists rootExecution,
    N8nClient.getExecution Scenario.mutualSource "a1" = inr rootExecution /\
    forall pre r post, Scenario.mutualResults = pre ++ r :: post ->
      exists parent,
        Timing.near 30000 parent (ExecutionCorrelator.execution r) = true /\
        ((ExecutionCorrelator.parentId r = "a1" /\ parent = rootExecution) \/
         exists r', r' ∈ pre /\ parent = ExecutionCorrelator.execution r' /\
                    ExecutionCorrelator.parentId r
                    = N8nClient.id (ExecutionCorrelator.execution r')).
Proof.
  assert (H : ExecutionCorrelator.correlateExecutions Scenario.pathname
                Scenario.mutualSource 6 "a1" Scenario.defaults
                ExecutionCorrelator.newInstance
              = (ExecutionCorrelator.Ret Scenario.mutualResults, Scenario.mutualIndex,
                 Scenario.mutualTrace)) by (vm_compute; reflexivity).
  split; [exact H|]. split; [reflexivity|].
  exact (results_lie_near_their_parents Scenario.pathname Scenario.mutualSource
           _ _ _ _ _ _ _ H).
Defined.

(** * The requests of a search *)
Section Requests.
Import Js N8nClient ExecutionCorrelator Logic Shape Protocol.
#[local] Open Scope js_scope.

Variable URL_pathname : string -> option string.
Variable client : DataSource.

#[global] Instance only_composable {S} (p : Event -> bool) : Composable (@only p S).
Proof.
  split; [reflexivity|]. unfold only. intros s s1 s2 t1 t2 o H1 H2.
  by rewrite forallb_app, H1, H2.
Qed.

Lemma only_request {S A} (p : Event -> bool) (r : Request) (answer : Error + A) :
  (forall failure, p (Called r failure) = true) ->
  satisfies (@only p S) (request r answer).
Proof.
  intros Hp s. unfold request, only. destruct answer; simpl; by rewrite Hp.
Qed.

Lemma only_silent {S A} (p : Event -> bool) (m : M S A) :
  (forall s, trace (m s) = []) -> satisfies (only p) m.
Proof. intros H s. unfold only. by rewrite H. Qed.

Lemma indexing_initialize : satisfies (only indexing) (initialize client).
Proof.
  unfold initialize.
  apply satisfies_bind; [apply _|by apply only_request|]. intros workflows.
  apply satisfies_for_of; [apply _|]. intros wf _.
  apply satisfies_bind; [apply _|by apply only_request|]. intros full.
  apply satisfies_bind; [apply _|by apply only_silent|]. intros _.
  apply satisfies_for_of; [apply _|]. intros path _. by apply only_silent.
Qed.

Lemma listing_findCorrelatedExecutions this timeWindowMs maxDepth fuel :
  forall execution p d,
    satisfies (only listing)
      (findCorrelatedExecutions URL_pathname client this timeWindowMs maxDepth
         fuel execution p d).
Proof.
  induction fuel as [|fuel IH]; intros execution p d s.
  - reflexivity.
  - rewrite findCorrelatedExecutions_S.
    destruct (d >=? maxDepth) eqn:Hd; [reflexivity|].
    pose proof (expand_near URL_pathname client this timeWindowMs (only listing)
                  (findCorrelatedExecutions URL_pathname client this timeWindowMs
                     maxDepth fuel) execution p d) as H.
    match type of H with
    | ?A -> ?B -> ?C -> _ => assert (HA : A); [|assert (HB : B); [|assert (HC : C)]]
    end.
    + intros wid limit answer Hl. apply only_request. intros failure. simpl.
      destruct Hl as [-> | ->]; reflexivity.
    + intros e _. by apply only_silent.
    + intros c cf m _ s'. unfold accept, bind, modify.
      pose proof (IH c (id c) (d + 1)
                    (record {| execution := c; parentId := p; confidence := cf;
                               method := m |} s')) as Hr.
      destruct (findCorrelatedExecutions _ _ _ _ _ _ _ _ _ _) as [[o s1] t1].
      exact Hr.
    + specialize (H HA HB HC s).
      destruct (expand _ _ _ _ _ _ _ _ s) as [[o s1] t1]. exact H.
Qed.

(** X4.  However a call of [correlateExecutions] ends, its requests come
    in this order: the requests of [initialize] (the listing of the active
    workflows and fetches of workflows), and none at all when the index
    already holds a mapping; then one fetch of the root execution; then
    nothing but listings of executions, of ten for a webhook target and of
    five for a sub-workflow.  No execution other than the root is ever
    fetched by its id and no workflow is fetched during the search. *)
Theorem requests_come_in_order
    (fuel : nat) (rootExecutionId : string) (options : Options) (this : Instance) :
  let run := correlateExecutions URL_pathname client fuel rootExecutionId options this in
  exists index rest,
    trace run = index ++ rest /\
    forallb indexing index = true /\
    (webhookMappings this <> [] -> index = []) /\
    (rest = [] \/
     exists failure body,
       rest = Called (GetExecution rootExecutionId) failure :: body /\
       forallb listing body = true).
Proof.
  intros run. subst run. rewrite correlateExecutions_search.
  unfold search, bind, get, request, withSearch.
  pose proof (indexing_initialize this) as Hinit.
  assert (Hindex : forall o this1 t0,
             (if (length (webhookMappings this) =? 0)%nat
              then initialize client else ret tt) this = (o, this1, t0) ->
             forallb indexing t0 = true /\ (webhookMappings this <> [] -> t0 = [])).
  { intros o this1 t0. destruct (webhookMappings this) as [|m ms]; simpl.
    - intros E. rewrite E in Hinit. split; [exact Hinit|done].
    - intros [= <- <- <-]. by split. }
  destruct ((if (length (webhookMappings this) =? 0)%nat
             then initialize client else ret tt) this) as [[o this1] t0] eqn:E.
  destruct (Hindex _ _ _ eq_refl) as [Ht0 Hnone].
  destruct o as [[]|e|].
  - destruct (getExecution client rootExecutionId) as [e|rootExecution].
    + exists t0, [Called (GetExecution rootExecutionId) (Some e)]. simpl.
      split; [reflexivity|]. split; [exact Ht0|]. split; [exact Hnone|].
      right. by exists (Some e), [].
    + pose proof (listing_findCorrelatedExecutions this1
                    (default 30000 (opt_timeWindowMs options))
                    (default 5 (opt_maxDepth options)) fuel rootExecution
                    rootExecutionId 0
                    {| results := []; visited := {[ rootExecutionId ]} |}) as Hl.
      destruct (findCorrelatedExecutions _ _ _ _ _ _ _ _ _ _) as [[[[]|e|] s1] t1];
        exists t0, (Called (GetExecution rootExecutionId) None :: t1); simpl;
        (split; [reflexivity|]); (split; [exact Ht0|]); (split; [exact Hnone|]);
        right; by exists None, t1.
  - exists t0, []. simpl. rewrite app_nil_r. by repeat split; try left.
  - exists t0, []. simpl. rewrite app_nil_r. by repeat split; try left.
Qed.

End Requests.

(** * Which signals carry a candidate over the threshold *)
Section Signals.
Import Js N8nClient ExecutionCorrelator Logic Shape Acceptance.
#[local] Open Scope js_scope.

Lemma subWorkflow_threshold execStart candidateStart userContext candidateContext :
  PrimFloat.ltb 0.5
    (fst (scoreSubWorkflow execStart candidateStart userContext candidateContext))
  = subWorkflowSignals execStart candidateStart userContext candidateContext.
Proof.
  unfold scoreSubWorkflow, subWorkflowSignals, within, num_below, num_lt.
  generalize (sameId (userId userContext) (userId candidateContext)).
  generalize (sameId (chatId userContext) (chatId candidateContext)).
  intros chat user.
  destruct (num_abs_diff candidateStart execStart) as [ms|].
  - destruct (ms <? 2000) eqn:H2; destruct (ms <? 5000) eqn:H5; try lia;
      destruct user, chat; vm_compute; reflexivity.
  - destruct user, chat; vm_compute; reflexivity.
Qed.

Lemma webhook_threshold parent candidate parentContext httpCall :
  PrimFloat.ltb 0.5
    (score_confidence (scoreCorrelation parent candidate parentContext httpCall))
  = webhookSignalsSuffice candidate parentContext httpCall.
Proof.
  unfold scoreCorrelation, webhookSignals, webhookSignalsSuffice, within,
    num_below, num_lt.
  generalize (sameId (userId parentContext) (userId (extractUserContext candidate))).
  generalize (sameId (chatId parentContext) (chatId (extractUserContext candidate))).
  generalize (sameId (correlationId parentContext)
                (correlationId (extractUserContext candidate))).
  generalize (samePattern (responseId parentContext)
                (responseId (extractUserContext candidate))).
  intros resp corr chat user.
  destruct (num_abs_diff (startedAt candidate) (Some (call_timestamp httpCall)))
    as [ms|].
  - destruct (ms <? 500) eqn:H1; destruct (ms <? 2000) eqn:H2;
      destruct (ms <? 5000) eqn:H5; try lia;
      destruct user, chat, corr, resp; vm_compute; reflexivity.
  - destruct user, chat, corr, resp; vm_compute; reflexivity.
Qed.

Variable URL_pathname : string -> option string.
Variable client : DataSource.

(** X5.  The sub-workflow pass records a candidate that is neither visited
    nor outside the window exactly when the user id matches together with
    the chat id or with a start less than five seconds from the parent's,
    or the chat id matches and the start is less than two seconds away.
    Closeness in time alone never suffices, and a chat id that matches
    between two and five seconds away gives exactly 0.5 and is rejected. *)
Theorem subWorkflow_pass_accepts_on
    (this : Instance) (timeWindowMs maxDepth : Z) (fuel : nat)
    (p : string) (d : Z) (execStart : num) (userContext : UserContext)
    (candidate : N8nExecution) (s : Search) :
  id candidate ∉ visited s ->
  num_lt (startedAt candidate) execStart
    || num_gt (startedAt candidate) (num_add execStart timeWindowMs) = false ->
  let sum := scoreSubWorkflow execStart (startedAt candidate) userContext
               (extractUserContext candidate) in
  let run := subWorkflowCandidate timeWindowMs
               (findCorrelatedExecutions URL_pathname client this timeWindowMs
                  maxDepth fuel) p d execStart userContext candidate s in
  PrimFloat.ltb 0.5 (fst sum)
    = subWorkflowSignals execStart (startedAt candidate) userContext
        (extractUserContext candidate) /\
  if subWorkflowSignals execStart (startedAt candidate) userContext
       (extractUserContext candidate)
  then accepted run s {| execution := candidate; parentId := p; confidence := fst sum;
                         method := join "+" (snd sum) |}
  else skipped run s.
Proof.
  intros Hv Hw sum run.
  pose proof (subWorkflow_threshold execStart (startedAt candidate) userContext
                (extractUserContext candidate)) as Ht.
  split; [exact Ht|].
  destruct (subWorkflowCandidate_threshold URL_pathname client this timeWindowMs
              maxDepth fuel p d execStart userContext candidate s Hv Hw) as [Hyes Hno].
  fold sum in Ht. rewrite <- Ht.
  destruct (PrimFloat.ltb 0.5 (fst sum)) eqn:E; [by apply Hyes|by apply Hno].
Qed.

(** X6.  The webhook pass records a candidate that is neither visited nor
    outside the window exactly when the correlation id matches, or the
    user id matches, or the candidate starts less than 500 ms from the
    call, or two weaker signals meet: a start less than two seconds away
    with a chat id or response pattern match, a start less than five
    seconds away with a chat id match, or a chat id match with a response
    pattern match.  The URL match alone never suffices, nor does it with a
    start between half a second and two seconds away, which gives exactly
    0.5. *)
Theorem webhook_pass_accepts_on
    (this : Instance) (timeWindowMs maxDepth : Z) (fuel : nat)
    (execution : N8nExecution) (p : string) (d : Z) (execStart : num)
    (userContext : UserContext) (httpCall : HttpCall)
    (candidate : N8nExecution) (s : Search) :
  id candidate ∉ visited s ->
  num_lt (startedAt candidate) (num_sub execStart 1000)
    || num_gt (startedAt candidate) (num_add execStart timeWindowMs) = false ->
  let score := scoreCorrelation execution candidate userContext httpCall in
  let run := webhookCandidate timeWindowMs
               (findCorrelatedExecutions URL_pathname client this timeWindowMs
                  maxDepth fuel) execution p d execStart
               userContext httpCall candidate s in
  PrimFloat.ltb 0.5 (score_confidence score)
    = webhookSignalsSuffice candidate userContext httpCall /\
  if webhookSignalsSuffice candidate userContext httpCall
  then accepted run s {| execution := candidate; parentId := p;
                         confidence := score_confidence score;
                         method := score_method score |}
  else skipped run s.
Proof.
  intros Hv Hw score run.
  pose proof (webhook_threshold execution candidate userContext httpCall) as Ht.
  split; [exact Ht|].
  destruct (webhookCandidate_threshold URL_pathname client this timeWindowMs
              maxDepth fuel execution p d execStart userContext httpCall candidate s
              Hv Hw) as [Hyes Hno].
  fold score in Ht. rewrite <- Ht. subst score. unfold scoreCorrelation in *.
  destruct (webhookSignals candidate userContext httpCall) as [x methods].
  cbn [score_confidence score_method fst snd] in *.
  destruct (PrimFloat.ltb 0.5 (Math_min x 1)) eqn:E; [by apply Hyes|by apply Hno].
Qed.

End Signals.

(** The first candidate of the scenario of the two mutual workflows: same
    user, same instant. *)
Lemma subWorkflow_pass_witness :
  let s := Shape.freshSearch "a1" in
  let context := N8nClient.extractUserContext Scenario.a1 in
  let run := ExecutionCorrelator.subWorkflowCandidate 30000
               (ExecutionCorrelator.findCorrelatedExecutions Scenario.pathname
                  Scenario.mutualSource Scenario.mutualIndex 30000 5 5)
               "a1" 0 (N8nClient.startedAt Scenario.a1) context Scenario.b1 s in
  ((N8nClient.id Scenario.b1 ∉ ExecutionCorrelator.visited s) /\
   Acceptance.subWorkflowSignals (N8nClient.startedAt Scenario.a1)
     (N8nClient.startedAt Scenario.b1) context
     (N8nClient.extractUserContext Scenario.b1) = true) /\
  Shape.accepted run s (Scenario.mutualResult Scenario.b1 "a1").
Proof.
  intros s context run.
  assert (Hv : N8nClient.id Scenario.b1 ∉ ExecutionCorrelator.visited s).
  { unfold s, Shape.freshSearch. simpl. set_solver. }
  assert (Hs : Acceptance.subWorkflowSignals (N8nClient.startedAt Scenario.a1)
                 (N8nClient.startedAt Scenario.b1) context
                 (N8nClient.extractUserContext Scenario.b1) = true)
    by (vm_compute; reflexivity).
  split; [split; [exact Hv|exact Hs]|].
  pose proof (subWorkflow_pass_accepts_on Scenario.pathname Scenario.mutualSource
                Scenario.mutualIndex 30000 5 5%nat "a1" 0
                (N8nClient.startedAt Scenario.a1) context Scenario.b1 s
                Hv eq_refl) as H.
  cbv zeta in H. destruct H as [_ H]. rewrite Hs in H. exact H.
Defined.

(** The candidate of the scenario of the specification: the user id
    matches and the start is 300 ms after the call. *)
Lemma webhook_pass_witness :
  let s := Shape.freshSearch "1001" in
  let context := N8nClient.extractUserContext Scenario.orchestratorRun in
  let run := ExecutionCorrelator.webhookCandidate 30000
               (ExecutionCorrelator.findCorrelatedExecutions Scenario.pathname
                  Scenario.webhookSource Scenario.webhookIndex 30000 5 5)
               Scenario.orchestratorRun "1001" 0
               (N8nClient.startedAt Scenario.orchestratorRun) context
               Scenario.agentHttpCall Scenario.agentRun s in
  ((N8nClient.id Scenario.agentRun ∉ ExecutionCorrelator.visited s) /\
   Acceptance.webhookSignalsSuffice Scenario.agentRun context Scenario.agentHttpCall
   = true) /\
  Shape.accepted run s Scenario.agentResult.
Proof.
  intros s context run.
  assert (Hv : N8nClient.id Scenario.agentRun ∉ ExecutionCorrelator.visited s).
  { unfold s, Shape.freshSearch. simpl. set_solver. }
  assert (Hs : Acceptance.webhookSignalsSuffice Scenario.agentRun context
                 Scenario.agentHttpCall = true)
    by (vm_compute; reflexivity).
  split; [split; [exact Hv|exact Hs]|].
  pose proof (webhook_pass_accepts_on Scenario.pathname Scenario.webhookSource
                Scenario.webhookIndex 30000 5 5%nat Scenario.orchestratorRun
                "1001" 0 (N8nClient.startedAt Scenario.orchestratorRun) context
                Scenario.agentHttpCall Scenario.agentRun s Hv eq_refl) as H.
  cbv zeta in H. destruct H as [_ H]. rewrite Hs in H. exact H.
Defined.

(** * From a webhook node to the mapping a call resolves to *)
Section Resolution.
Import Js N8nClient ExecutionCorrelator Index.

Variable URL_pathname : string -> option string.

Lemma strip_prefix_self p s : strip_prefix p (p +:+ s) = Some s.
Proof. induction p as [|a p IH]; simpl; [reflexivity|]. by rewrite Ascii.eqb_refl. Qed.

Lemma includes_refl s : includes s s = true.
Proof.
  assert (H : startsWith s s = true).
  { unfold startsWith. induction s as [|a s IH]; simpl; [reflexivity|].
    by rewrite Ascii.eqb_refl. }
  destruct s; simpl; [reflexivity|]. by rewrite H.
Qed.

Lemma normalizePath_webhook path :
  normalizePath ("/webhook" +:+ path) = replace_prefix "/" path.
Proof.
  unfold normalizePath, replace_prefix at 2. by rewrite (strip_prefix_self "/webhook" path).
Qed.

Lemma find_finds {A} (f : A -> bool) (l : list A) x :
  x ∈ l -> f x = true -> exists y, List.find f l = Some y /\ y ∈ l /\ f y = true.
Proof.
  intros Hin Hf. destruct (List.find f l) as [y|] eqn:E.
  - apply find_some in E as [Hy Hfy]. exists y.
    split; [reflexivity|]. split; [by apply list_elem_of_In|exact Hfy].
  - apply list_elem_of_In in Hin. pose proof (find_none f l E x Hin). congruence.
Qed.

Lemma extractWebhookPaths_of_node workflow nodes node path :
  wf_nodes workflow = Some nodes -> node ∈ nodes ->
  node_type node = "n8n-nodes-base.webhook" ->
  node_path node = Some path -> path <> "" ->
  (if startsWith path "/" then path else "/" +:+ path) ∈ extractWebhookPaths workflow.
Proof.
  intros Hn Hin Ht Hp Hne. unfold extractWebhookPaths. rewrite Hn.
  apply list_elem_of_In, in_flat_map. exists node.
  split; [by apply list_elem_of_In|].
  rewrite Ht, Hp. simpl. apply String.eqb_neq in Hne. rewrite Hne. by left.
Qed.

Lemma find_first {A} (f : A -> bool) (l : list A) x :
  x ∈ l -> f x = true ->
  exists pre y post,
    l = pre ++ y :: post /\ List.find f l = Some y /\ f y = true /\
    Forall (fun z => f z = false) pre /\ (y = x \/ x ∈ post).
Proof.
  induction l as [|a l IH]; intros Hin Hf; [by apply elem_of_nil in Hin|].
  destruct (f a) eqn:Ha.
  - exists [], a, l. simpl. rewrite Ha. repeat split; [constructor|].
    apply elem_of_cons in Hin as [->|Hin]; [by left|by right].
  - apply elem_of_cons in Hin as [->|Hin]; [congruence|].
    destruct (IH Hin Hf) as (pre & y & post & -> & Hfind & Hy & Hpre & Hx).
    exists (a :: pre), y, post. simpl. rewrite Ha.
    repeat split; [exact Hfind|exact Hy|by constructor|exact Hx].
Qed.

Lemma extractWebhookPaths_inv workflow stored :
  stored ∈ extractWebhookPaths workflow ->
  exists nodes node path,
    wf_nodes workflow = Some nodes /\ node ∈ nodes /\
    node_type node = "n8n-nodes-base.webhook" /\
    node_path node = Some path /\ path <> "" /\
    stored = if startsWith path "/" then path else "/" +:+ path.
Proof.
  unfold extractWebhookPaths. destruct (wf_nodes workflow) as [nodes|];
    [|intros H; by apply elem_of_nil in H].
  intros H. apply list_elem_of_In, in_flat_map in H as (node & Hnode & H).
  destruct (String.eqb (node_type node) "n8n-nodes-base.webhook") eqn:Ht; [|done].
  destruct (node_path node) as [path|] eqn:Hp; [|done].
  destruct (String.eqb path "") eqn:He; [done|]. simpl in H.
  destruct H as [<-|[]]. exists nodes, node, path.
  apply String.eqb_eq in Ht. apply String.eqb_neq in He.
  repeat split; try done. by apply list_elem_of_In.
Qed.

Lemma slash_put_back path :
  let stored := if startsWith path "/" then path else "/" +:+ path in
  stored = "/" +:+ replace_prefix "/" path /\
  replace_prefix "/" stored = replace_prefix "/" path.
Proof.
  destruct path as [|c rest]; [by split|].
  unfold startsWith, replace_prefix. cbn [strip_prefix].
  destruct (Ascii.eqb "/" c) eqn:E.
  - apply Ascii.eqb_eq in E as <-. destruct rest; by split.
  - split; reflexivity.
Qed.

(** X7.  A mapping whose path [extractWebhookPaths] stored for a workflow
    comes from a webhook node of that workflow: its path is the configured
    one with a slash in front when it had none, and what the matcher
    compares is the stored path with that slash taken away again, so the
    configured path without a leading slash.  A call whose URL has the
    path ['/webhook'] followed by the stored path normalizes to exactly
    that, and [findWorkflowByWebhook] resolves it to the first mapping of
    the index that matches: the mapping itself, or one that stands before
    it. *)
Theorem webhook_url_resolves
    (this : Instance) (workflow : N8nWorkflow) (m : WebhookMapping)
    (webhookUrl : string) :
  m ∈ webhookMappings this ->
  m_path m ∈ extractWebhookPaths workflow ->
  webhookPath URL_pathname (JStr webhookUrl) = inr ("/webhook" +:+ m_path m) ->
  let compared := replace_prefix "/" (m_path m) in
  (exists nodes node path,
      wf_nodes workflow = Some nodes /\ node ∈ nodes /\
      node_type node = "n8n-nodes-base.webhook" /\ node_path node = Some path /\
      m_path m = "/" +:+ replace_prefix "/" path /\
      compared = replace_prefix "/" path) /\
  normalizePath ("/webhook" +:+ m_path m) = compared /\
  exists before m' after,
    webhookMappings this = before ++ m' :: after /\
    findWorkflowByWebhook URL_pathname this (JStr webhookUrl) = inr (Some m') /\
    matchesMapping compared m' = true /\
    Forall (fun other => matchesMapping compared other = false) before /\
    (m' = m \/ m ∈ after).
Proof.
  intros Hin Hstored Hpath compared. split; [|split].
  - apply extractWebhookPaths_inv in Hstored
      as (nodes & node & path & Hn & Hnode & Ht & Hp & _ & Hs).
    exists nodes, node, path. destruct (slash_put_back path) as [H1 H2].
    unfold compared. rewrite Hs. by repeat split.
  - apply normalizePath_webhook.
  - unfold findWorkflowByWebhook. rewrite Hpath, normalizePath_webhook.
    destruct (find_first (matchesMapping compared) (webhookMappings this) m Hin)
      as (before & m' & after & Hl & Hf & Hm' & Hbefore & Hm).
    { unfold matchesMapping. by rewrite includes_refl. }
    exists before, m', after. fold compared. by rewrite Hf.
Qed.

(** X8.  A webhook node whose path is the single slash is stored under the
    path ['/'], which the matcher compares as the empty string; the empty
    string is included in every path, so with such a mapping in the index
    [findWorkflowByWebhook] finds a mapping for every URL whatever: that
    one, or an earlier one that matches. *)
Theorem slash_mapping_matches_every_url
    (this : Instance) (m : WebhookMapping) :
  m ∈ webhookMappings this ->
  m_path m = "/" ->
  (forall workflow nodes node,
      wf_nodes workflow = Some nodes -> node ∈ nodes ->
      node_type node = "n8n-nodes-base.webhook" -> node_path node = Some "/" ->
      "/" ∈ extractWebhookPaths workflow) /\
  (forall path, matchesMapping path m = true) /\
  (forall webhookUrl : string,
      exists m', findWorkflowByWebhook URL_pathname this (JStr webhookUrl)
                 = inr (Some m')).
Proof.
  intros Hin Hslash.
  assert (Hall : forall path, matchesMapping path m = true).
  { intros path. unfold matchesMapping. rewrite Hslash.
    change (replace_prefix "/" "/") with "". by rewrite includes_empty. }
  split; [|split; [exact Hall|]].
  - intros workflow nodes node Hn Hnode Ht Hp.
    exact (extractWebhookPaths_of_node workflow nodes node "/" Hn Hnode Ht Hp
             ltac:(discriminate)).
  - intros webhookUrl. unfold findWorkflowByWebhook, webhookPath. simpl.
    destruct (URL_pathname webhookUrl) as [pathname|].
    + destruct (find_finds (matchesMapping (normalizePath pathname))
                  (webhookMappings this) m Hin (Hall _)) as (m' & -> & _).
      by exists m'.
    + destruct (find_finds (matchesMapping (normalizePath webhookUrl))
                  (webhookMappings this) m Hin (Hall _)) as (m' & -> & _).
      by exists m'.
Qed.

End Resolution.

Lemma webhook_url_witness :
  (Scenario.agentMapping ∈ ExecutionCorrelator.webhookMappings Cases.catchAllIndex /\
   ExecutionCorrelator.m_path Scenario.agentMapping
     ∈ N8nClient.extractWebhookPaths Scenario.W2 /\
   ExecutionCorrelator.webhookPath Scenario.pathname (Js.JStr "https://host/webhook/agent")
   = inr ("/webhook" +:+ ExecutionCorrelator.m_path Scenario.agentMapping)) /\
  N8nClient.extractWebhookPaths Scenario.W2 = ["/agent"] /\
  ExecutionCorrelator.findWorkflowByWebhook Scenario.pathname Cases.catchAllIndex
    (Js.JStr "https://host/webhook/agent") = inr (Some Scenario.agentMapping) /\
  exists before m' after,
    ExecutionCorrelator.webhookMappings Cases.catchAllIndex = before ++ m' :: after /\
    ExecutionCorrelator.findWorkflowByWebhook Scenario.pathname Cases.catchAllIndex
      (Js.JStr "https://host/webhook/agent") = inr (Some m') /\
    ExecutionCorrelator.matchesMapping "agent" m' = true /\
    Forall (fun other => ExecutionCorrelator.matchesMapping "agent" other = false) before /\
    (m' = Scenario.agentMapping \/ Scenario.agentMapping ∈ after).
Proof.
  assert (Hin : Scenario.agentMapping
                ∈ ExecutionCorrelator.webhookMappings Cases.catchAllIndex) by left.
  assert (Hs : ExecutionCorrelator.m_path Scenario.agentMapping
               ∈ N8nClient.extractWebhookPaths Scenario.W2) by left.
  assert (Hp : ExecutionCorrelator.webhookPath Scenario.pathname
                 (Js.JStr "https://host/webhook/agent")
               = inr ("/webhook" +:+ ExecutionCorrelator.m_path Scenario.agentMapping))
    by reflexivity.
  split; [by repeat split|]. split; [reflexivity|]. split; [reflexivity|].
  exact (proj2 (proj2 (webhook_url_resolves Scenario.pathname Cases.catchAllIndex
                         Scenario.W2 Scenario.agentMapping
                         "https://host/webhook/agent" Hin Hs Hp))).
Defined.

Lemma slash_mapping_witness :
  (Cases.catchAll ∈ ExecutionCorrelator.webhookMappings Cases.catchAllIndex /\
   ExecutionCorrelator.m_path Cases.catchAll = "/") /\
  ExecutionCorrelator.findWorkflowByWebhook Scenario.pathname Cases.catchAllIndex
    (Js.JStr "https://elsewhere.example/status") = inr (Some Cases.catchAll) /\
  exists m',
    ExecutionCorrelator.findWorkflowByWebhook Scenario.pathname Cases.catchAllIndex
      (Js.JStr "https://host/webhook/agent") = inr (Some m').
Proof.
  assert (Hin : Cases.catchAll ∈ ExecutionCorrelator.webhookMappings Cases.catchAllIndex)
    by (right; left).
  split; [split; [exact Hin|reflexivity]|]. split; [reflexivity|].
  exact (proj2 (proj2 (slash_mapping_matches_every_url Scenario.pathname
                         Cases.catchAllIndex Cases.catchAll Hin eq_refl))
           "https://host/webhook/agent").
Defined.

(** * The HTTP calls read from an execution *)
Section HttpCalls.
Import Js N8nClient ExecutionCorrelator Index Calls.

Lemma callOf_unique nodeName run c c' :
  callOf nodeName run c -> callOf nodeName run c' -> c = c'.
Proof.
  intros (json & items & outputs & Hm & _ & Hn & Ht & Hr & Hut & Hu & Hme)
         (json' & items' & outputs' & Hm' & _ & Hn' & Ht' & Hr' & Hut' & Hu' & Hme').
  rewrite Hm in Hm'. injection Hm' as <- <- <-.
  destruct c as [n u me t r], c' as [n' u' me' t' r']. simpl in *. subst.
  assert (u = u') as ->.
  { destruct Hu as [Hu|[Hf Hu]], Hu' as [Hu'|[Hf' Hu']]; try congruence.
    - rewrite Hu in Hf'. simpl in Hf'. congruence.
    - rewrite Hu' in Hf. simpl in Hf. congruence. }
  assert (me = me') as ->; [|reflexivity].
  destruct Hme as [[Hme Hmt]|[Hf Hme]], Hme' as [[Hme' Hmt']|[Hf' Hme']]; try congruence.
  - rewrite Hme in Hf'. simpl in Hf'. congruence.
  - rewrite Hme' in Hf. simpl in Hf. congruence.
Qed.

Lemma or_else_Some a b v :
  or_else a b = Some v ->
  a = Some v /\ truthy v = true \/ truthy_opt a = false /\ b = Some v.
Proof.
  unfold or_else. destruct (truthy_opt a) eqn:E; intros H; [left|by right].
  rewrite H in E. by split.
Qed.

(** The body of the inner loop (lines 250-269). *)
Lemma run_contributes nodeName run :
  contributes (nodeName, run)
    match mainOutput run with
    | Some json =>
        match or_else (prop json "url") (prop json "requestUrl") with
        | Some url =>
            if truthy url then
              [{| call_nodeName := nodeName; call_url := url;
                  call_method :=
                    match or_else (prop json "method") (Some (JStr "GET")) with
                    | Some m => m
                    | None => JStr "GET"
                    end;
                  call_timestamp := startTime run; call_responseData := json |}]
            else []
        | None => []
        end
    | None => []
    end.
Proof.
  unfold contributes, mainOutput. simpl.
  destruct (run_main run) as [[|[|json items] outputs]|] eqn:Hm;
    try (left; split; [reflexivity|];
         intros c (j & i & o & Hm' & _); rewrite Hm in Hm'; discriminate).
  destruct (truthy json) eqn:Hj.
  2:{ left. split; [reflexivity|]. intros c (j & i & o & Hm' & Hj' & _).
      rewrite Hm in Hm'. injection Hm' as <- <- <-. congruence. }
  destruct (or_else (prop json "url") (prop json "requestUrl")) as [url|] eqn:Hu.
  - destruct (truthy url) eqn:Ht.
    + right. eexists. split; [reflexivity|].
      exists json, items, outputs. simpl. repeat split; try done.
      * destruct (or_else_Some _ _ _ Hu) as [[H _]|H]; [by left|by right].
      * unfold or_else. destruct (truthy_opt (prop json "method")) eqn:E.
        -- destruct (prop json "method") as [m|]; [|discriminate]. by left.
        -- by right.
    + left. split; [reflexivity|].
      intros c (j & i & o & Hm' & _ & _ & _ & _ & Hct & Hcu & _).
      rewrite Hm in Hm'. injection Hm' as <- <- <-.
      destruct (or_else_Some _ _ _ Hu) as [[H Htr]|[Hf H]]; [congruence|].
      destruct Hcu as [Hc|[_ Hc]]; [|congruence].
      rewrite Hc in Hf. simpl in Hf. congruence.
  - left. split; [reflexivity|].
    intros c (j & i & o & Hm' & _ & _ & _ & _ & Hct & Hcu & _).
    rewrite Hm in Hm'. injection Hm' as <- <- <-. unfold or_else in Hu.
    destruct Hcu as [Hc|[Hf Hc]].
    + rewrite Hc in Hu. simpl in Hu. by rewrite Hct in Hu.
    + rewrite Hf in Hu. congruence.
Qed.

Lemma Forall2_map_self {A B} (R : A -> B -> Prop) (h : A -> B) l :
  (forall x, R x (h x)) -> Forall2 R l (List.map h l).
Proof. intros H. induction l; simpl; by constructor. Qed.

(** X9.  [extractHttpCalls] goes through the runs of all nodes in order and
    reports one call for each run whose first output has a truthy first
    item with a truthy [url] or, failing that, a truthy [requestUrl], and
    none for any other run.  The call carries that URL, the [method] of
    the item or ['GET'] when the item has none that is truthy, the name of
    the node, the item itself and, as its timestamp, the start time of the
    run.  An execution without run data has no calls. *)
Theorem extractHttpCalls_reports_runs_with_a_url (execution : N8nExecution) :
  let calls := extractHttpCalls execution in
  (runData execution = None -> calls = []) /\
  (forall entries, runData execution = Some entries ->
     exists perRun,
       calls = concat perRun /\
       Forall2 contributes (runsOf entries) perRun /\
       (length calls <= length (runsOf entries))%nat) /\
  (forall nodeName run c c',
      callOf nodeName run c -> callOf nodeName run c' -> c = c') /\
  (forall nodeName run c json,
      callOf nodeName run c -> prop json "method" = None ->
      call_responseData c = json -> call_method c = JStr "GET").
Proof.
  intros calls. subst calls. unfold extractHttpCalls. split; [by intros ->|].
  split; [|split].
  - intros entries ->.
    set (body := fun entry : string * N8nNodeExecutionData =>
           match mainOutput (snd entry) with
           | Some json =>
               match or_else (prop json "url") (prop json "requestUrl") with
               | Some url =>
                   if truthy url then
                     [{| call_nodeName := fst entry; call_url := url;
                         call_method :=
                           match or_else (prop json "method") (Some (JStr "GET")) with
                           | Some m => m
                           | None => JStr "GET"
                           end;
                         call_timestamp := startTime (snd entry);
                         call_responseData := json |}]
                   else []
               | None => []
               end
           | None => []
           end).
    match goal with
    | |- exists perRun, ?calls = _ /\ _ =>
        assert (Heq : calls = concat (List.map body (runsOf entries)))
    end.
    { unfold runsOf. induction entries as [|[nodeName runs] entries IH];
        [reflexivity|].
      cbn [flat_map fst snd]. rewrite map_app, concat_app, <- IH. f_equal.
      clear IH. induction runs as [|run runs IH]; [reflexivity|].
      cbn [flat_map List.map concat]. rewrite IH. reflexivity. }
    exists (List.map body (runsOf entries)). split; [exact Heq|]. split.
    + apply Forall2_map_self. intros [nodeName run]. apply run_contributes.
    + rewrite Heq.
      assert (Hlen : forall l, Forall (fun cs : list HttpCall => (length cs <= 1)%nat) l ->
                       (length (concat l) <= length l)%nat).
      { induction l as [|cs l IH]; intros H; [simpl; lia|].
        inversion H; subst. simpl. rewrite length_app. specialize (IH ltac:(done)). lia. }
      assert (Hall : Forall (fun cs : list HttpCall => (length cs <= 1)%nat)
                       (List.map body (runsOf entries))).
      { apply Forall_forall. intros cs Hcs. apply list_elem_of_In, in_map_iff in Hcs
          as ([nodeName run] & <- & _).
        destruct (run_contributes nodeName run) as [[H _]|(c & H & _)];
          unfold body; simpl; rewrite H; simpl; lia. }
      pose proof (Hlen _ Hall) as Hle. by rewrite length_map in Hle.
  - apply callOf_unique.
  - intros nodeName run c json (j & i & o & _ & _ & _ & _ & Hr & _ & _ & Hme) Hnone Hjson.
    rewrite Hr in Hjson. subst j.
    destruct Hme as [[Hme _]|[_ Hme]]; [congruence|exact Hme].
Qed.

End HttpCalls.

(** Two runs of one node: the first has two outputs, of two items and of
    one; only the first item of the first output is read, its URL found
    under [requestUrl].  The second run has no URL and gives no call. *)
Lemma extractHttpCalls_witness :
  N8nClient.extractHttpCalls Calls.fanOutRun
  = [{| N8nClient.call_nodeName := "HTTP Request";
        N8nClient.call_url := Js.JStr "https://host/webhook/agent";
        N8nClient.call_method := Js.JStr "POST";
        N8nClient.call_timestamp := 1700000000500;
        N8nClient.call_responseData := Calls.firstItem |}] /\
  exists perRun,
    N8nClient.extractHttpCalls Calls.fanOutRun = concat perRun /\
    Forall2 Calls.contributes (Calls.runsOf Calls.fanOut) perRun /\
    (length (N8nClient.extractHttpCalls Calls.fanOutRun)
     <= length (Calls.runsOf Calls.fanOut))%nat.
Proof.
  split; [reflexivity|].
  exact (proj1 (proj2 (extractHttpCalls_reports_runs_with_a_url Calls.fanOutRun))
           Calls.fanOut eq_refl).
Defined.

(** * The validator *)
Section Validation.
Import Js N8nClient Validator.

Lemma append_inv_head p a b : p +:+ a = p +:+ b -> a = b.
Proof.
  induction p as [|c p IH]; [done|]. intros H.
  change (String c (p +:+ a) = String c (p +:+ b)) in H. injection H as H. by apply IH.
Qed.

Lemma test_all_allowed id : test id = negb (String.eqb id "") && all_allowed id.
Proof. by destruct id. Qed.

Lemma all_allowed_excludes id c :
  all_allowed id = true -> allowed c = false -> includes id (String c "") = false.
Proof.
  intros Hall Hc. induction id as [|a id IH]; [reflexivity|].
  simpl in Hall. apply andb_true_iff in Hall as [Ha Hall].
  cbn [includes]. rewrite (IH Hall), orb_false_r.
  unfold startsWith. cbn [strip_prefix].
  destruct (Ascii.eqb c a) eqn:E; [|reflexivity].
  apply Ascii.eqb_eq in E. congruence.
Qed.

Lemma split_no_separator sep s :
  includes s (String sep "") = false -> split sep s = [s].
Proof.
  induction s as [|a s IH]; [reflexivity|]. cbn [includes split].
  intros H. apply orb_false_iff in H as [H1 H2].
  unfold startsWith in H1. cbn [strip_prefix] in H1.
  rewrite Ascii.eqb_sym. destruct (Ascii.eqb sep a); [discriminate|].
  by rewrite (IH H2).
Qed.

Lemma validateId_inr id idType :
  validateId id idType = inr tt <->
  (1 <= String.length id <= 100)%nat /\ all_allowed id = true.
Proof.
  unfold validateId. rewrite test_all_allowed.
  destruct (all_allowed id) eqn:Hall.
  2: { rewrite andb_false_r. cbn [negb].
       split; [discriminate|intros [_ ?]; discriminate]. }
  rewrite andb_true_r.
  destruct (String.eqb id "") eqn:He; cbn [negb].
  - apply String.eqb_eq in He as ->. split; [discriminate|]. cbn. lia.
  - apply String.eqb_neq in He.
    assert (String.length id <> 0)%nat by (by destruct id).
    destruct (Nat.ltb_spec 100 (String.length id)).
    + split; [discriminate|lia].
    + destruct (Nat.eqb_spec (String.length id) 0); [lia|].
      split; [intros _; split; [lia|done]|done].
Qed.

(** X10.  [validateExecutionId] and [validateWorkflowId] accept an id
    exactly when it has between 1 and 100 characters, each of them a
    letter, a digit, an underscore or a hyphen, and return it as it is.
    An accepted id holds no character outside that class: no slash, no
    dot, no question mark, no percent sign. *)
Theorem validateId_accepts_exactly (id idType : string) :
  (validateId id idType = inr tt <->
   (1 <= String.length id <= 100)%nat /\ all_allowed id = true) /\
  (validateExecutionId id = inr id <-> validateId id "Execution ID" = inr tt) /\
  (validateWorkflowId id = inr id <-> validateId id "Workflow ID" = inr tt) /\
  (forall r, validateExecutionId id = inr r \/ validateWorkflowId id = inr r -> r = id) /\
  (validateId id idType = inr tt ->
   forall c, allowed c = false -> includes id (String c "") = false) /\
  allowed "/" = false /\ allowed "." = false /\ allowed "?" = false /\
  allowed "%" = false /\ allowed "#" = false /\ allowed " " = false.
Proof.
  split; [apply validateId_inr|].
  unfold validateExecutionId, validateWorkflowId.
  split; [|split; [|split; [|split]]].
  - destruct (validateId id "Execution ID") as [e|[]]; by split.
  - destruct (validateId id "Workflow ID") as [e|[]]; by split.
  - intros r [H|H].
    + destruct (validateId id "Execution ID"); [discriminate|]. by injection H.
    + destruct (validateId id "Workflow ID"); [discriminate|]. by injection H.
  - intros H c Hc. apply validateId_inr in H as [_ H]. by apply all_allowed_excludes.
  - by repeat split.
Qed.

(** X11.  The third test of [validateId] can never fire: an id of length 0
    already fails the pattern, which asks for one character at least.  No
    id is refused with the message that it cannot be empty; the empty id
    is refused for disallowed characters. *)
Theorem validateId_never_reports_empty (id idType : string) :
  validateId id idType <> inl (ApiError (cannotBeEmpty idType)) /\
  validateId "" idType = inl (ApiError (disallowedCharacters idType)).
Proof.
  assert (Hother : forall rest,
             rest <> ": cannot be empty" ->
             inl (ApiError ("Invalid " +:+ idType +:+ rest))
             <> (inl (ApiError (cannotBeEmpty idType)) : Error + unit)).
  { intros rest Hrest H. apply Hrest.
    assert (H' : "Invalid " +:+ idType +:+ rest = cannotBeEmpty idType) by congruence.
    apply (append_inv_head "Invalid ") in H'. by apply append_inv_head in H'. }
  split; [|reflexivity]. unfold validateId.
  destruct (test id) eqn:Ht; cbn [negb].
  - destruct (100 <? String.length id)%nat; [by apply Hother|].
    destruct id as [|a id]; [discriminate|]. cbn. discriminate.
  - by apply Hother.
Qed.

End Validation.

(** * The constructor of the client and the requests of its methods *)
Section ClientRequests.
Import Js N8nClient Validator Client.

Lemma validateApiKey_inr key :
  validateApiKey key = inr tt ->
  startsWith key "n8n_api_" = true /\ (20 <= String.length key)%nat.
Proof.
  unfold validateApiKey. destruct (startsWith key "n8n_api_"); [|discriminate].
  cbn [negb]. destruct (Nat.ltb_spec (String.length key) 20); [discriminate|].
  by split.
Qed.

Lemma or_string_Some a b s :
  or_string a b = Some s ->
  (a = Some s /\ s <> "") \/ (truthy_str a = false /\ b = Some s).
Proof.
  unfold or_string. destruct (truthy_str a) eqn:E; intros H; [left|right; by split].
  split; [exact H|]. subst a. simpl in E. intros ->. discriminate.
Qed.

(** X12.  Whenever the constructor of [N8nClient] succeeds, the key it
    sends in the header [X-N8N-API-KEY] is the argument if that is a
    non-empty string and else the variable [N8N_API_KEY], it begins with
    ['n8n_api_'] and has 20 characters at least; the base URL is the
    argument, else [N8N_API_URL], else the default, an empty string
    counting as absent; and the base URL begins with ['https://'], with
    ['http://localhost'] or with ['http://127.0.0.1'] (whatever follows,
    be it a longer host name), unless [ALLOW_HTTP] is exactly ['true'],
    in which case one warning was written.  The timeout is 30 seconds. *)
Theorem construct_admits_only
    (env : Env) (apiUrl apiKey : option string) (axios : Axios)
    (warnings : list string) :
  construct env apiUrl apiKey = (inr axios, warnings) ->
  (exists key,
      headers axios = [("X-N8N-API-KEY", key); ("Content-Type", "application/json")] /\
      or_string apiKey (N8N_API_KEY env) = Some key /\
      startsWith key "n8n_api_" = true /\ (20 <= String.length key)%nat) /\
  baseURL axios
    = default defaultUrl (or_string (or_string apiUrl (N8N_API_URL env)) (Some defaultUrl)) /\
  (truthy_str apiUrl = false -> truthy_str (N8N_API_URL env) = false ->
   baseURL axios = defaultUrl) /\
  timeout axios = 30000 /\
  ((startsWith (baseURL axios) "http://localhost"
    || startsWith (baseURL axios) "http://127.0.0.1"
    || startsWith (baseURL axios) "https://" = true /\ warnings = [])
   \/ (ALLOW_HTTP env = Some "true" /\ warnings = [insecureWarning])).
Proof.
  unfold construct.
  destruct (or_string apiKey (N8N_API_KEY env)) as [key|] eqn:Hkey; [|discriminate].
  destruct (String.eqb key ""); [discriminate|].
  destruct (validateApiKey key) as [e|[]] eqn:Hv; [discriminate|].
  apply validateApiKey_inr in Hv as [Hprefix Hlen].
  set (url := default defaultUrl _).
  unfold validateBaseUrl.
  destruct (startsWith url "http://localhost" || startsWith url "http://127.0.0.1") eqn:Hlocal.
  - intros [= <- <-]. simpl. split; [by exists key|]. split; [reflexivity|].
    split; [|split; [reflexivity|]].
    + intros H1 H2. subst url. unfold or_string. by rewrite H1, H2.
    + left. fold url. by rewrite Hlocal.
  - destruct (bool_decide (ALLOW_HTTP env = Some "true")) eqn:Hallow.
    + apply bool_decide_eq_true in Hallow.
      intros [= <- <-]. simpl. split; [by exists key|]. split; [reflexivity|].
      split; [|split; [reflexivity|by right]].
      intros H1 H2. subst url. unfold or_string. by rewrite H1, H2.
    + destruct (startsWith url "https://") eqn:Hs; [|discriminate]. cbn [negb].
      intros [= <- <-]. simpl. split; [by exists key|]. split; [reflexivity|].
      split; [|split; [reflexivity|]].
      * intros H1 H2. subst url. unfold or_string. by rewrite H1, H2.
      * left. fold url. by rewrite Hlocal, Hs.
Qed.

Lemma split_at_separator sep p s :
  includes p (String sep "") = false ->
  split sep (p +:+ String sep s) = p :: split sep s.
Proof.
  induction p as [|a p IH]; intros H.
  - change ("" +:+ String sep s) with (String sep s). cbn [split].
    by rewrite Ascii.eqb_refl.
  - change (String a p +:+ String sep s) with (String a (p +:+ String sep s)).
    cbn [includes] in H. apply orb_false_iff in H as [H1 H2].
    unfold startsWith in H1. cbn [strip_prefix] in H1.
    cbn [split]. rewrite Ascii.eqb_sym.
    destruct (Ascii.eqb sep a); [discriminate|]. by rewrite (IH H2).
Qed.

(** X13.  [getExecution] and [getWorkflow] check the id before anything
    is sent.  A refused id gives the error of the validator whatever the
    server would answer.  An accepted id is asked for under the path
    ['/executions/'] or ['/workflows/'] followed by the id, which is one
    path segment: split at the slashes, the path has exactly three parts,
    the empty one, the collection and the id. *)
Theorem ids_reach_the_server_as_one_segment (id : string) (includeData : bool) :
  (forall A (axios axios' : Get -> Error + A) e,
      getExecutionRequest id includeData = inl e ->
      send axios (getExecutionRequest id includeData) = inl e /\
      send axios' (getExecutionRequest id includeData) = inl e) /\
  (forall A (axios axios' : Get -> Error + A) e,
      getWorkflowRequest id = inl e ->
      send axios (getWorkflowRequest id) = inl e /\
      send axios' (getWorkflowRequest id) = inl e) /\
  (forall get, getExecutionRequest id includeData = inr get ->
      validateExecutionId id = inr id /\
      path get = "/executions/" +:+ id /\
      split "/" (path get) = [""; "executions"; id] /\
      params get = [("includeData", JBool includeData)]) /\
  (forall get, getWorkflowRequest id = inr get ->
      validateWorkflowId id = inr id /\
      path get = "/workflows/" +:+ id /\
      split "/" (path get) = [""; "workflows"; id] /\
      params get = []).
Proof.
  assert (Hseg : forall idType, validateId id idType = inr tt -> split "/" id = [id]).
  { intros idType H. apply split_no_separator.
    apply validateId_inr in H as [_ H]. by apply all_allowed_excludes. }
  assert (Hpath : forall collection idType,
             includes collection "/" = false -> validateId id idType = inr tt ->
             split "/" ("" +:+ String "/" (collection +:+ String "/" id))
             = [""; collection; id]).
  { intros collection idType Hc Hv.
    rewrite !split_at_separator by done. by rewrite (Hseg _ Hv). }
  split; [|split; [|split]].
  - intros A axios axios' e H. rewrite H. by split.
  - intros A axios axios' e H. rewrite H. by split.
  - unfold getExecutionRequest, validateExecutionId. intros get.
    destruct (validateId id "Execution ID") as [e|[]] eqn:Hv; [discriminate|].
    intros [= <-]. simpl. split; [reflexivity|]. split; [reflexivity|].
    split; [|reflexivity].
    exact (Hpath "executions" _ eq_refl Hv).
  - unfold getWorkflowRequest, validateWorkflowId. intros get.
    destruct (validateId id "Workflow ID") as [e|[]] eqn:Hv; [discriminate|].
    intros [= <-]. simpl. split; [reflexivity|]. split; [reflexivity|].
    split; [|reflexivity].
    exact (Hpath "workflows" _ eq_refl Hv).
Qed.

(** X14.  The query of [listExecutions] never carries a falsy value: the
    limit is the one given, or 20 when none or zero is given; a workflow
    id, a status and a cursor are sent only when they are non-empty
    strings; and [includeData] is sent only as [true].  The limit always
    comes first. *)
Theorem listExecutions_sends_no_falsy_parameter (p : ExecutionListParams) :
  let get := listExecutionsRequest p in
  path get = "/executions" /\
  (exists rest, params get = ("limit", JNum (or_number (el_limit p) 20)) :: rest) /\
  or_number (el_limit p) 20 <> 0 /\
  (el_limit p = None \/ el_limit p = Some 0 -> or_number (el_limit p) 20 = 20) /\
  Forall (fun entry => truthy (snd entry) = true) (params get) /\
  (lookup_field (params get) "workflowId"
   = if truthy_str (el_workflowId p) then JStr <$> el_workflowId p else None).
Proof.
  intros get. subst get. unfold listExecutionsRequest. cbn [path params].
  assert (Hlimit : or_number (el_limit p) 20 <> 0).
  { unfold or_number. destruct (el_limit p) as [x|]; [|done].
    destruct (x =? 0) eqn:E; [done|lia]. }
  assert (Hwhen : forall key v,
             Forall (fun entry : string * value => truthy (snd entry) = true)
                    (whenTruthy key v)).
  { intros key v. unfold whenTruthy. destruct v as [s|]; simpl; [|constructor].
    destruct (String.eqb s "") eqn:E; simpl; [constructor|].
    constructor; [|constructor]. simpl. by rewrite E. }
  split; [reflexivity|]. split; [by eexists|]. split; [exact Hlimit|]. split; [|split].
  - intros [-> | ->]; reflexivity.
  - constructor.
    + simpl. by apply Z.eqb_neq in Hlimit as ->.
    + repeat (apply Forall_app; split); try apply Hwhen.
      destruct (default false (el_includeData p)); repeat constructor.
  - simpl. unfold whenTruthy at 1.
    destruct (truthy_str (el_workflowId p)) eqn:E; [|].
    + destruct (el_workflowId p) as [w|]; [|discriminate]. reflexivity.
    + simpl. unfold whenTruthy.
      destruct (truthy_str (el_status p)), (el_status p),
        (truthy_str (el_cursor p)), (el_cursor p),
        (default false (el_includeData p)); reflexivity.
Qed.

End ClientRequests.

Lemma construct_witness :
  Client.construct Samples.env0 None (Some "")
  = (inr {| Client.baseURL := "https://localhost:5678/api/v1";
            Client.headers := [("X-N8N-API-KEY", "n8n_api_0123456789abcdef");
                               ("Content-Type", "application/json")];
            Client.timeout := 30000 |}, []) /\
  Js.startsWith "n8n_api_0123456789abcdef" "n8n_api_" = true.
Proof.
  assert (H : Client.construct Samples.env0 None (Some "")
              = (inr {| Client.baseURL := "https://localhost:5678/api/v1";
                        Client.headers := [("X-N8N-API-KEY", "n8n_api_0123456789abcdef");
                                           ("Content-Type", "application/json")];
                        Client.timeout := 30000 |}, [])) by reflexivity.
  split; [exact H|].
  destruct (construct_admits_only Samples.env0 None (Some "") _ _ H)
    as ((key & Hh & _ & Hp & _) & _).
  injection Hh as <-. exact Hp.
Defined.

(** * The tool handlers *)
Section ToolHandlers.
Import Js N8nClient Validator Client Formatter Tools.
#[local] Open Scope promise_scope.

Variable Date_getTime : string -> num.
Variable toFixed1 : float -> string.
Variable toLowerCase : string -> string.
Variable env : Env.
Variable server : Server.

Lemma catch_resolves {A} (m : Promise A) (f : Error -> A) :
  catch m (fun e => done (f e))
  = (inr (match fst m with inl e => f e | inr a => a end), snd m).
Proof.
  destruct m as [[e|a] t]; simpl; [|reflexivity]. by rewrite app_nil_r.
Qed.

Lemma andThen_inr {A B} (a : A) t (k : A -> Promise B) :
  andThen (inr a, t) k = (fst (k a), t ++ snd (k a)).
Proof. unfold andThen. by destruct (k a). Qed.

Lemma whenTruthy_falsy key v : truthy_str v = false -> whenTruthy key v = [].
Proof. unfold whenTruthy. by intros ->. Qed.

(** X15.  In [handleGetFailedExecutions] a [workflowName] that no
    workflow matches is not reported: the handler goes on as if no filter
    had been given.  After the listing of the workflows made for the
    lookup it sends exactly the requests of a call without a name, the
    executions being asked for with a limit, the status ['error'] and
    [includeData], and no workflow id; and it resolves to the same text:
    the failures of all workflows. *)
Theorem unmatched_name_lists_all_failures
    (args : FailedArgs) (name : string) (wfs : list N8nWorkflow) :
  truthy_str (fa_workflowId args) = false ->
  fa_workflowName args = Some name -> name <> "" ->
  GET_workflows server (listWorkflowsRequest noWorkflowParams) = inr wfs ->
  findByName toLowerCase name wfs = None ->
  let unfiltered :=
    handleGetFailedExecutions toLowerCase env server
      {| fa_workflowId := fa_workflowId args; fa_workflowName := None;
         fa_limit := fa_limit args |} in
  (forall axios, fst (construct env None None) = inr axios ->
     handleGetFailedExecutions toLowerCase env server args
     = (fst unfiltered, listWorkflowsRequest noWorkflowParams :: snd unfiltered)) /\
  listExecutionsRequest
    {| el_workflowId := fa_workflowId args; el_status := Some "error";
       el_limit := Some (or_number (fa_limit args) 10);
       el_cursor := None; el_includeData := Some true |}
  = {| path := "/executions";
       params := [("limit", JNum (or_number (fa_limit args) 10));
                  ("status", JStr "error"); ("includeData", JBool true)] |}.
Proof.
  intros Hid Hname Hne Hlist Hfind unfiltered. split.
  - intros axios Hc. subst unfiltered. unfold handleGetFailedExecutions.
    rewrite Hc, !catch_resolves. unfold failedExecutions.
    cbn [fa_workflowId fa_workflowName fa_limit].
    set (rest := fun workflowId : option string => andThen (listExecutions _ _) _).
    assert (Hlookup :
      (if negb (truthy_str (fa_workflowId args)) && truthy_str (fa_workflowName args)
       then
         workflows <~ listWorkflows server noWorkflowParams ;;
         done (match findByName toLowerCase (default "" (fa_workflowName args))
                       workflows with
               | Some found => Some (wf_id found)
               | None => fa_workflowId args
               end)
       else done (fa_workflowId args))
      = (inr (fa_workflowId args), [listWorkflowsRequest noWorkflowParams])).
    { rewrite Hid, Hname. change (default "" (Some name)) with name.
      cbn [truthy_str negb andb].
      apply String.eqb_neq in Hne. rewrite Hne. cbn [negb].
      unfold listWorkflows, ask. rewrite Hlist, andThen_inr. cbn [done fst snd app].
      by rewrite Hfind. }
    rewrite Hlookup, andThen_inr.
    rewrite andb_false_r. unfold done. rewrite !andThen_inr. reflexivity.
  - unfold listExecutionsRequest. cbn [el_workflowId el_status el_limit el_cursor
      el_includeData]. rewrite (whenTruthy_falsy _ _ Hid).
    assert (Hnz : or_number (Some (or_number (fa_limit args) 10)) 20
                  = or_number (fa_limit args) 10).
    { unfold or_number. destruct (fa_limit args) as [x|]; [|reflexivity].
      destruct (x =? 0) eqn:E; [reflexivity|]. by rewrite E. }
    rewrite Hnz. reflexivity.
Qed.


(** X17.  [handleGetWorkflowExecutions], its client constructed.  With
    neither an id nor a name it asks for one of them and sends nothing.
    With a name that no workflow matches it says so after the one listing
    of the workflows.  With an id that the validator refuses it reports
    the refusal and sends nothing.  With an id and a name it looks nothing
    up: the executions of the id are listed under the name as given,
    whether or not the workflow bears it, and no workflow is fetched. *)
Theorem handleGetWorkflowExecutions_settles_the_workflow
    (args : ExecutionsArgs) (axios : Axios) :
  fst (construct env None None) = inr axios ->
  let run := handleGetWorkflowExecutions Date_getTime toFixed1 toLowerCase env server
               args in
  (truthy_str (ea_workflowId args) = false ->
   truthy_str (ea_workflowName args) = false ->
   run = (inr "Please provide either workflowId or workflowName", [])) /\
  (forall name wfs,
     truthy_str (ea_workflowId args) = false ->
     ea_workflowName args = Some name -> name <> "" ->
     GET_workflows server (listWorkflowsRequest noWorkflowParams) = inr wfs ->
     findByName toLowerCase name wfs = None ->
     run = (inr ("No workflow found matching " +:+ quote +:+ name +:+ quote),
            [listWorkflowsRequest noWorkflowParams])) /\
  (forall id e,
     ea_workflowId args = Some id -> id <> "" ->
     validateWorkflowId id = inl e ->
     run = (inr ("Error fetching executions: " +:+ messageOf e), [])) /\
  (forall id name,
     ea_workflowId args = Some id -> validateWorkflowId id = inr id ->
     ea_workflowName args = Some name -> name <> "" ->
     let request :=
       listExecutionsRequest
         {| el_workflowId := Some id;
            el_status := if bool_decide (ea_status args = Some "all")
                         then None else ea_status args;
            el_limit := Some (or_number (ea_limit args) 20);
            el_cursor := None; el_includeData := Some true |} in
     snd run = [request] /\
     forall executions,
       GET_executions server request = inr executions ->
       formatExecutionList Date_getTime toFixed1 env executions (Some name)
       = inr (join (String "010" "") (listLines Date_getTime toFixed1 executions (Some name)))
       /\ fst run
          = inr (join (String "010" "")
                   (listLines Date_getTime toFixed1 executions (Some name)))).
Proof.
  intros Hc run. subst run. unfold handleGetWorkflowExecutions.
  rewrite Hc, catch_resolves. unfold workflowExecutions.
  split; [|split; [|split]].
  - intros Hid Hname. rewrite Hid, Hname. cbn [negb andb]. unfold listFor.
    by rewrite Hid.
  - intros name wfs Hid Hname Hne Hlist Hfind. rewrite Hid, Hname.
    change (default "" (Some name)) with name.
    cbn [truthy_str negb andb]. apply String.eqb_neq in Hne. rewrite Hne.
    cbn [negb]. unfold listWorkflows, ask, andThen. rewrite Hlist, Hfind. reflexivity.
  - intros id e Hid Hne Hv. rewrite Hid. change (default "" (Some id)) with id.
    cbn [truthy_str].
    apply String.eqb_neq in Hne. rewrite Hne. cbn [negb]. by rewrite Hv.
  - intros id name Hid Hv Hname Hne.
    set (request := listExecutionsRequest _).
    assert (Hidne : String.eqb id "" = false).
    { destruct id; [discriminate|reflexivity]. }
    rewrite Hid, Hname. change (default "" (Some id)) with id.
    cbn [truthy_str]. rewrite Hidne. cbn [negb andb].
    rewrite Hv. unfold listFor. change (default "" (Some id)) with id.
    cbn [truthy_str]. rewrite Hidne.
    apply String.eqb_neq in Hne. rewrite Hne. cbn [negb].
    unfold andThen at 1, done at 1. unfold listExecutions, ask. fold request.
    unfold andThen.
    destruct (GET_executions server request) as [e|executions] eqn:Hl.
    + split; [reflexivity|]. intros ? [=].
    + unfold formatted, formatExecutionList, withClient. rewrite Hc.
      split; [reflexivity|]. intros ? [= <-]. by split.
Qed.

End ToolHandlers.

Lemma unmatched_name_witness :
  (Tools.findByName Samples.lower "billing" [Scenario.W1; Scenario.W2] = None /\
   fst (Client.construct Samples.env0 None None)
   = inr {| Client.baseURL := Client.defaultUrl;
            Client.headers := [("X-N8N-API-KEY", "n8n_api_0123456789abcdef");
                               ("Content-Type", "application/json")];
            Client.timeout := 30000 |}) /\
  snd (Tools.handleGetFailedExecutions Samples.lower Samples.env0 Samples.server0
         Samples.byUnknownName)
  = [Client.listWorkflowsRequest Tools.noWorkflowParams;
     {| Client.path := "/executions";
        Client.params := [("limit", Js.JNum 10); ("status", Js.JStr "error");
                          ("includeData", Js.JBool true)] |};
     Client.listWorkflowsRequest Tools.noWorkflowParams].
Proof.
  assert (Hfind : Tools.findByName Samples.lower "billing" [Scenario.W1; Scenario.W2]
                  = None) by reflexivity.
  assert (Hc : fst (Client.construct Samples.env0 None None)
               = inr {| Client.baseURL := Client.defaultUrl;
                        Client.headers := [("X-N8N-API-KEY", "n8n_api_0123456789abcdef");
                                           ("Content-Type", "application/json")];
                        Client.timeout := 30000 |}) by reflexivity.
  split; [split; [exact Hfind|exact Hc]|].
  rewrite (proj1 (unmatched_name_lists_all_failures Samples.lower Samples.env0
                    Samples.server0 Samples.byUnknownName "billing"
                    [Scenario.W1; Scenario.W2] eq_refl eq_refl ltac:(discriminate)
                    eq_refl Hfind) _ Hc).
  reflexivity.
Defined.

Lemma settles_the_workflow_witness :
  fst (Client.construct Samples.env0 None None)
  = inr {| Client.baseURL := Client.defaultUrl;
           Client.headers := [("X-N8N-API-KEY", "n8n_api_0123456789abcdef");
                              ("Content-Type", "application/json")];
           Client.timeout := 30000 |} /\
  snd (Tools.handleGetWorkflowExecutions Samples.noDate Samples.oneDecimal Samples.lower
         Samples.env0 Samples.server0 Samples.byIdAndName)
  = [{| Client.path := "/executions";
        Client.params := [("limit", Js.JNum 20); ("workflowId", Js.JStr "W2");
                          ("includeData", Js.JBool true)] |}].
Proof.
  assert (Hc : fst (Client.construct Samples.env0 None None)
               = inr {| Client.baseURL := Client.defaultUrl;
                        Client.headers := [("X-N8N-API-KEY", "n8n_api_0123456789abcdef");
                                           ("Content-Type", "application/json")];
                        Client.timeout := 30000 |}) by reflexivity.
  split; [exact Hc|].
  exact (proj1 (proj2 (proj2 (proj2
           (handleGetWorkflowExecutions_settles_the_workflow Samples.noDate
              Samples.oneDecimal Samples.lower Samples.env0 Samples.server0
              Samples.byIdAndName _ Hc)))
           "W2" "Nightly import" eq_refl eq_refl eq_refl ltac:(discriminate))).
Defined.

(** * The formatter *)
Section FormatterFacts.
Import Js N8nClient Validator Client Formatter.

Variable Date_getTime : string -> num.
Variable toFixed1 : float -> string.
Variable toLowerCase : string -> string.

Lemma firstRunError_Some nodeName runs :
  is_Some (firstRunError nodeName runs) <->
  exists run, run ∈ runs /\ is_Some (run_error run).
Proof.
  induction runs as [|run runs IH]; simpl.
  - split; [by intros [? ?]|]. intros (run & Hin & _). by apply elem_of_nil in Hin.
  - destruct (run_error run) as [err|] eqn:E.
    + split; [|by eexists]. intros _. exists run. split; [left|]. by rewrite E.
    + rewrite IH. split.
      * intros (r & Hin & Hr). exists r. split; [by right|exact Hr].
      * intros (r & Hin & Hr). apply elem_of_cons in Hin as [->|Hin].
        -- rewrite E in Hr. by destruct Hr.
        -- by exists r.
Qed.

Lemma firstNodeError_Some entries :
  is_Some (firstNodeError entries) <->
  exists nodeName runs run,
    (nodeName, runs) ∈ entries /\ run ∈ runs /\ is_Some (run_error run).
Proof.
  induction entries as [|[nodeName runs] entries IH]; simpl.
  - split; [by intros [? ?]|]. intros (n & rs & r & Hin & _). by apply elem_of_nil in Hin.
  - destruct (firstRunError nodeName runs) as [failure|] eqn:E.
    + split; [|by eexists]. intros _.
      destruct (proj1 (firstRunError_Some nodeName runs)) as (run & Hin & Hr).
      { by rewrite E. }
      exists nodeName, runs, run. split; [left|]. by split.
    + rewrite IH. split.
      * intros (n & rs & r & Hin & H). exists n, rs, r. split; [by right|exact H].
      * intros (n & rs & r & Hin & Hr & He).
        apply elem_of_cons in Hin as [Heq|Hin]; [|by exists n, rs, r].
        injection Heq as -> ->.
        assert (is_Some (firstRunError nodeName runs)) as Hs
          by (apply firstRunError_Some; by exists r).
        rewrite E in Hs. by destruct Hs.
Qed.

(** X18.  [extractError] reports a failure exactly for an execution whose
    status is ['error'] and which carries an error of its own or a run
    with an error; with any other status it reports none, whatever errors
    the runs carry.  The execution's own error comes first: it is
    reported, under the name of its node or ['Unknown'], even when runs
    have errors; else the first run with an error is, under the name of
    its node. *)
Theorem extractError_reports_exactly (execution : Execution) :
  (is_Some (extractError execution) <->
   ex_status execution = "error" /\
   (is_Some (ex_error execution) \/
    exists entries nodeName runs run,
      ex_runData execution = Some entries /\
      (nodeName, runs) ∈ entries /\ run ∈ runs /\ is_Some (run_error run))) /\
  (forall err,
      ex_status execution = "error" -> ex_error execution = Some err ->
      extractError execution
      = Some {| f_node := match err_nodeName err with
                          | Some name => if String.eqb name "" then "Unknown" else name
                          | None => "Unknown"
                          end;
                f_message := err_message err; f_stack := err_stack err |}) /\
  (forall failure,
      extractError execution = Some failure -> ex_error execution = None ->
      exists entries runs,
        ex_runData execution = Some entries /\ (f_node failure, runs) ∈ entries).
Proof.
  unfold extractError. split; [|split].
  - destruct (String.eqb (ex_status execution) "error") eqn:Hs; cbn [negb].
    + apply String.eqb_eq in Hs. destruct (ex_error execution) as [err|].
      * split; [|by eexists]. intros _. split; [exact Hs|]. left. by eexists.
      * destruct (ex_runData execution) as [entries|].
        -- rewrite firstNodeError_Some. split.
           ++ intros (n & rs & r & H). split; [exact Hs|]. right.
              by exists entries, n, rs, r.
           ++ intros [_ [[? [=]]|(entries' & n & rs & r & [= <-] & H)]].
              by exists n, rs, r.
        -- split; [by intros [? ?]|].
           intros [_ [[? [=]]|(entries' & n & rs & r & [=] & _)]].
    + apply String.eqb_neq in Hs. split; [by intros [? ?]|]. by intros [? _].
  - intros err -> ->. cbn [String.eqb negb]. f_equal. f_equal.
    unfold or_string. destruct (err_nodeName err) as [name|]; [|reflexivity].
    simpl. by destruct (String.eqb name "").
  - intros failure H Herr. rewrite Herr in H.
    destruct (negb _); [discriminate|].
    destruct (ex_runData execution) as [entries|]; [|discriminate].
    exists entries. clear Herr. induction entries as [|[n rs] entries IH]; [discriminate|].
    simpl in H. destruct (firstRunError n rs) as [f|] eqn:E.
    + injection H as ->. exists rs. split; [reflexivity|].
      assert (f_node failure = n) as ->; [|left].
      clear -E. induction rs as [|r rs IH]; [discriminate|]. simpl in E.
      destruct (run_error r); [by injection E as <-|by apply IH].
    + destruct (IH H) as (rs' & _ & Hin). exists rs'. split; [reflexivity|by right].
Qed.

(** X19.  [formatExecutionList] shows an execution as ['running'] not
    only while it has no stop time: it does so whenever the duration is
    [null], [NaN] or zero, that is also when one of the two times is no
    date and when the execution stopped in the millisecond in which it
    started, whatever its status is. *)
Theorem untimed_executions_read_running (exec : Execution) :
  untimed Date_getTime exec ->
  durationStr toFixed1 (getExecutionDuration Date_getTime exec) = "running" /\
  exists rest,
    listEntry Date_getTime toFixed1 exec
    = ("[" +:+ statusIcon (ex_status exec) +:+ "] " +:+ ex_id exec
       +:+ " - running - " +:+ ex_startedAt exec) :: rest.
Proof.
  intros H.
  assert (Hd : durationStr toFixed1 (getExecutionDuration Date_getTime exec) = "running").
  { unfold getExecutionDuration.
    destruct (String.eqb (ex_startedAt exec) "") eqn:Hs; [reflexivity|].
    apply String.eqb_neq in Hs.
    destruct (ex_stoppedAt exec) as [stoppedAt|] eqn:Hstop; [|reflexivity].
    destruct (String.eqb stoppedAt "") eqn:He; [reflexivity|].
    apply String.eqb_neq in He.
    destruct H as [H|[H|[H|(s & Hs' & H)]]]; try congruence.
    rewrite Hstop in Hs'. injection Hs' as <-.
    destruct H as [->|[->| ->]].
    - by destruct (Date_getTime stoppedAt).
    - by destruct (Date_getTime (ex_startedAt exec)).
    - destruct (Date_getTime (ex_startedAt exec)) as [t|]; [|reflexivity].
      rewrite Z.sub_diag. reflexivity. }
  split; [exact Hd|]. unfold listEntry. rewrite Hd. by eexists.
Qed.

Lemma split_join sep (ls : list string) :
  ls <> [] ->
  Forall (fun l => includes l (String sep "") = false) ls ->
  split sep (join (String sep "") ls) = ls.
Proof.
  induction ls as [|x [|y t] IH]; intros Hne Hall; [done| |].
  - inversion Hall; subst. by apply split_no_separator.
  - inversion Hall as [|? ? Hx Hrest]; subst.
    change (join (String sep "") (x :: y :: t))
      with (x +:+ String sep "" +:+ join (String sep "") (y :: t)).
    change (String sep "" +:+ join (String sep "") (y :: t))
      with (String sep (join (String sep "") (y :: t))).
    rewrite (split_at_separator sep x _ Hx). f_equal. by apply IH.
Qed.

Lemma members_sublist g (workflows : list N8nWorkflow) :
  members toLowerCase g workflows `sublist_of` workflows.
Proof.
  unfold members. induction workflows as [|wf wfs IH]; [constructor|].
  cbn [List.filter]. destruct (sameGroup _ _); by constructor.
Qed.

Lemma entries_of_workflow includeWebhooks wf :
  List.filter isEntry (workflowEntry includeWebhooks wf) = [entryLine wf].
Proof.
  unfold workflowEntry. cbn [app List.filter]. fold (entryLine wf).
  assert (H : isEntry (entryLine wf) = true) by reflexivity.
  rewrite H. f_equal.
  destruct (includeWebhooks && _); [|reflexivity].
  destruct (0 <? _)%nat; destruct (hasSubWorkflowTrigger wf); reflexivity.
Qed.

Lemma entries_of_list includeWebhooks (l : list N8nWorkflow) :
  List.filter isEntry (flat_map (workflowEntry includeWebhooks) l)
  = List.map entryLine l.
Proof.
  induction l as [|x l IH]; [reflexivity|].
  cbn [flat_map List.map]. by rewrite List.filter_app, entries_of_workflow, IH.
Qed.

Lemma entries_of_group includeWebhooks workflows g :
  List.filter isEntry (groupLines toLowerCase includeWebhooks workflows g)
  = List.map entryLine (members toLowerCase g workflows).
Proof.
  unfold groupLines. destruct (members toLowerCase g workflows) as [|wf ms] eqn:E;
    [reflexivity|].
  assert (Hname : isEntry (groupName g +:+ ":") = false) by (by destruct g).
  cbn [app List.filter]. rewrite Hname. rewrite List.filter_app.
  rewrite entries_of_list. cbn [List.filter isEntry startsWith strip_prefix].
  by rewrite app_nil_r.
Qed.

(** X20.  [formatWorkflowList] puts every workflow in exactly one of the
    groups ['Core'], ['Agents'], ['Marcus'] and ['Other'], keeping the
    order of the list inside a group.  Among the lines it pushes, those
    that begin with ['  - '] are exactly the lines of the workflows, one
    for each, group after group.  The same holds of the lines of the text
    it returns as long as no pushed line holds a newline; a name, an id or
    a path with a newline in it breaks its line in two. *)
Theorem formatWorkflowList_lists_each_workflow_once
    (workflows : list N8nWorkflow) (includeWebhooks : option bool) :
  let grouped :=
    members toLowerCase Core workflows ++ members toLowerCase Agents workflows
    ++ members toLowerCase Marcus workflows ++ members toLowerCase Other workflows in
  let lines := workflowLines toLowerCase workflows includeWebhooks in
  grouped ≡ₚ workflows /\
  (forall g, members toLowerCase g workflows `sublist_of` workflows) /\
  (forall wf g, wf ∈ members toLowerCase g workflows <->
                wf ∈ workflows /\ groupOf toLowerCase wf = g) /\
  List.filter isEntry lines = List.map entryLine grouped /\
  length (List.filter isEntry lines) = length workflows /\
  (forall env output,
      Forall (fun line => includes line (String "010" "") = false) lines ->
      formatWorkflowList toLowerCase env workflows includeWebhooks = inr output ->
      split "010" output = lines /\
      List.filter isEntry (split "010" output) = List.map entryLine grouped).
Proof.
  intros grouped lines.
  assert (Hperm : grouped ≡ₚ workflows).
  { subst grouped. unfold members. induction workflows as [|wf wfs IH]; [reflexivity|].
    cbn [List.filter]. destruct (groupOf toLowerCase wf); cbn [sameGroup app].
    + by constructor.
    + symmetry. apply Permutation_cons_app. by symmetry.
    + rewrite app_assoc. symmetry. apply Permutation_cons_app.
      rewrite <- app_assoc. by symmetry.
    + rewrite !app_assoc. symmetry. apply Permutation_cons_app.
      rewrite <- !app_assoc. by symmetry. }
  assert (Hentries : List.filter isEntry lines = List.map entryLine grouped).
  { subst lines grouped. unfold workflowLines. cbn [app List.filter flat_map].
    match goal with
    | |- context [isEntry ?h] => assert (Hh : isEntry h = false) by reflexivity
    end.
    rewrite Hh. cbn [isEntry startsWith strip_prefix].
    rewrite !List.filter_app, !entries_of_group. cbn [List.filter].
    by rewrite app_nil_r, !map_app. }
  split; [exact Hperm|]. split; [intros g; apply members_sublist|]. split; [|split; [|split]].
  - intros wf g. unfold members. rewrite list_elem_of_In, filter_In, <- list_elem_of_In.
    split; intros [Hin Hg]; (split; [exact Hin|]).
    + by destruct (groupOf toLowerCase wf), g.
    + subst g. by destruct (groupOf toLowerCase wf).
  - exact Hentries.
  - rewrite Hentries, length_map. by apply Permutation_length.
  - intros env output Hall Hout. unfold formatWorkflowList, withClient in Hout.
    destruct (fst (construct env None None)); [discriminate|].
    injection Hout as <-. fold lines.
    assert (Hs : split "010" (join (String "010" "") lines) = lines).
    { apply split_join; [|exact Hall]. subst lines. unfold workflowLines. discriminate. }
    split; [exact Hs|]. etransitivity; [|exact Hentries]. f_equal. exact Hs.
Qed.

(** X21.  [analyzeErrorPattern] never returns an empty list: it returns
    three suggestions for each of its six tests that the message or the
    node type passes, in the order of the tests, and the three general
    suggestions exactly when none passes.  So the list has three to
    eighteen entries. *)
Theorem analyzeErrorPattern_always_advises
    (errorMessage : string) (nodeType : option string) :
  let suggestions := analyzeErrorPattern toLowerCase errorMessage nodeType in
  let passed := length (List.filter (fun passes : bool => passes) (tests toLowerCase errorMessage nodeType)) in
  (length suggestions = 3 * Nat.max 1 passed)%nat /\
  (3 <= length suggestions <= 18)%nat /\
  (passed = 0%nat <-> suggestions = defaultAdvice).
Proof.
  unfold analyzeErrorPattern, tests.
  generalize (includes (toLowerCase errorMessage) "econnrefused"
              || includes (toLowerCase errorMessage) "connection refused").
  generalize (includes (toLowerCase errorMessage) "timeout"
              || includes (toLowerCase errorMessage) "timed out").
  generalize (includes (toLowerCase errorMessage) "401"
              || includes (toLowerCase errorMessage) "unauthorized"
              || includes (toLowerCase errorMessage) "authentication").
  generalize (includes (toLowerCase errorMessage) "404"
              || includes (toLowerCase errorMessage) "not found").
  generalize (includes (toLowerCase errorMessage) "invalid"
              || includes (toLowerCase errorMessage) "validation"
              || includes (toLowerCase errorMessage) "required").
  generalize (match nodeType with Some t => includes t "notion" | None => false end
              || includes (toLowerCase errorMessage) "notion").
  intros b6 b5 b4 b3 b2 b1.
  destruct b1, b2, b3, b4, b5, b6; cbn;
    (split; [reflexivity|]); (split; [lia|]); split; try discriminate; reflexivity.
Qed.

End FormatterFacts.

Lemma untimed_witness :
  Formatter.untimed Samples.noDate Samples.failedRun /\
  Formatter.listEntry Samples.noDate Samples.oneDecimal Samples.failedRun
  = ["[ERR] 3001 - running - 2024-05-01T10:00:00.000Z";
     "     Failed at: [HTTP Request]";
     "     Error: connect ECONNREFUSED 10.0.0.7:443"] /\
  Formatter.durationStr Samples.oneDecimal
    (Formatter.getExecutionDuration Samples.noDate Samples.failedRun) = "running".
Proof.
  assert (H : Formatter.untimed Samples.noDate Samples.failedRun).
  { right. right. right. eexists. split; [reflexivity|]. by left. }
  split; [exact H|]. split; [reflexivity|].
  exact (proj1 (untimed_executions_read_running Samples.noDate Samples.oneDecimal
                  Samples.failedRun H)).
Defined.

(** * The handler of the correlation tool *)
Section CorrelatedHandler.
Import Js N8nClient ExecutionCorrelator Logic Shape Index Failures Protocol
  Validator Names CorrelatedTool.
#[local] Open Scope js_scope.

Variable URL_pathname : string -> option string.
Variable client : DataSource.

Lemma bind_Ret {S A B} (m : M S A) (k : A -> M S B) s a s1 t1 :
  m s = (Ret a, s1, t1) ->
  bind m k s = (outcome (k a s1), final (k a s1), t1 ++ trace (k a s1)).
Proof. intros H. unfold bind. rewrite H. by destruct (k a s1) as [[o s2] t2]. Qed.

Lemma bind_run {S A B} (m : M S A) (k : A -> M S B) s :
  bind m k s
  = match m s with
    | (Ret a, s1, t1) => (outcome (k a s1), final (k a s1), t1 ++ trace (k a s1))
    | (Throw e, s1, t1) => (Throw e, s1, t1)
    | (OutOfFuel, s1, t1) => (OutOfFuel, s1, t1)
    end.
Proof.
  unfold bind. destruct (m s) as [[[a|e|] s1] t1]; try reflexivity.
  by destruct (k a s1) as [[o s2] t2].
Qed.

Lemma erase_OutOfFuel {A} (o : Outcome A) : erase o <> OutOfFuel -> o <> OutOfFuel.
Proof. by destruct o. Qed.

Lemma finishes_correlated fuel args :
  (6 <= fuel)%nat ->
  satisfies finishes (correlated URL_pathname client fuel args).
Proof.
  intros Hfuel. unfold correlated.
  destruct (validateExecutionId (ca_executionId args)) as [e|ok]; [by intros ?|].
  apply satisfies_bind; [apply _| |].
  { apply initialize_satisfies; [apply _| |by intros f ?].
    intros A r answer. apply finishes_request. }
  intros _. apply satisfies_bind; [apply _|apply finishes_request|].
  intros rootExecution. apply satisfies_bind; [apply _| |].
  { apply (finishes_correlateExecutions URL_pathname client ∅). left. simpl. lia. }
  intros rs. apply satisfies_bind; [apply _|apply satisfies_get; apply _|].
  intros this. apply satisfies_ret. apply _.
Qed.

(** X22.  [handleGetCorrelatedExecutions], its client constructed.  An id
    that the validator refuses ends the handler before anything is sent.
    The handler never passes a depth, so the search stops at depth five
    and always comes to an end.  When the workflows are served and the
    root execution is found, the requests are: the listing and the fetches
    of [initialize]; the fetch of the root execution; the listing and the
    fetches once more when no workflow declared a webhook path, since
    [correlateExecutions] then finds the index empty; the fetch of the
    root execution a second time; and then only listings of executions.
    The formatter is given the root execution as fetched and the names of
    the cached workflows. *)
Theorem correlated_tool_fetches_the_root_twice (fuel : nat) (args : CorrelatedArgs) :
  let run := correlated URL_pathname client fuel args newInstance in
  (forall e, validateExecutionId (ca_executionId args) = inl e ->
     run = (Throw e, newInstance, [])) /\
  ((6 <= fuel)%nat -> outcome run <> OutOfFuel) /\
  (forall wfs rootExecution,
     validateExecutionId (ca_executionId args) = inr (ca_executionId args) ->
     serves client wfs ->
     getExecution client (ca_executionId args) = inr rootExecution ->
     exists rest,
       trace run
       = fanout wfs
         ++ Called (GetExecution (ca_executionId args)) None
         :: match discovered client wfs with [] => fanout wfs | _ :: _ => [] end
         ++ Called (GetExecution (ca_executionId args)) None :: rest /\
       forallb listing rest = true /\
       forall root rs names,
         outcome run = Ret (root, rs, names) ->
         root = rootExecution /\
         names = getWorkflowNames {| webhookMappings := discovered client wfs;
                                     workflowCache := cached client wfs [] |}).
Proof.
  intros run. split; [|split].
  - intros e He. subst run. unfold correlated. by rewrite He.
  - intros Hfuel. apply erase_OutOfFuel.
    exact (finishes_correlated fuel args Hfuel newInstance).
  - intros wfs rootExecution Hv Hserves Hroot. subst run. unfold correlated.
    rewrite Hv.
    rewrite (bind_Ret _ _ _ _ _ _ (initialize_serves client wfs newInstance Hserves)).
    cbn [webhookMappings workflowCache newInstance app].
    set (this1 := {| webhookMappings := discovered client wfs;
                     workflowCache := cached client wfs [] |}).
    assert (Hreq : request (S := Instance) (GetExecution (ca_executionId args))
                     (getExecution client (ca_executionId args)) this1
                   = (Ret rootExecution, this1,
                      [Called (GetExecution (ca_executionId args)) None])).
    { unfold request. by rewrite Hroot. }
    rewrite (bind_Ret _ _ _ _ _ _ Hreq).
    set (options := {| opt_timeWindowMs := _; opt_maxDepth := None |}).
    assert (Hindex :
      (if (length (webhookMappings this1) =? 0)%nat then initialize client else ret tt)
        this1
      = (Ret tt, this1,
         match discovered client wfs with [] => fanout wfs | _ :: _ => [] end)).
    { unfold this1 at 1. cbn [webhookMappings].
      destruct (discovered client wfs) as [|m ms] eqn:Hd; [|reflexivity].
      cbn [length Nat.eqb]. rewrite (initialize_serves client wfs this1 Hserves).
      unfold this1. cbn [webhookMappings workflowCache]. rewrite Hd.
      by rewrite cached_idempotent. }
    assert (Hrun : exists o rest,
               correlateExecutions URL_pathname client fuel (ca_executionId args)
                 options this1
               = (o, this1,
                  match discovered client wfs with [] => fanout wfs | _ :: _ => [] end
                  ++ Called (GetExecution (ca_executionId args)) None :: rest) /\
               forallb listing rest = true).
    { rewrite correlateExecutions_search. unfold search.
      rewrite (bind_Ret get _ this1 this1 this1 [] eq_refl).
      rewrite (bind_Ret _ _ _ _ _ _ Hindex), (bind_Ret _ _ _ _ _ _ Hreq).
      unfold withSearch.
      pose proof (listing_findCorrelatedExecutions URL_pathname client this1
                    (default 30000 (opt_timeWindowMs options))
                    (default 5 (opt_maxDepth options)) fuel rootExecution
                    (ca_executionId args) 0
                    {| results := []; visited := {[ ca_executionId args ]} |}) as Hl.
      destruct (findCorrelatedExecutions _ _ _ _ _ _ _ _ _ _) as [[[[]|e|] s1] t1];
        eexists _, t1; (split; [reflexivity|exact Hl]). }
    destruct Hrun as (o & rest & Hrun & Hrest). exists rest.
    rewrite bind_run, Hrun.
    destruct o as [rs|e|]; cbn [outcome final trace fst snd app].
    + split; [|split; [exact Hrest|]].
      * cbn. by rewrite !app_nil_r.
      * intros root rs' names [= <- <- <-]. by split.
    + split; [reflexivity|]. split; [exact Hrest|]. intros ? ? ? [=].
    + split; [reflexivity|]. split; [exact Hrest|]. intros ? ? ? [=].
Qed.

End CorrelatedHandler.

(** * The tree printed from the results of a search *)
Section PrintedTree.
Import Js N8nClient ExecutionCorrelator Logic Shape Tree.

Variable describe : CorrelationResult -> string.

Lemma childrenOf_app k rs1 rs2 :
  childrenOf k (rs1 ++ rs2) = childrenOf k rs1 ++ childrenOf k rs2.
Proof. apply List.filter_app. Qed.

Lemma map_get_set_other {V} k (v : V) m k' :
  k <> k' -> map_get (map_set k v m) k' = map_get m k'.
Proof. intros H. rewrite map_get_set. apply String.eqb_neq in H. by rewrite H. Qed.

Lemma byParent_fold rs acc k :
  default [] (map_get
    (List.fold_left
       (fun m corr =>
          map_set (parentId corr) (default [] (map_get m (parentId corr)) ++ [corr]) m)
       rs acc) k)
  = default [] (map_get acc k) ++ childrenOf k rs.
Proof.
  revert acc. induction rs as [|r rs IH]; intros acc; simpl.
  - by rewrite app_nil_r.
  - rewrite IH, map_get_set. unfold childrenOf. cbn [List.filter].
    destruct (String.eqb (parentId r) k) eqn:E; [|reflexivity].
    apply String.eqb_eq in E as <-. simpl. by rewrite <- app_assoc.
Qed.

Lemma byParent_children rs k :
  default [] (map_get (byParent rs) k) = childrenOf k rs.
Proof. unfold byParent. by rewrite byParent_fold. Qed.

(** The parents named in a forest below [p] are [p] and results of the
    forest. *)
Lemma Forest_parents p rs :
  Forest p rs -> forall r, r ∈ rs -> parentId r = p \/ parentId r ∈ ids rs.
Proof.
  induction 1 as [p|p r below rest Hp _ IH1 _ IH2]; intros x Hx.
  - by apply elem_of_nil in Hx.
  - unfold ids. rewrite fmap_cons, fmap_app.
    apply elem_of_cons in Hx as [->|Hx]; [by left|].
    apply elem_of_app in Hx as [Hx|Hx].
    + right. destruct (IH1 x Hx) as [->|Hin]; [left|].
      right. apply elem_of_app. by left.
    + destruct (IH2 x Hx) as [Hx'|Hin]; [by left|].
      right. right. apply elem_of_app. by right.
Qed.

Lemma childrenOf_none k rs :
  (forall r, r ∈ rs -> parentId r <> k) -> childrenOf k rs = [].
Proof.
  intros H. unfold childrenOf. induction rs as [|r rs IH]; [reflexivity|].
  cbn [List.filter]. destruct (String.eqb (parentId r) k) eqn:E.
  - apply String.eqb_eq in E. destruct (H r); [left|exact E].
  - apply IH. intros x Hx. apply H. by right.
Qed.

Lemma Grows_forest maxDepth p d s ks s' :
  Grows maxDepth p d s ks s' ->
  exists added, results s' = results s ++ added /\ Forest p added.
Proof.
  induction 1 as [p d s|p d s r ka sa kb sb Hd Hp Hv Hc H1 IH1 H2 IH2].
  - exists []. split; [by rewrite app_nil_r|constructor].
  - destruct IH1 as (a1 & Hr1 & Hf1). destruct IH2 as (a2 & Hr2 & Hf2).
    exists (r :: a1 ++ a2). simpl in Hr1. split.
    + rewrite Hr2, Hr1. by rewrite <- !app_assoc.
    + by constructor.
Qed.

(** The loop over the children of [p] prints a forest below [p], given
    fuel for its size, when the children of each of its results are found
    inside it. *)
Lemma append_assoc (a b c : string) : a +:+ b +:+ c = (a +:+ b) +:+ c.
Proof.
  induction a as [|x a IH]; [reflexivity|].
  change (String x (a +:+ b +:+ c) = String x ((a +:+ b) +:+ c)). by rewrite IH.
Qed.

Lemma printChildren_S groups fuel parentId indent :
  printChildren describe groups (S fuel) parentId indent
  = printEach describe (printChildren describe groups fuel) indent
      (default [] (map_get groups parentId)).
Proof. reflexivity. Qed.

Lemma ids_elem x (l : list CorrelationResult) : x ∈ l -> id (execution x) ∈ ids l.
Proof. apply (list_elem_of_fmap_2 (fun r => id (execution r))). Qed.

Lemma printEach_forest (all : list CorrelationResult) p rs :
  Forest p rs ->
  forall fuel indent,
    (length rs <= fuel)%nat ->
    NoDup (ids rs) -> p ∉ ids rs ->
    (forall r, r ∈ rs ->
       childrenOf (id (execution r)) all = childrenOf (id (execution r)) rs) ->
    exists lines,
      printEach describe (printChildren describe (byParent all) fuel) indent
        (childrenOf p rs) = Some lines /\
      shows describe lines rs.
Proof.
  intros Hf. induction Hf as [p|p r below rest Hp Hbelow IH1 Hrest IH2];
    intros fuel indent Hfuel Hnd Hroot Hall.
  - exists []. split; [reflexivity|constructor].
  - unfold ids in Hnd, Hroot. rewrite fmap_cons, fmap_app in Hnd, Hroot.
    apply NoDup_cons in Hnd as [Hr Hnd]. apply NoDup_app in Hnd as (Hnd1 & Hdisj & Hnd2).
    rewrite not_elem_of_cons, not_elem_of_app in Hroot. destruct Hroot as (Hpr & Hp1 & Hp2).
    rewrite not_elem_of_app in Hr. destruct Hr as [Hr1 Hr2].
    fold (ids below) in *. fold (ids rest) in *.
    rewrite length_cons, length_app in Hfuel.
    destruct fuel as [|fuel]; [lia|].
    assert (Hsplit : forall k,
               childrenOf k (r :: below ++ rest)
               = childrenOf k [r] ++ childrenOf k below ++ childrenOf k rest).
    { intros k. change (r :: below ++ rest) with ([r] ++ below ++ rest).
      by rewrite !childrenOf_app. }
    assert (Hb : childrenOf p below = []).
    { apply childrenOf_none. intros x Hx Hxp.
      destruct (Forest_parents _ _ Hbelow x Hx) as [Hx'|Hx']; congruence. }
    assert (Hkids : childrenOf p (r :: below ++ rest) = r :: childrenOf p rest).
    { rewrite Hsplit, Hb. unfold childrenOf at 1. cbn [List.filter].
      apply String.eqb_eq in Hp. by rewrite Hp. }
    assert (Hr_self : forall k, k <> p -> childrenOf k [r] = []).
    { intros k Hk. apply childrenOf_none. intros x Hx Hxp.
      apply list_elem_of_singleton in Hx as ->. congruence. }
    assert (Hrest_none : forall k, k <> p -> k ∉ ids rest -> childrenOf k rest = []).
    { intros k Hk Hkr. apply childrenOf_none. intros x Hx Hxp.
      destruct (Forest_parents _ _ Hrest x Hx) as [Hx'|Hx']; congruence. }
    assert (Hbelow_none : forall k,
               k <> id (execution r) -> k ∉ ids below -> childrenOf k below = []).
    { intros k Hk Hkb. apply childrenOf_none. intros x Hx Hxp.
      destruct (Forest_parents _ _ Hbelow x Hx) as [Hx'|Hx']; congruence. }
    assert (Hown : childrenOf (id (execution r)) all
                   = childrenOf (id (execution r)) below).
    { rewrite (Hall r) by left. rewrite Hsplit.
      rewrite Hr_self, Hrest_none by congruence. by rewrite app_nil_r. }
    destruct (IH1 fuel (indent +:+ (if match childrenOf p rest with
                                       | [] => true | _ :: _ => false end
                                    then "    " else "│   "))
                ltac:(lia) Hnd1 Hr1) as (l1 & Hl1 & Hs1).
    { intros x Hx. pose proof (ids_elem x below Hx) as Hxi.
      rewrite (Hall x) by (right; apply elem_of_app; by left).
      rewrite Hsplit, Hr_self, Hrest_none; [by rewrite app_nil_r| | |].
      - congruence.
      - by apply Hdisj.
      - congruence. }
    destruct (IH2 (S fuel) indent ltac:(lia) Hnd2 Hp2) as (l2 & Hl2 & Hs2).
    { intros x Hx. pose proof (ids_elem x rest Hx) as Hxi.
      rewrite (Hall x) by (right; apply elem_of_app; by right).
      rewrite Hsplit, Hr_self, Hbelow_none; [reflexivity| | |].
      - congruence.
      - intros Hxb. by apply (Hdisj _ Hxb).
      - congruence. }
    rewrite Hkids. cbn [printEach]. rewrite printChildren_S.
    rewrite byParent_children, Hown, Hl1, Hl2.
    eexists. split; [reflexivity|].
    constructor; [eexists; apply append_assoc|]. by apply Forall2_app.
Qed.

Variable URL_pathname : string -> option string.
Variable client : DataSource.

(** X23.  [formatCorrelationTree] prints the tree below the id of the
    root execution it is given, while the results of [correlateExecutions]
    hang below the id that was asked for.  When the root execution bears
    that id, [printChildren] comes to an end within a recursion depth of
    the number of results plus one and pushes exactly one line for each
    result, in the very order of the list: no result is left out of the
    tree and none is shown twice.  When the root execution bears another
    id, which is not the id of a result either, the tree shows no result
    at all. *)
Theorem tree_shows_every_result_once
    (fuel : nat) (rootExecutionId : string) (options : Options)
    (this this' : Instance) (rs : list CorrelationResult) (t : list Event)
    (rootExecution : N8nExecution) (indent : string) :
  correlateExecutions URL_pathname client fuel rootExecutionId options this
    = (Ret rs, this', t) ->
  let tree :=
    printChildren describe (byParent rs) (S (length rs)) (id rootExecution) indent in
  (forall k, default [] (map_get (byParent rs) k) = childrenOf k rs) /\
  (id rootExecution = rootExecutionId ->
   Forest (id rootExecution) rs /\
   exists lines,
     tree = Some lines /\ length lines = length rs /\ shows describe lines rs) /\
  (id rootExecution <> rootExecutionId -> id rootExecution ∉ ids rs ->
   tree = Some []).
Proof.
  intros H tree. subst tree.
  destruct (correlateExecutions_shape _ _ _ _ _ _ _ _ _ H) as (final & Hres & Hg).
  destruct (Grows_forest _ _ _ _ _ _ Hg) as (added & Hadd & Hf).
  destruct (Grows_ids _ _ _ _ _ _ Hg) as (added' & Hadd' & Hids & _ & Hnd & Hfresh & _).
  simpl in Hadd, Hadd'. rewrite Hres in Hadd, Hadd'. subst added added'.
  split; [apply byParent_children|]. split.
  - intros ->. split; [exact Hf|].
    destruct (printEach_forest rs rootExecutionId rs Hf (length rs) indent)
      as (lines & Hl & Hs); [lia|exact Hnd| |done|].
    { intros Hin. apply (Hfresh _ Hin). simpl. set_solver. }
    exists lines. rewrite printChildren_S, byParent_children.
    split; [exact Hl|]. split; [|exact Hs].
    by apply Forall2_length in Hs.
  - intros Hother Hnone. rewrite printChildren_S, byParent_children.
    rewrite childrenOf_none; [reflexivity|]. intros r Hr Hp.
    destruct (Forest_parents _ _ Hf r Hr) as [Hroot|Hin]; congruence.
Qed.

End PrintedTree.

Lemma tree_witness :
  ExecutionCorrelator.correlateExecutions Scenario.pathname Scenario.mutualSource 6 "a1"
    Scenario.defaults ExecutionCorrelator.newInstance
  = (ExecutionCorrelator.Ret Scenario.mutualResults, Scenario.mutualIndex,
     Scenario.mutualTrace) /\
  N8nClient.id Scenario.a1 = "a1" /\
  Tree.printChildren (fun r => N8nClient.id (ExecutionCorrelator.execution r))
    (Tree.byParent Scenario.mutualResults) 4 "a1" "  "
  = Some ["  └── b1"; "      └── a2"; "          └── b2"] /\
  exists lines,
    Tree.printChildren (fun r => N8nClient.id (ExecutionCorrelator.execution r))
      (Tree.byParent Scenario.mutualResults) 4 (N8nClient.id Scenario.a1) "  "
    = Some lines /\
    length lines = 3%nat.
Proof.
  assert (H : ExecutionCorrelator.correlateExecutions Scenario.pathname
                Scenario.mutualSource 6 "a1" Scenario.defaults
                ExecutionCorrelator.newInstance
              = (ExecutionCorrelator.Ret Scenario.mutualResults, Scenario.mutualIndex,
                 Scenario.mutualTrace)) by (vm_compute; reflexivity).
  split; [exact H|]. split; [reflexivity|]. split; [vm_compute; reflexivity|].
  destruct (proj2 (proj1 (proj2 (tree_shows_every_result_once
                                   (fun r => N8nClient.id (ExecutionCorrelator.execution r))
                                   Scenario.pathname Scenario.mutualSource
                                   _ _ _ _ _ _ _ Scenario.a1 "  " H)) eq_refl))
    as (lines & Hl & Hn & _).
  exists lines. split; [exact Hl|exact Hn].
Defined.

(** * The trace of an execution *)
Section ExecutionTrace.
Import Js N8nClient Validator Client Formatter Tools.
#[local] Open Scope promise_scope.

Variable Date_getTime : string -> num.
Variable toFixed1 : float -> string.
Variable toLowerCase : string -> string.
Variable JSON_stringify : value -> string.
Variable env : Env.
Variable server : Server.

Lemma runsInOrder_elem entries nodeName runs run :
  (nodeName, runs) ∈ entries -> run ∈ runs -> (nodeName, run) ∈ runsInOrder entries.
Proof.
  intros He Hr. unfold runsInOrder. apply list_elem_of_In, in_flat_map.
  exists (nodeName, runs). split; [by apply list_elem_of_In|].
  apply in_map. by apply list_elem_of_In.
Qed.

Lemma numberedRuns_elem summarize maxPayloadSize runs nodeName run :
  (nodeName, run) ∈ runs ->
  forall first, exists index,
    forall line,
      line ∈ runLines JSON_stringify summarize maxPayloadSize index nodeName run ->
      line ∈ numberedRuns JSON_stringify summarize maxPayloadSize first runs.
Proof.
  induction runs as [|[n r] runs IH]; intros Hin first; [by apply elem_of_nil in Hin|].
  apply elem_of_cons in Hin as [[= <- <-]|Hin]; cbn [numberedRuns].
  - exists first. intros line Hl. apply elem_of_app. by left.
  - destruct (IH Hin (S first)) as [index Hi]. exists index.
    intros line Hl. apply elem_of_app. right. by apply Hi.
Qed.

(** X24.  The trace of an execution whose status is ['success'] ends
    with the line ['ERRORS: None'] whatever its runs hold: a run that
    carries an error is shown with the status ['ERROR'] and a line with
    the message of the error, a few lines above that last line.  A run
    whose execution time is zero is shown with ['?ms']. *)
Theorem successful_trace_ends_with_no_errors
    (execution : Execution) (workflow : option N8nWorkflow) (summarize : option bool) :
  ex_status execution = "success" ->
  let lines := traceLines Date_getTime toFixed1 JSON_stringify execution workflow
                 summarize in
  (exists front, lines = front ++ ["ERRORS: None"]) /\
  (forall entries nodeName runs run err,
      ex_runData execution = Some entries ->
      (nodeName, runs) ∈ entries -> run ∈ runs -> run_error run = Some err ->
      ("   ERROR: " +:+ err_message err) ∈ lines /\
      exists index : nat,
        (pretty index +:+ ". [" +:+ nodeName +:+ "] " +:+ runTime run +:+ " -> ERROR")
        ∈ lines) /\
  (forall run, run_executionTime run = 0 -> runTime run = "?ms").
Proof.
  intros Hs lines.
  assert (Hnone : errorSummary execution = ["ERRORS: None"]).
  { unfold errorSummary, extractError. by rewrite Hs. }
  subst lines. unfold traceLines. rewrite Hnone. split; [|split].
  - eexists. rewrite app_assoc. reflexivity.
  - intros entries nodeName runs run err Hd He Hr Herr. rewrite Hd.
    destruct (numberedRuns_elem (default false summarize) 500 (runsInOrder entries)
                nodeName run (runsInOrder_elem _ _ _ _ He Hr) 1%nat) as [index Hi].
    assert (Hmid : forall line,
               line ∈ runLines JSON_stringify (default false summarize) 500 index
                        nodeName run ->
               line ∈ ["EXECUTION: " +:+ ex_id execution;
                       "WORKFLOW: "
                       +:+ default (ex_workflowId execution)
                             (or_string (or_string (wf_name <$> workflow)
                                           (ex_workflowDataName execution))
                                        (Some (ex_workflowId execution)));
                       "STATUS: " +:+ ex_status execution +:+ " | TIME: "
                       +:+ durationStr toFixed1 (getExecutionDuration Date_getTime execution)
                       +:+ " | STARTED: " +:+ ex_startedAt execution;
                       ""]
                      ++ (["NODE TRACE (" +:+ pretty (length entries) +:+ " nodes):"; ""]
                          ++ numberedRuns JSON_stringify (default false summarize) 500 1
                               (runsInOrder entries))
                      ++ ["ERRORS: None"]).
    { intros line Hl. apply elem_of_app. right. apply elem_of_app. left.
      apply elem_of_app. right. by apply Hi. }
    split.
    + apply Hmid. unfold runLines. rewrite Herr.
      apply elem_of_app. right. apply elem_of_app. right. apply elem_of_app. left. left.
    + exists index. apply Hmid. unfold runLines, runStatus. rewrite Herr.
      apply elem_of_app. left. left.
  - intros run H0. unfold runTime. by rewrite H0.
Qed.

(** X25.  [handleGetExecutionTrace], its client constructed.  An id that
    the validator refuses is reported in the text and nothing is sent.
    Once the execution is fetched the handler always resolves to its
    trace: the fetch of the workflow, whether the validator refuses the
    workflow id or the server fails, is caught on its own, and the trace
    is then headed by the name in the execution's workflow data or else
    by the workflow id. *)
Theorem handleGetExecutionTrace_survives_a_missing_workflow
    (args : TraceArgs) (axios : Axios) :
  fst (construct env None None) = inr axios ->
  let run := handleGetExecutionTrace Date_getTime toFixed1 JSON_stringify env server
               args in
  (forall e, validateExecutionId (ta_executionId args) = inl e ->
     run = (inr ("Error fetching execution trace: " +:+ messageOf e), [])) /\
  (forall get execution,
     getExecutionRequest (ta_executionId args) true = inr get ->
     GET_execution server get = inr execution ->
     let answer := send (GET_workflow server) (getWorkflowRequest (ex_workflowId execution)) in
     let workflow := match answer with inr w => Some w | inl _ => None end in
     fst run
     = inr (join (String "010" "")
              (traceLines Date_getTime toFixed1 JSON_stringify execution workflow
                 (ta_summarize args))) /\
     snd run
     = get :: match getWorkflowRequest (ex_workflowId execution) with
              | inr workflowGet => [workflowGet]
              | inl _ => []
              end).
Proof.
  intros Hc run. subst run. unfold handleGetExecutionTrace.
  rewrite Hc, catch_resolves. unfold executionTrace. split.
  - intros e He. by rewrite He.
  - intros get execution Hget Hex.
    assert (Hv : validateExecutionId (ta_executionId args) = inr (ta_executionId args)).
    { unfold getExecutionRequest in Hget.
      unfold validateExecutionId in *.
      by destruct (validateId (ta_executionId args) "Execution ID"). }
    rewrite Hv. unfold getExecution, ask. rewrite Hget, Hex, andThen_inr.
    unfold tryGetWorkflow, getWorkflow, ask, send.
    destruct (getWorkflowRequest (ex_workflowId execution)) as [e|workflowGet].
    + cbn [andThen catch done fst snd app formatted formatExecutionTrace].
      unfold formatted, formatExecutionTrace, withClient. rewrite Hc. by split.
    + destruct (GET_workflow server workflowGet) as [e|workflow];
        cbn [andThen catch done fst snd app];
        unfold formatted, formatExecutionTrace, withClient; rewrite Hc; by split.
Qed.

End ExecutionTrace.

Lemma successful_trace_witness :
  Formatter.ex_status Samples.patchedRun = "success" /\
  Formatter.traceLines Samples.noDate Samples.oneDecimal Samples.braces
    Samples.patchedRun None None
  = ["EXECUTION: 3002"; "WORKFLOW: Agent";
     "STATUS: success | TIME: running | STARTED: 2024-05-01T10:00:00.000Z"; "";
     "NODE TRACE (1 nodes):"; "";
     "1. [Lookup] ?ms -> ERROR";
     "   ERROR: connect ECONNREFUSED 10.0.0.7:443"; "";
     "ERRORS: None"] /\
  exists front,
    Formatter.traceLines Samples.noDate Samples.oneDecimal Samples.braces
      Samples.patchedRun None None = front ++ ["ERRORS: None"].
Proof.
  assert (H : Formatter.ex_status Samples.patchedRun = "success") by reflexivity.
  split; [exact H|]. split; [vm_compute; reflexivity|].
  exact (proj1 (successful_trace_ends_with_no_errors Samples.noDate Samples.oneDecimal
                  Samples.braces Samples.patchedRun None None H)).
Defined.

Lemma missing_workflow_witness :
  fst (Client.construct Samples.env0 None None)
  = inr {| Client.baseURL := Client.defaultUrl;
           Client.headers := [("X-N8N-API-KEY", "n8n_api_0123456789abcdef");
                              ("Content-Type", "application/json")];
           Client.timeout := 30000 |} /\
  snd (Tools.handleGetExecutionTrace Samples.noDate Samples.oneDecimal Samples.braces
         Samples.env0 Samples.noWorkflows Samples.traceOf3001)
  = [{| Client.path := "/executions/3001";
        Client.params := [("includeData", Js.JBool true)] |};
     {| Client.path := "/workflows/W2"; Client.params := [] |}] /\
  fst (Tools.handleGetExecutionTrace Samples.noDate Samples.oneDecimal Samples.braces
         Samples.env0 Samples.noWorkflows Samples.traceOf3001)
  = inr (Js.join (String "010" "")
           (Formatter.traceLines Samples.noDate Samples.oneDecimal Samples.braces
              Samples.failedRun None None)).
Proof.
  assert (Hc : fst (Client.construct Samples.env0 None None)
               = inr {| Client.baseURL := Client.defaultUrl;
                        Client.headers := [("X-N8N-API-KEY", "n8n_api_0123456789abcdef");
                                           ("Content-Type", "application/json")];
                        Client.timeout := 30000 |}) by reflexivity.
  split; [exact Hc|].
  destruct (proj2 (handleGetExecutionTrace_survives_a_missing_workflow Samples.noDate
                     Samples.oneDecimal Samples.braces Samples.env0 Samples.noWorkflows
                     Samples.traceOf3001 _ Hc)
              {| Client.path := "/executions/3001";
                 Client.params := [("includeData", Js.JBool true)] |}
              Samples.failedRun eq_refl eq_refl) as [Htext Hsent].
  split; [exact Hsent|exact Htext].
Defined.

(** * What a search ends with: C4 *)
Section Returns.
Import Js N8nClient ExecutionCorrelator Logic Failures Sound.
#[local] Open Scope js_scope.

#[global] Instance resolved_composable {S} : Composable (@resolved S).
Proof.
  split; [by intros s _ e|]. intros s s1 s2 t1 t2 o _ H2 Hf.
  rewrite failures_app in Hf. apply app_eq_nil in Hf as [_ Hf]. by apply H2.
Qed.

Lemma resolved_request {S A} (r : Request) (answer : Error + A) :
  satisfies (@resolved S) (request r answer).
Proof. intros s. unfold request. by destruct answer as [e|a]; intros Hf e'. Qed.

Lemma resolved_quiet {S} (s s' : S) t : resolved s (Ret tt) s' t.
Proof. by intros _ e. Qed.

Variable URL_pathname : string -> option string.
Variable client : DataSource.
Variables timeWindowMs maxDepth : Z.
Hypothesis Hsound : hands_out_sound URL_pathname client timeWindowMs.

Lemma expand_resolved this recurse execution p d :
  sound URL_pathname timeWindowMs execution = true ->
  (forall c k d', sound URL_pathname timeWindowMs c = true ->
                  satisfies resolved (recurse c k d')) ->
  satisfies resolved (expand URL_pathname client this timeWindowMs recurse execution p d).
Proof.
  intros Hs Hrec. unfold sound in Hs.
  apply andb_true_iff in Hs as [Hs Hurls]. apply andb_true_iff in Hs as [Hv1 Hv2].
  intros s. unfold expand, toISOString. rewrite Hv1, Hv2, !bind_ret_l. revert s.
  assert (Hlist : forall workflowId' limit (body : N8nExecution -> M Search unit),
             (forall c, sound URL_pathname timeWindowMs c = true ->
                        satisfies resolved (body c)) ->
             satisfies resolved
               (candidates <- request (ListExecutions workflowId' limit)
                                (listExecutions client workflowId' limit) ;;
                for_of candidates body)).
  { intros wid limit body Hbody s. unfold bind, request.
    destruct (listExecutions client wid limit) as [e|candidates] eqn:E;
      [by intros Hf|].
    pose proof (satisfies_for_of resolved candidates body
                  (fun c Hc => Hbody c (proj2 Hsound _ _ _ c E Hc)) s) as H2.
    destruct (for_of candidates body s) as [[o s2] t2]. exact H2. }
  assert (Haccept : forall c cf m, sound URL_pathname timeWindowMs c = true ->
             satisfies resolved (accept recurse c p cf m d)).
  { intros c cf m Hc. unfold accept.
    apply satisfies_bind; [apply _|intros s; apply resolved_quiet|]. intros _. by apply Hrec. }
  apply satisfies_bind; [apply _| |].
  - apply satisfies_for_of; [apply _|]. intros httpCall Hin. unfold webhookCall.
    rewrite forallb_forall in Hurls.
    pose proof (Hurls httpCall (proj1 (list_elem_of_In _ _) Hin)) as Hu.
    unfold usable in Hu. unfold findWorkflowByWebhook.
    destruct (webhookPath URL_pathname (call_url httpCall)) as [e|path]; [discriminate|].
    destruct (find _ _) as [mapping|]; simpl; [|apply satisfies_ret; apply _].
    apply Hlist. intros c Hc s. unfold webhookCandidate, bind, get.
    destruct (bool_decide (id c ∈ visited s)); [apply resolved_quiet|].
    destruct (_ || _); [apply resolved_quiet|].
    destruct (PrimFloat.ltb 0.5 _); [|apply resolved_quiet].
    match goal with
    | |- context [accept recurse c p ?cf ?m d s] => pose proof (Haccept c cf m Hc s) as H
    end.
    destruct (accept _ _ _ _ _ _ s) as [[o s1] t1]. exact H.
  - intros _. apply satisfies_for_of; [apply _|]. intros wid _. unfold subWorkflow.
    destruct (String.eqb _ _); [apply satisfies_ret; apply _|].
    apply Hlist. intros c Hc s. unfold subWorkflowCandidate, bind, get.
    destruct (bool_decide (id c ∈ visited s)); [apply resolved_quiet|].
    destruct (_ || _); [apply resolved_quiet|].
    destruct (scoreSubWorkflow _ _ _ _) as [cf methods].
    destruct (PrimFloat.ltb 0.5 cf); [|apply resolved_quiet].
    pose proof (Haccept c cf (join "+" methods) Hc s) as H.
    destruct (accept _ _ _ _ _ _ s) as [[o s1] t1]. exact H.
Qed.

Lemma findCorrelatedExecutions_resolved this fuel :
  forall execution p d,
    sound URL_pathname timeWindowMs execution = true ->
    satisfies resolved
      (findCorrelatedExecutions URL_pathname client this timeWindowMs maxDepth
         fuel execution p d).
Proof.
  induction fuel as [|fuel IH]; intros execution p d Hs s.
  - by intros _ e.
  - rewrite findCorrelatedExecutions_S.
    destruct (d >=? maxDepth) eqn:Hd; [by intros _ e|].
    pose proof (expand_resolved this
                  (findCorrelatedExecutions URL_pathname client this timeWindowMs
                     maxDepth fuel) execution p d Hs
                  (fun c k d' Hc => IH c k d' Hc) s) as H.
    destruct (expand _ _ _ _ _ _ _ _ s) as [[o s1] t1]. exact H.
Qed.

End Returns.

Section Termination.
Import Js N8nClient ExecutionCorrelator Logic Failures Sound.
#[local] Open Scope js_scope.

Variable URL_pathname : string -> option string.
Variable client : DataSource.

Lemma resolved_correlateExecutions fuel rootExecutionId options :
  hands_out_sound URL_pathname client (default 30000 (opt_timeWindowMs options)) ->
  satisfies resolved
    (correlateExecutions URL_pathname client fuel rootExecutionId options).
Proof.
  intros Hs. unfold correlateExecutions, search.
  apply satisfies_bind; [apply _| |intros final; apply satisfies_ret; apply _].
  apply satisfies_bind; [apply _|apply satisfies_get; apply _|]. intros this.
  apply satisfies_bind; [apply _| |].
  - destruct (_ =? _)%nat; [|apply satisfies_ret; apply _].
    apply initialize_satisfies; [apply _| |intros f s; apply resolved_quiet].
    intros A r answer. apply resolved_request.
  - intros _ this'. rewrite bind_run. unfold request.
    destruct (getExecution client rootExecutionId) as [e|rootExecution] eqn:E;
      [by intros Hf|].
    unfold withSearch.
    pose proof (findCorrelatedExecutions_resolved URL_pathname client
                  (default 30000 (opt_timeWindowMs options))
                  (default 5 (opt_maxDepth options)) Hs this' fuel rootExecution
                  rootExecutionId 0 (proj1 Hs _ _ E)
                  {| results := []; visited := {[ rootExecutionId ]} |}) as H.
    destruct (findCorrelatedExecutions _ _ _ _ _ _ _ _ _ _) as [[[[]|e|] s1] t1];
      intros Hf e'; try done.
    exact (H Hf e').
Qed.

(** [search], step by step. *)
Lemma search_run fuel rootExecutionId options this :
  search URL_pathname client fuel rootExecutionId options this
  = match (if (length (webhookMappings this) =? 0)%nat
           then initialize client else ret tt) this with
    | (Ret _, this1, t0) =>
        match getExecution client rootExecutionId with
        | inl e =>
            (Throw e, this1, t0 ++ [Called (GetExecution rootExecutionId) (Some e)])
        | inr rootExecution =>
            let '(o, s, t) :=
              findCorrelatedExecutions URL_pathname client this1
                (default 30000 (opt_timeWindowMs options))
                (default 5 (opt_maxDepth options)) fuel rootExecution
                rootExecutionId 0
                {| results := []; visited := {[ rootExecutionId ]} |} in
            (match o with
             | Ret _ => Ret s
             | Throw e => Throw e
             | OutOfFuel => OutOfFuel
             end, this1, t0 ++ Called (GetExecution rootExecutionId) None :: t)
        end
    | (Throw e, this1, t0) => (Throw e, this1, t0)
    | (OutOfFuel, this1, t0) => (OutOfFuel, this1, t0)
    end.
Proof.
  unfold search, bind, get, request, withSearch.
  destruct ((if (length (webhookMappings this) =? 0)%nat
             then initialize client else ret tt) this) as [[[[]|e|] this1] t0];
    try reflexivity.
  destruct (getExecution client rootExecutionId) as [e|rootExecution]; [reflexivity|].
  by destruct (findCorrelatedExecutions _ _ _ _ _ _ _ _ _ _) as [[[[]|e|] s] t].
Qed.

(** An execution whose window has an end that is no date is not expanded:
    [toISOString] throws before anything is read or sent. *)
Lemma expand_undated this timeWindowMs recurse execution p d s :
  valid_time (num_sub (startedAt execution) 1000)
  && valid_time (num_add (startedAt execution) timeWindowMs) = false ->
  expand URL_pathname client this timeWindowMs recurse execution p d s
  = (Throw RangeError, s, []).
Proof.
  intros Hv. unfold expand, toISOString.
  destruct (valid_time (num_sub (startedAt execution) 1000)); [|reflexivity].
  rewrite bind_ret_l. simpl in Hv. by rewrite Hv.
Qed.


End Termination.

Lemma mutual_executions_listed :
  Failures.lists_within Scenario.mutualSource Scenario.mutualUniverse.
Proof.
  intros w limit candidates c Hl Hc. simpl in Hl.
  destruct (String.eqb w "WA"); [|destruct (String.eqb w "WB")];
    injection Hl as <-;
    repeat (apply elem_of_cons in Hc as [->|Hc]; [by vm_compute|]);
    by apply elem_of_nil in Hc.
Qed.

Lemma mutual_executions_sound :
  Sound.hands_out_sound Scenario.pathname Scenario.mutualSource 30000.
Proof.
  split.
  - intros i execution H. simpl in H.
    destruct (String.eqb i "a1"); [|discriminate]. by injection H as <-.
  - intros w limit candidates c Hl Hc. simpl in Hl.
    destruct (String.eqb w "WA"); [|destruct (String.eqb w "WB")];
      injection Hl as <-;
      repeat (apply elem_of_cons in Hc as [->|Hc]; [by vm_compute|]);
      by apply elem_of_nil in Hc.
Qed.


